(** * class-scheduler: the schedule engine, its annealing loop and the
      multi-run aggregator, embedded from the TypeScript sources

    Sources embedded here:
    - [src/utils/scheduleEngine.ts]   (ScheduleEngine)
    - [src/utils/simulatedAnnealing.ts] (SimulatedAnnealing,
      SimulatedAnnealingScheduler.generateSchedule)
    - [src/utils/parallelScheduler.ts]  (ParallelScheduler)
    - [src/utils/schedulerWorker.js]    (getWorkerParams)
    - [src/utils/schedule.ts]           (scheduleUtils)
    - [src/__tests__/constraints.test.ts] (the validation functions)
    - [src/types] (Class, ScheduledClass, Schedule, ScheduleConstraints, ...)

    Conventions of the embedding.
    - A JavaScript [number] that carries a score is an exact rational or one
      of NaN, +Infinity, -Infinity (rounding and the sign of zero are not
      modelled); counters and periods are integers ([Z]).
    - A [Date] is its [getTime()] value, milliseconds since the epoch.
    - [Math.random()] reads the next draw of an explicit random source.
    - A thrown exception is an explicit [Throw] completion. *)

From Stdlib Require Import QArith Qround Qabs Qpower Ascii String.
From stdpp Require Import base option list gmap strings.
From Stdlib Require Import ZArith Lia Lqa.

#[local] Open Scope Z_scope.

(** ** JavaScript numbers *)

Module JS.

Inductive number : Type :=
| NaN
| Infinity (negative : bool)
| Fin (q : Q).

Definition of_Z (z : Z) : number := Fin (inject_Z z).
Definition of_nat (n : nat) : number := of_Z (Z.of_nat n).

Definition Qneg_b (q : Q) : bool := Z.ltb (Qnum q) 0.
Definition Qzero_b (q : Q) : bool := Z.eqb (Qnum q) 0.

Definition neg (x : number) : number :=
  match x with
  | NaN => NaN
  | Infinity s => Infinity (negb s)
  | Fin q => Fin (Qred (- q))
  end.

Definition add (x y : number) : number :=
  match x, y with
  | NaN, _ | _, NaN => NaN
  | Infinity a, Infinity b => if Bool.eqb a b then Infinity a else NaN
  | Infinity a, Fin _ => Infinity a
  | Fin _, Infinity b => Infinity b
  | Fin a, Fin b => Fin (Qred (a + b))
  end.

Definition sub (x y : number) : number := add x (neg y).

Definition mul (x y : number) : number :=
  match x, y with
  | NaN, _ | _, NaN => NaN
  | Infinity a, Infinity b => Infinity (xorb a b)
  | Infinity a, Fin q | Fin q, Infinity a =>
      if Qzero_b q then NaN else Infinity (xorb a (Qneg_b q))
  | Fin a, Fin b => Fin (Qred (a * b))
  end.

Definition div (x y : number) : number :=
  match x, y with
  | NaN, _ | _, NaN => NaN
  | Infinity _, Infinity _ => NaN
  | Infinity a, Fin q => Infinity (xorb a (Qneg_b q))
  | Fin _, Infinity _ => Fin 0
  | Fin a, Fin b =>
      if Qzero_b b
      then (if Qzero_b a then NaN else Infinity (Qneg_b a))
      else Fin (Qred (a / b))
  end.

(** The ordering of two numbers; [None] when one of them is NaN, so that
    every comparison with NaN is false. *)
Definition compare (x y : number) : option comparison :=
  match x, y with
  | NaN, _ | _, NaN => None
  | Infinity a, Infinity b =>
      Some (if Bool.eqb a b then Eq else if a then Lt else Gt)
  | Infinity a, Fin _ => Some (if a then Lt else Gt)
  | Fin _, Infinity b => Some (if b then Gt else Lt)
  | Fin a, Fin b => Some (Qcompare a b)
  end.

Definition lt (x y : number) : bool :=
  match compare x y with Some Lt => true | _ => false end.
Definition gt (x y : number) : bool :=
  match compare x y with Some Gt => true | _ => false end.
Definition le (x y : number) : bool :=
  match compare x y with Some Lt | Some Eq => true | _ => false end.
Definition ge (x y : number) : bool :=
  match compare x y with Some Gt | Some Eq => true | _ => false end.

Definition is_finite (x : number) : bool :=
  match x with Fin _ => true | _ => false end.

(** [parseInt(s)] with no radix: leading (ASCII) white space, an optional
    sign, an optional [0x] prefix, then the longest run of digits; NaN when
    there is no digit. *)
Definition is_space (c : ascii) : bool :=
  let n := nat_of_ascii c in
  orb (Nat.eqb n 32) (andb (Nat.leb 9 n) (Nat.leb n 13)).

Fixpoint skip_spaces (s : string) : string :=
  match s with
  | String c s' => if is_space c then skip_spaces s' else s
  | EmptyString => s
  end.

Definition digit_value (radix : Z) (c : ascii) : option Z :=
  let n := Z.of_nat (nat_of_ascii c) in
  let v :=
    if Z.leb 48 n && Z.leb n 57 then Some (n - 48)
    else if Z.leb 97 n && Z.leb n 122 then Some (n - 87)
    else if Z.leb 65 n && Z.leb n 90 then Some (n - 55)
    else None in
  match v with
  | Some d => if Z.ltb d radix then Some d else None
  | None => None
  end.

Fixpoint digits (radix : Z) (s : string) (acc : option Z) : option Z :=
  match s with
  | String c s' =>
      match digit_value radix c with
      | Some d => digits radix s' (Some (default 0 acc * radix + d))
      | None => acc
      end
  | EmptyString => acc
  end.

Definition parseInt (s : string) : number :=
  let s1 := skip_spaces s in
  let '(negative, s2) :=
    match s1 with
    | String "-" r => (true, r)
    | String "+" r => (false, r)
    | _ => (false, s1)
    end in
  let '(radix, s3) :=
    match s2 with
    | String "0" (String "x" r) | String "0" (String "X" r) => (16, r)
    | _ => (10, s2)
    end in
  match digits radix s3 None with
  | Some v => of_Z (if negative then - v else v)
  | None => NaN
  end.

End JS.

Abbreviation number := JS.number.
Abbreviation NaN := JS.NaN.
Abbreviation Infinity := JS.Infinity.
Abbreviation Fin := JS.Fin.

(** ** Completions: a call returns normally or throws *)

Inductive Exception : Type :=
| TypeError
| Error (message : string)
| ConfigurationError.

Inductive Completion (A : Type) : Type :=
| Normal (value : A)
| Throw (exn : Exception).
Arguments Normal {A} value.
Arguments Throw {A} exn.

(** ** Data model ([src/types]) *)

(** A (valid) [Date], as the value of [getTime()]. *)
Definition Date := Z.

Definition msPerDay : Z := 24 * 60 * 60 * 1000.

(** [date.toISOString().split('T')[0]], the UTC calendar day of the date;
    the day is represented by its number since the epoch, which determines
    the text [YYYY-MM-DD] and is determined by it. *)
Definition dateKey (d : Date) : Z := d / msPerDay.

Record Conflict : Type := mkConflict {
  conflict_date : Date;
  conflict_period : Z
}.

Record Class : Type := mkClass {
  id : string;
  name : string;
  gradeLevel : string;
  gradeGroup : string;
  teacher : string;
  totalConflicts : list Conflict;
  partialConflicts : list Conflict
}.

(** [ScheduledClass extends Class]: the fields of the class, a date and a
    period. *)
Record ScheduledClass : Type := mkScheduledClass {
  base : Class;
  date : Date;
  period : Z
}.

Record ScheduleScore : Type := mkScore {
  totalLength : number;
  gradeGroupCohesion : number;
  distributionQuality : number;
  constraintViolations : number;
  gradeProgression : number;
  partialConflictPenalty : number
}.

Record Schedule : Type := mkSchedule {
  classes : list ScheduledClass;
  score : ScheduleScore
}.

(** The constraints value handed to the constructor; the limits are whole
    numbers.  The engine reads [maxPeriodsPerDay] and [maxClassesPerDay]; the
    other fields are the ones the second shape of [ScheduleConstraints] in
    the repository carries. *)
Record ConsecutivePeriods : Type := mkConsecutive {
  maximum : Z;
  requireBreak : Z
}.

Record ScheduleConstraints : Type := mkConstraints {
  maxPeriodsPerDay : Z;
  maxClassesPerDay : Z;
  maxPeriodsPerWeek : Z;
  consecutivePeriods : ConsecutivePeriods
}.

Inductive GradeProgression : Type := none | low_to_high | high_to_low.

Record SchedulePreferences : Type := mkPreferences {
  pref_gradeProgression : GradeProgression;
  preferSameGradeInDay : bool
}.

(** The private fields of [ScheduleEngine]. *)
Record ScheduleEngine : Type := mkEngine {
  eng_classes : list Class;
  eng_startDate : Date;
  eng_constraints : ScheduleConstraints
}.

Definition MAX_ITERATIONS : Z := 10000.

(** [new ScheduleEngine(classes, startDate, constraints, _preferences)]:
    three assignments; the preferences argument is not used. *)
Definition ScheduleEngine_new (cs : list Class) (startDate : Date)
    (constraints : ScheduleConstraints) (_preferences : SchedulePreferences)
  : Completion ScheduleEngine :=
  Normal {| eng_classes := cs;
            eng_startDate := startDate;
            eng_constraints := constraints |}.

(** ** The random source

    [Math.random()] returns the next draw of the source: a finite list of
    draws, followed by zeros.  A run reads finitely many draws, so every run
    on an infinite source is the run on one of its prefixes. *)

Definition Rng := list Q.

Definition Rand (A : Type) : Type := Rng -> A * Rng.

Definition ret {A} (a : A) : Rand A := fun g => (a, g).

Definition bind {A B} (m : Rand A) (k : A -> Rand B) : Rand B :=
  fun g => let '(a, g') := m g in k a g'.

Notation "x <- m ;; k" := (bind m (fun x => k))
  (at level 62, m at next level, right associativity).

Definition Math_random : Rand Q :=
  fun g => match g with
           | [] => (0%Q, [])
           | r :: g' => (r, g')
           end.

(** The draws [Math.random()] can return: [0 <= r < 1]. *)
Definition valid_draw (r : Q) : Prop := (0 <= r)%Q /\ (r < 1)%Q.
Definition valid_rng (g : Rng) : Prop := Forall valid_draw g.

Definition Qltb (a b : Q) : bool :=
  match Qcompare a b with Lt => true | _ => false end.

(** [Math.floor(Math.random() * n)] *)
Definition random_index (n : nat) : Rand Z :=
  r <- Math_random ;; ret (Qfloor (r * inject_Z (Z.of_nat n))).

(** [xs[i]] for a numeric index: [undefined] outside the array. *)
Definition array_get {A} (xs : list A) (i : Z) : option A :=
  if Z.ltb i 0 then None else xs !! Z.to_nat i.

(** [[...xs].sort(() => Math.random() - 0.5)]: a sort under a comparator
    that answers at random returns some permutation of the array, which one
    depending on the engine's sorting algorithm.  The permutation is chosen
    here by the draws, one element at a time. *)
Fixpoint shuffle_pick {A} (fuel : nat) (xs : list A) : Rand (list A) :=
  match fuel with
  | O => ret xs
  | S fuel' =>
      i <- random_index (length xs) ;;
      match array_get xs i with
      | Some x =>
          rest <- shuffle_pick fuel' (delete (Z.to_nat i) xs) ;;
          ret (x :: rest)
      | None => ret xs
      end
  end.

Definition shuffle {A} (xs : list A) : Rand (list A) :=
  shuffle_pick (length xs) xs.

(** ** Scoring ([calculateScore], [aggregateScore]) *)

(** A JavaScript [Map], in insertion order. *)
Section JSMap.
Context {K V : Type} `{EqDecision K}.

Fixpoint map_get (m : list (K * V)) (k : K) : option V :=
  match m with
  | [] => None
  | (k', v) :: m' => if decide (k' = k) then Some v else map_get m' k
  end.

Fixpoint map_set (m : list (K * V)) (k : K) (v : V) : list (K * V) :=
  match m with
  | [] => [(k, v)]
  | (k', v') :: m' =>
      if decide (k' = k) then (k, v) :: m' else (k', v') :: map_set m' k v
  end.
End JSMap.

(** [const groups = new Map(); classes.forEach(cls => { if (!groups.has(k))
    groups.set(k, []); groups.get(k)?.push(cls) })] *)
Definition group_by {K} `{EqDecision K} (key : ScheduledClass -> K)
    (cs : list ScheduledClass) : list (K * list ScheduledClass) :=
  fold_left
    (fun groups cls =>
       let groups' :=
         match map_get groups (key cls) with
         | Some _ => groups
         | None => map_set groups (key cls) []
         end in
       map_set groups' (key cls)
               (default [] (map_get groups' (key cls)) ++ [cls]))
    cs [].

(** The distances [|g[i].date - g[j].date|] for [i < j], in loop order. *)
Fixpoint pair_distances (g : list ScheduledClass) : list Z :=
  match g with
  | [] => []
  | x :: rest =>
      List.map (fun y => Z.abs (date x - date y)) rest ++ pair_distances rest
  end.

Definition cohesion_of_group (acc : number) (groupClasses : list ScheduledClass)
  : number :=
  let distances := pair_distances groupClasses in
  let totalDistance := JS.of_Z (fold_left Z.add distances 0) in
  let comparisons := JS.of_nat (length distances) in
  if JS.gt comparisons (Fin 0)
  then JS.add acc
         (JS.sub (Fin 1)
                 (JS.div (JS.div totalDistance comparisons)
                         (JS.of_Z (14 * 24 * 60 * 60 * 1000))))
  else acc.

Definition calc_gradeGroupCohesion (cs : list ScheduledClass) : number :=
  let gradeGroups := group_by (fun cls => gradeGroup (base cls)) cs in
  let total := fold_left cohesion_of_group (List.map snd gradeGroups) (Fin 0) in
  if Nat.ltb 0 (length gradeGroups)
  then JS.div total (JS.of_nat (length gradeGroups))
  else total.

Definition count_by_date (cs : list ScheduledClass) : list (Z * Z) :=
  fold_left
    (fun m cls =>
       map_set m (dateKey (date cls))
               (default 0 (map_get m (dateKey (date cls))) + 1))
    cs [].

Definition calc_distributionQuality (e : ScheduleEngine)
    (cs : list ScheduledClass) : number :=
  let classesByDate := count_by_date cs in
  let maxClassesPerDay := JS.of_Z (maxClassesPerDay (eng_constraints e)) in
  let total :=
    fold_left (fun dq count => JS.add dq (JS.div (JS.of_Z count) maxClassesPerDay))
              (List.map snd classesByDate) (Fin 0) in
  if Nat.ltb 0 (length classesByDate)
  then JS.div total (JS.of_nat (length classesByDate))
  else total.

(** [dayClasses.sort((a, b) => a.period - b.period)]: a stable sort. *)
Fixpoint insert_by_period (x : ScheduledClass) (l : list ScheduledClass)
  : list ScheduledClass :=
  match l with
  | [] => [x]
  | y :: rest =>
      if Z.leb (period x) (period y) then x :: l
      else y :: insert_by_period x rest
  end.

Definition sort_by_period (l : list ScheduledClass) : list ScheduledClass :=
  fold_right insert_by_period [] l.

(** [for (i = 0; i < dayClasses.length - 1; i++) if (parseInt(grade i) <=
    parseInt(grade (i+1))) gradeProgression++] *)
Fixpoint count_progressions (l : list ScheduledClass) (gp : number) : number :=
  match l with
  | a :: (b :: _) as rest =>
      count_progressions rest
        (if JS.le (JS.parseInt (gradeLevel (base a)))
                  (JS.parseInt (gradeLevel (base b)))
         then JS.add gp (Fin 1) else gp)
  | _ => gp
  end.

Definition progression_of_day (gp : number) (dayClasses : list ScheduledClass)
  : number :=
  let sorted := sort_by_period dayClasses in
  let gp' := count_progressions sorted gp in
  if Nat.ltb 1 (length sorted)
  then JS.div gp' (JS.of_nat (length sorted - 1))
  else gp'.

Definition calc_gradeProgression (cs : list ScheduledClass) : number :=
  let classesByDay := group_by (fun cls => dateKey (date cls)) cs in
  fold_left progression_of_day (List.map snd classesByDay) (Fin 0).

(** [conflicts.some(c => c.date.getTime() === date.getTime() &&
    c.period === period)] *)
Definition hasTotalConflict (conflicts : list Conflict) (d : Date) (p : Z)
  : bool :=
  existsb (fun c => Z.eqb (conflict_date c) d && Z.eqb (conflict_period c) p)
          conflicts.

(** [this.classes.find(c => c.id === i)] *)
Definition find_class (e : ScheduleEngine) (i : string) : option Class :=
  List.find (fun c => String.eqb (id c) i) (eng_classes e).

Definition violates (e : ScheduleEngine) (cls : ScheduledClass) : bool :=
  match find_class e (id (base cls)) with
  | None => false
  | Some originalClass =>
      hasTotalConflict (totalConflicts originalClass) (date cls) (period cls)
  end.

Definition calculateConstraintViolations (e : ScheduleEngine)
    (cs : list ScheduledClass) : number :=
  fold_left (fun violations cls =>
               if violates e cls then JS.add violations (Fin 1) else violations)
            cs (Fin 0).

Definition calculateScore (e : ScheduleEngine) (cs : list ScheduledClass)
  : ScheduleScore :=
  {| totalLength := JS.div (JS.of_nat (length cs))
                           (JS.of_nat (length (eng_classes e)));
     gradeGroupCohesion := calc_gradeGroupCohesion cs;
     distributionQuality := calc_distributionQuality e cs;
     constraintViolations := calculateConstraintViolations e cs;
     gradeProgression := calc_gradeProgression cs;
     partialConflictPenalty := Fin 0 |}.

(** The keys of the [weights] object, in the order [Object.entries] lists
    them. *)
Inductive ScoreKey : Type :=
| K_totalLength
| K_gradeGroupCohesion
| K_distributionQuality
| K_constraintViolations
| K_gradeProgression
| K_partialConflictPenalty.

Definition score_get (s : ScheduleScore) (k : ScoreKey) : number :=
  match k with
  | K_totalLength => totalLength s
  | K_gradeGroupCohesion => gradeGroupCohesion s
  | K_distributionQuality => distributionQuality s
  | K_constraintViolations => constraintViolations s
  | K_gradeProgression => gradeProgression s
  | K_partialConflictPenalty => partialConflictPenalty s
  end.

Definition weights : list (ScoreKey * number) :=
  [ (K_totalLength, Fin 1);
    (K_gradeGroupCohesion, Fin (1 # 2));
    (K_distributionQuality, Fin (3 # 10));
    (K_constraintViolations, Fin (-100));
    (K_gradeProgression, Fin (2 # 5));
    (K_partialConflictPenalty, Fin 0) ].

Definition aggregateScore (scores : ScheduleScore) : number :=
  fold_left (fun total kw => JS.add total (JS.mul (score_get scores (fst kw)) (snd kw)))
            weights (Fin 0).

(** ** Searching a slot (the nested [for] loops of [generateInitialSolution]
       and [mutateSchedule]) *)

Definition Slot : Type := Date * Z.

(** State of the search after a scan: the slot on which the draw
    [Math.random() < 0.99] succeeded, if any (the loops stop there), and
    [bestSlot], the first slot seen without a total conflict. *)
Record Search : Type := mkSearch {
  accepted : option Slot;
  bestSlot : option Slot
}.

(** [classesPerDay.get(dateKey) || 0] *)
Definition day_count (classesPerDay : gmap Z Z) (k : Z) : Z :=
  default 0 (classesPerDay !! k).

(** The inner loop, [for (const period of shuffledPeriods)]. *)
Fixpoint scanPeriods (conflicts : list Conflict) (d : Date) (ps : list Z)
    (best : option Slot) : Rand Search :=
  match ps with
  | [] => ret (mkSearch None best)
  | p :: ps' =>
      if hasTotalConflict conflicts d p
      then scanPeriods conflicts d ps' best
      else
        let best' := match best with
                     | None => Some (d, p)
                     | Some _ => best
                     end in
        r <- Math_random ;;
        if Qltb r (99 # 100)
        then ret (mkSearch (Some (d, p)) best')
        else scanPeriods conflicts d ps' best'
  end.

(** The outer loop, [for (const date of shuffledDates)]. *)
Fixpoint scanDates (conflicts : list Conflict) (maxPerDay : Z)
    (classesPerDay : gmap Z Z) (ds : list Date) (ps : list Z)
    (best : option Slot) : Rand Search :=
  match ds with
  | [] => ret (mkSearch None best)
  | d :: ds' =>
      let currentClassesOnDay := day_count classesPerDay (dateKey d) in
      if Z.leb maxPerDay currentClassesOnDay
      then scanDates conflicts maxPerDay classesPerDay ds' ps best
      else
        s <- scanPeriods conflicts d ps best ;;
        match accepted s with
        | Some _ => ret s
        | None =>
            scanDates conflicts maxPerDay classesPerDay ds' ps (bestSlot s)
        end
  end.

(** [getDateRange(startDate, numDays)]: [setDate(getDate() + 1)] moves to the
    same local time on the next civil day, taken here as 24 hours later (no
    clock change inside the window). *)
Definition getDateRange (startDate : Date) (numDays : nat) : list Date :=
  List.map (fun i => startDate + Z.of_nat i * msPerDay) (seq 0 numDays).

(** [Array.from({ length: n }, (_, i) => i + 1)] *)
Definition periods_of (maxPeriodsPerDay : Z) : list Z :=
  List.map (fun i => Z.of_nat i + 1) (seq 0 (Z.to_nat maxPeriodsPerDay)).

Definition schedule_class (cls : Class) (s : Slot) : ScheduledClass :=
  {| base := cls; date := fst s; period := snd s |}.

(** ** [generateInitialSolution] *)

(** The state the [forEach] over the catalogue updates. *)
Record Builder : Type := mkBuilder {
  placed : list ScheduledClass;
  perDay : gmap Z Z
}.

Definition place (b : Builder) (cls : Class) (s : Slot) : Builder :=
  {| placed := placed b ++ [schedule_class cls s];
     perDay := <[dateKey (fst s) := day_count (perDay b) (dateKey (fst s)) + 1]>
                 (perDay b) |}.

(** One iteration of [this.classes.forEach(cls => ...)]. *)
Definition placeClass (e : ScheduleEngine) (dates : list Date) (periods : list Z)
    (b : Builder) (cls : Class) : Rand Builder :=
  shuffledDates <- shuffle dates ;;
  shuffledPeriods <- shuffle periods ;;
  s <- scanDates (totalConflicts cls) (maxClassesPerDay (eng_constraints e))
                 (perDay b) shuffledDates shuffledPeriods None ;;
  match accepted s with
  | Some slot => ret (place b cls slot)
  | None =>
      match bestSlot s with
      | Some slot => ret (place b cls slot)
      | None => ret b
      end
  end.

Fixpoint placeAll (e : ScheduleEngine) (dates : list Date) (periods : list Z)
    (b : Builder) (cs : list Class) : Rand Builder :=
  match cs with
  | [] => ret b
  | cls :: cs' =>
      b' <- placeClass e dates periods b cls ;;
      placeAll e dates periods b' cs'
  end.

Definition generateInitialSolution (e : ScheduleEngine) : Rand Schedule :=
  let dates := getDateRange (eng_startDate e) 14 in
  let periods := periods_of (maxPeriodsPerDay (eng_constraints e)) in
  b <- placeAll e dates periods (mkBuilder [] ∅) (eng_classes e) ;;
  ret {| classes := placed b; score := calculateScore e (placed b) |}.

(** ** [mutateSchedule] *)

(** [newClasses.forEach(cls => classesPerDay.set(key, (get(key) || 0) + 1))] *)
Definition count_per_day (cs : list ScheduledClass) : gmap Z Z :=
  fold_left (fun m cls =>
               <[dateKey (date cls) := day_count m (dateKey (date cls)) + 1]> m)
            cs ∅.

(** [classesPerDay.set(oldDateKey, (classesPerDay.get(oldDateKey) || 1) - 1)] *)
Definition remove_from_day (m : gmap Z Z) (k : Z) : gmap Z Z :=
  let n := match m !! k with
           | None | Some 0 => 1
           | Some n => n
           end in
  <[k := n - 1]> m.

Definition mutateSchedule (e : ScheduleEngine) (schedule : Schedule)
  : Rand (Completion Schedule) :=
  let newClasses := classes schedule in
  let dates := getDateRange (eng_startDate e) 14 in
  let periods := periods_of (maxPeriodsPerDay (eng_constraints e)) in
  let classesPerDay := count_per_day newClasses in
  indexToMove <- random_index (length newClasses) ;;
  match array_get newClasses indexToMove with
  | None => ret (Throw TypeError)
  | Some classToMove =>
      match find_class e (id (base classToMove)) with
      | None => ret (Normal schedule)
      | Some originalClass =>
          let classesPerDay' :=
            remove_from_day classesPerDay (dateKey (date classToMove)) in
          shuffledDates <- shuffle dates ;;
          shuffledPeriods <- shuffle periods ;;
          s <- scanDates (totalConflicts originalClass)
                         (maxClassesPerDay (eng_constraints e))
                         classesPerDay' shuffledDates shuffledPeriods None ;;
          let newClasses' :=
            match bestSlot s with
            | Some slot =>
                <[Z.to_nat indexToMove := schedule_class (base classToMove) slot]>
                  newClasses
            | None => newClasses
            end in
          ret (Normal {| classes := newClasses';
                         score := calculateScore e newClasses' |})
      end
  end.

(** ** [generateSchedule]: the annealing loop *)

(** The variables of the loop. *)
Record LoopState : Type := mkLoop {
  iterations : Z;
  bestScore : number;
  lastImprovement : Z;
  currentSchedule : Schedule;
  bestSchedule : Schedule
}.

Definition maxIterationsWithoutImprovement : Z := 1000.

(** [iterations < MAX_ITERATIONS &&
     (iterations - lastImprovement) < maxIterationsWithoutImprovement] *)
Definition loop_condition (st : LoopState) : bool :=
  Z.ltb (iterations st) MAX_ITERATIONS
  && Z.ltb (iterations st - lastImprovement st) maxIterationsWithoutImprovement.

(** [initialTemperature * Math.pow(coolingRate, iterations)] *)
Definition temperature_at (i : Z) : number :=
  JS.mul (Fin 1) (Fin (Qred (Qpower (995 # 1000) i))).

Section Annealing.

(** [Math.exp], left abstract. *)
Variable Math_exp : number -> number.

(** [newScore > currentScore ||
     Math.random() < Math.exp((newScore - currentScore) / temperature)];
    the draw is made only when the first test fails. *)
Definition accepts (newScore currentScore temperature : number) : Rand bool :=
  if JS.gt newScore currentScore then ret true
  else
    r <- Math_random ;;
    ret (JS.lt (Fin r)
               (Math_exp (JS.div (JS.sub newScore currentScore) temperature))).

(** The body of the [while] loop. *)
Definition iteration (e : ScheduleEngine) (st : LoopState)
  : Rand (Completion LoopState) :=
  let temperature := temperature_at (iterations st) in
  m <- mutateSchedule e (currentSchedule st) ;;
  match m with
  | Throw exn => ret (Throw exn)
  | Normal newSchedule =>
      let currentScore := aggregateScore (score (currentSchedule st)) in
      let newScore := aggregateScore (score newSchedule) in
      accept <- accepts newScore currentScore temperature ;;
      ret (Normal
        (if accept : bool then
           if JS.gt newScore (bestScore st) then
             {| iterations := iterations st + 1;
                bestScore := newScore;
                lastImprovement := iterations st;
                currentSchedule := newSchedule;
                bestSchedule := newSchedule |}
           else
             {| iterations := iterations st + 1;
                bestScore := bestScore st;
                lastImprovement := lastImprovement st;
                currentSchedule := newSchedule;
                bestSchedule := bestSchedule st |}
         else
           {| iterations := iterations st + 1;
              bestScore := bestScore st;
              lastImprovement := lastImprovement st;
              currentSchedule := currentSchedule st;
              bestSchedule := bestSchedule st |}))
  end.

(** The [while] loop, run for at most [fuel] iterations: [None] when the
    fuel runs out while the condition still holds. *)
Fixpoint annealing_loop (fuel : nat) (e : ScheduleEngine) (st : LoopState)
  : Rand (option (Completion LoopState)) :=
  if loop_condition st then
    match fuel with
    | O => ret None
    | S fuel' =>
        c <- iteration e st ;;
        match c with
        | Throw exn => ret (Some (Throw exn))
        | Normal st' => annealing_loop fuel' e st'
        end
    end
  else ret (Some (Normal st)).

Definition initial_state (s : Schedule) : LoopState :=
  {| iterations := 0;
     bestScore := Infinity true;
     lastImprovement := 0;
     currentSchedule := s;
     bestSchedule := s |}.

(** [generateSchedule] up to the [return]: the state the loop ends in. *)
Definition generateSchedule_run (fuel : nat) (e : ScheduleEngine)
  : Rand (option (Completion LoopState)) :=
  s <- generateInitialSolution e ;;
  annealing_loop fuel e (initial_state s).

Definition returned (r : option (Completion LoopState))
  : option (Completion Schedule) :=
  match r with
  | None => None
  | Some (Throw exn) => Some (Throw exn)
  | Some (Normal st) => Some (Normal (bestSchedule st))
  end.

Definition generateSchedule_fuel (fuel : nat) (e : ScheduleEngine) (g : Rng)
  : option (Completion Schedule) :=
  returned (fst (generateSchedule_run fuel e g)).

(** [generateSchedule()]: the condition of the loop fails after at most
    [MAX_ITERATIONS] iterations, so this fuel is never exhausted (see
    [annealing_loop_terminates] below). *)
Definition generateSchedule (e : ScheduleEngine) (g : Rng)
  : option (Completion Schedule) :=
  generateSchedule_fuel (Z.to_nat MAX_ITERATIONS) e g.

End Annealing.

(** ** [mutateSchedule] on the heap
    Arrays, scheduled classes and schedules are objects; a variable holds a
    reference.  This is the model in which "the input schedule is not
    modified" says something: the function below allocates and writes, and
    the pure [mutateSchedule] above is what it computes.  [calculateScore]
    fills and sorts arrays of its own (the values of its maps) and writes to
    no object it is given; it is applied to the contents of [newClasses]. *)

Definition loc : Type := positive.

Inductive object : Type :=
| ArrayObj (elements : list loc)
| ClassObj (c : ScheduledClass)
| ScheduleObj (classes_ref : loc) (cached_score : ScheduleScore).

Definition alloc (h : gmap loc object) (o : object) : loc * gmap loc object :=
  (fresh (dom h), <[fresh (dom h) := o]> h).

Definition deref_class (h : gmap loc object) (l : loc) : option ScheduledClass :=
  match h !! l with
  | Some (ClassObj c) => Some c
  | _ => None
  end.

(** The contents of an array of scheduled classes. *)
Definition read_classes (h : gmap loc object) (arr : loc)
  : option (list ScheduledClass) :=
  match h !! arr with
  | Some (ArrayObj elements) => mapM (deref_class h) elements
  | _ => None
  end.

(** The schedule value a reference stands for. *)
Definition read_schedule (h : gmap loc object) (s : loc) : option Schedule :=
  match h !! s with
  | Some (ScheduleObj classes_ref cached) =>
      match read_classes h classes_ref with
      | Some cs => Some {| classes := cs; score := cached |}
      | None => None
      end
  | _ => None
  end.

(** [mutateSchedule(schedule)], statement by statement.  Reading a field of
    something that is not the expected object is a [TypeError]. *)
Definition mutateSchedule_heap (e : ScheduleEngine) (h : gmap loc object)
    (schedule : loc) : Rand (Completion loc * gmap loc object) :=
  match h !! schedule with
  | Some (ScheduleObj classes_ref _) =>
    match h !! classes_ref with
    | Some (ArrayObj elements) =>
      (* const newClasses = [...schedule.classes] *)
      let newClasses := fst (alloc h (ArrayObj elements)) in
      let h1 := snd (alloc h (ArrayObj elements)) in
      match read_classes h1 newClasses with
      | None => ret (Throw TypeError, h1)
      | Some cs =>
        let dates := getDateRange (eng_startDate e) 14 in
        let periods := periods_of (maxPeriodsPerDay (eng_constraints e)) in
        let classesPerDay := count_per_day cs in
        indexToMove <- random_index (length elements) ;;
        match array_get elements indexToMove with
        | None => ret (Throw TypeError, h1)
        | Some class_ref =>
          match deref_class h1 class_ref with
          | None => ret (Throw TypeError, h1)
          | Some classToMove =>
            match find_class e (id (base classToMove)) with
            | None => ret (Normal schedule, h1)
            | Some originalClass =>
              let classesPerDay' :=
                remove_from_day classesPerDay (dateKey (date classToMove)) in
              shuffledDates <- shuffle dates ;;
              shuffledPeriods <- shuffle periods ;;
              s <- scanDates (totalConflicts originalClass)
                             (maxClassesPerDay (eng_constraints e))
                             classesPerDay' shuffledDates shuffledPeriods None ;;
              (* newClasses[indexToMove] = { ...classToMove, date, period } *)
              let h3 :=
                match bestSlot s with
                | Some slot =>
                    let moved := ClassObj (schedule_class (base classToMove) slot) in
                    let new_ref := fst (alloc h1 moved) in
                    let h2 := snd (alloc h1 moved) in
                    <[newClasses :=
                        ArrayObj (<[Z.to_nat indexToMove := new_ref]> elements)]> h2
                | None => h1
                end in
              (* return { classes: newClasses, score } *)
              match read_classes h3 newClasses with
              | None => ret (Throw TypeError, h3)
              | Some cs' =>
                  ret (Normal (fst (alloc h3 (ScheduleObj newClasses
                                                (calculateScore e cs')))),
                       snd (alloc h3 (ScheduleObj newClasses
                                                  (calculateScore e cs'))))
              end
            end
          end
        end
      end
    | _ => ret (Throw TypeError, h)
    end
  | _ => ret (Throw TypeError, h)
  end.

(** ** Validation of constraints ([constraints.test.ts]) *)

(** The validation functions of [constraints.test.ts]. *)
Definition validateMaxPeriodsPerDay (maxPeriodsPerDay : Z) : bool :=
  Z.ltb 0 maxPeriodsPerDay && Z.leb maxPeriodsPerDay 8.

Definition validateMaxPeriodsPerWeek (maxPeriodsPerWeek : Z)
    (maxPeriodsPerDay : option Z) : bool :=
  if Z.leb maxPeriodsPerWeek 0 || Z.ltb 40 maxPeriodsPerWeek then false
  else
    match maxPeriodsPerDay with
    | Some perDay =>
        if negb (Z.eqb perDay 0) && Z.ltb maxPeriodsPerWeek (perDay * 5)
        then false else true
    | None => true
    end.

Definition validateConsecutivePeriods (c : ConsecutivePeriods) : bool :=
  bool_decide (maximum c ∈ [1; 2]) && bool_decide (requireBreak c ∈ [1; 2]).

(** The validity conditions of the specification: the three validations and
    the bound [maxPeriodsPerWeek <= maxPeriodsPerDay * 5]. *)
Definition constraints_valid (k : ScheduleConstraints) : bool :=
  validateConsecutivePeriods (consecutivePeriods k)
  && validateMaxPeriodsPerDay (maxPeriodsPerDay k)
  && validateMaxPeriodsPerWeek (maxPeriodsPerWeek k) (Some (maxPeriodsPerDay k))
  && Z.leb (maxPeriodsPerWeek k) (maxPeriodsPerDay k * 5).

(** ** The multi-run aggregator ([parallelScheduler.ts]) *)

Definition failure_message : string :=
  "Failed to generate a valid schedule. Please try adjusting the constraints.".

(** [SimulatedAnnealingScheduler.generateSchedule], the [try]/[catch] of
    lines 211-223.  The annealer behind [this.simulatedAnnealing.optimize]
    calls methods that [scheduleEngine.ts] does not have, so the completion of
    that call is an argument: the schedule it yields, as the code uses it
    ([optimizedSchedule.classes.length]), or the exception it throws. *)
Definition SimulatedAnnealingScheduler_generateSchedule
    (optimize : Completion Schedule) : Completion Schedule :=
  let tried :=
    match optimize with
    | Throw exn => Throw exn
    | Normal optimizedSchedule =>
        if Nat.eqb (length (classes optimizedSchedule)) 0
        then Throw (Error "No classes could be scheduled")
        else Normal optimizedSchedule
    end in
  match tried with
  | Normal s => Normal s
  | Throw _ => Throw (Error failure_message)
  end.

Record ParallelScheduler : Type := mkParallel {
  par_classes : list Class;
  workerCount : Z
}.

(** The constructor caps the number of workers at 8. *)
Definition ParallelScheduler_new (cs : list Class) (workers : Z)
  : ParallelScheduler :=
  {| par_classes := cs; workerCount := Z.min workers 8 |}.

(** [gradeGroupCohesion + distributionQuality +
     (schedule.classes.length / this.classes.length) * 1000] *)
Definition worker_score (p : ParallelScheduler) (s : Schedule) : number :=
  JS.add (JS.add (gradeGroupCohesion (score s)) (distributionQuality (score s)))
         (JS.mul (JS.div (JS.of_nat (length (classes s)))
                         (JS.of_nat (length (par_classes p))))
                 (Fin 1000)).

(** The [for] loop over the workers; [runs] lists the completions of the
    remaining runs.  A throwing run ends the loop and the call. *)
Fixpoint run_workers (p : ParallelScheduler) (runs : list (Completion Schedule))
    (best : option Schedule) (best_score : number)
  : Completion (option Schedule) :=
  match runs with
  | [] => Normal best
  | run :: rest =>
      match SimulatedAnnealingScheduler_generateSchedule run with
      | Throw exn => Throw exn
      | Normal schedule =>
          if JS.gt (worker_score p schedule) best_score
          then run_workers p rest (Some schedule) (worker_score p schedule)
          else run_workers p rest best best_score
      end
  end.

(** [ParallelScheduler.generateSchedule]; [optimize i] is the completion of
    the annealer of run [i].  The result is [bestSchedule], which is
    [null] ([None]) when no score exceeded [-Infinity]. *)
Definition ParallelScheduler_generateSchedule (p : ParallelScheduler)
    (optimize : nat -> Completion Schedule) : Completion (option Schedule) :=
  run_workers p (List.map optimize (seq 0 (Z.to_nat (workerCount p))))
              None (Infinity true).

(** ** Vocabulary of the statements *)

(** A slot the search may hand out: inside the scanned window, free of total
    conflicts, on a day that is not full. *)
Definition ok_slot (conflicts : list Conflict) (maxPerDay : Z)
    (classesPerDay : gmap Z Z) (ds : list Date) (ps : list Z) (slot : Slot)
  : Prop :=
  fst slot ∈ ds /\ snd slot ∈ ps /\
  hasTotalConflict conflicts (fst slot) (snd slot) = false /\
  day_count classesPerDay (dateKey (fst slot)) < maxPerDay.

(** The number of scheduled classes whose date falls on the day [k]. *)
Definition classes_on_day (k : Z) (cs : list ScheduledClass) : Z :=
  Z.of_nat (length (filter (fun c => dateKey (date c) = k) cs)).

(** No class sits on one of its own total conflicts. *)
Definition conflict_free (c : ScheduledClass) : Prop :=
  hasTotalConflict (totalConflicts (base c)) (date c) (period c) = false.

(** No day that carries a class carries more than [maxPerDay] classes. *)
Definition cap_ok (maxPerDay : Z) (cs : list ScheduledClass) : Prop :=
  forall k, 0 < classes_on_day k cs -> classes_on_day k cs <= maxPerDay.

(** The scheduled class was made from a class of the catalogue. *)
Definition known (e : ScheduleEngine) (c : ScheduledClass) : Prop :=
  base c ∈ eng_classes e.

(** What [generateInitialSolution] maintains while it places the classes;
    [classesPerDay] holds the count of each day. *)
Record builder_ok (e : ScheduleEngine) (b : Builder) : Prop := {
  placed_free : Forall conflict_free (placed b);
  placed_known : Forall (known e) (placed b);
  perDay_counts : forall k, day_count (perDay b) k = classes_on_day k (placed b);
  placed_cap : cap_ok (maxClassesPerDay (eng_constraints e)) (placed b)
}.

(** What the loop maintains for its schedules. *)
Record schedule_ok (e : ScheduleEngine) (s : Schedule) : Prop := {
  ok_free : Forall conflict_free (classes s);
  ok_known : Forall (known e) (classes s);
  ok_score : score s = calculateScore e (classes s)
}.

(** The schedule respects [constraints.maxClassesPerDay]. *)
Definition schedule_cap (e : ScheduleEngine) (s : Schedule) : Prop :=
  cap_ok (maxClassesPerDay (eng_constraints e)) (classes s).

(** A destination the mutation may choose for the class at index [i]: a slot
    of the 14-day window, free of total conflicts of the catalogue's class
    with that id, on a day that is not full once the class has left its own
    day. *)
Definition legal_destination (e : ScheduleEngine) (cs : list ScheduledClass)
    (classToMove : ScheduledClass) (originalClass : Class) (slot : Slot) : Prop :=
  ok_slot (totalConflicts originalClass)
          (maxClassesPerDay (eng_constraints e))
          (remove_from_day (count_per_day cs) (dateKey (date classToMove)))
          (getDateRange (eng_startDate e) 14)
          (periods_of (maxPeriodsPerDay (eng_constraints e)))
          slot.

(** The three ways a mutation returns. *)
Inductive mutation (e : ScheduleEngine) (s : Schedule) : Schedule -> Prop :=
| mutation_unknown i classToMove :
    classes s !! i = Some classToMove ->
    find_class e (id (base classToMove)) = None ->
    mutation e s s
| mutation_stay i classToMove originalClass :
    classes s !! i = Some classToMove ->
    find_class e (id (base classToMove)) = Some originalClass ->
    mutation e s {| classes := classes s;
                    score := calculateScore e (classes s) |}
| mutation_move i classToMove originalClass slot :
    classes s !! i = Some classToMove ->
    find_class e (id (base classToMove)) = Some originalClass ->
    legal_destination e (classes s) classToMove originalClass slot ->
    let cs' := <[i := schedule_class (base classToMove) slot]> (classes s) in
    mutation e s {| classes := cs'; score := calculateScore e cs' |}.

(** The state after an iteration that does not throw. *)
Inductive step (e : ScheduleEngine) (st st' : LoopState) : Prop :=
| step_improve newSchedule :
    mutation e (currentSchedule st) newSchedule ->
    JS.gt (aggregateScore (score newSchedule)) (bestScore st) = true ->
    st' = {| iterations := iterations st + 1;
             bestScore := aggregateScore (score newSchedule);
             lastImprovement := iterations st;
             currentSchedule := newSchedule;
             bestSchedule := newSchedule |} ->
    step e st st'
| step_accept newSchedule :
    mutation e (currentSchedule st) newSchedule ->
    JS.gt (aggregateScore (score newSchedule)) (bestScore st) = false ->
    st' = {| iterations := iterations st + 1;
             bestScore := bestScore st;
             lastImprovement := lastImprovement st;
             currentSchedule := newSchedule;
             bestSchedule := bestSchedule st |} ->
    step e st st'
| step_reject newSchedule :
    mutation e (currentSchedule st) newSchedule ->
    JS.gt (aggregateScore (score newSchedule))
          (aggregateScore (score (currentSchedule st))) = false ->
    st' = {| iterations := iterations st + 1;
             bestScore := bestScore st;
             lastImprovement := lastImprovement st;
             currentSchedule := currentSchedule st;
             bestSchedule := bestSchedule st |} ->
    step e st st'.

(** Counters of the loop. *)
Definition counters_ok (st : LoopState) : Prop :=
  0 <= lastImprovement st <= iterations st /\
  iterations st <= MAX_ITERATIONS /\
  iterations st - lastImprovement st <= maxIterationsWithoutImprovement.

(** A computation that leaves valid draws in the source. *)
Definition keeps_valid {A} (m : Rand A) : Prop :=
  forall g, valid_rng g -> valid_rng (snd (m g)).

(** The cached score is the score of the classes. *)
Definition scored (e : ScheduleEngine) (s : Schedule) : Prop :=
  score s = calculateScore e (classes s).

(** A run fails when it throws or schedules no class. *)
Definition run_fails (run : Completion Schedule) : Prop :=
  match run with
  | Throw _ => True
  | Normal s => classes s = []
  end.

(** A rational stand-in for [Math.exp], to instantiate the loop on concrete
    inputs: positive on finite arguments, 1 at 0, 0 at -Infinity. *)
Definition exp_approx (x : number) : number :=
  match x with
  | NaN => NaN
  | Infinity true => Fin 0
  | Infinity false => Infinity false
  | Fin q =>
      if Qle_bool q 0
      then Fin (Qred (1 / (1 - q)))
      else Fin (Qred (1 + q))
  end.

(** ** Concrete inputs *)

(** 2024-01-01T00:00:00Z. *)
Definition sample_start : Date := 1704067200000.

Definition sample_constraints : ScheduleConstraints :=
  {| maxPeriodsPerDay := 8; maxClassesPerDay := 2; maxPeriodsPerWeek := 40;
     consecutivePeriods := {| maximum := 2; requireBreak := 1 |} |}.

Definition sample_class (i lvl grp : string) (conflicts : list Conflict) : Class :=
  {| id := i; name := i; gradeLevel := lvl; gradeGroup := grp;
     teacher := "T"; totalConflicts := conflicts; partialConflicts := [] |}.

(** A small catalogue: three classes, one of them barred from the first
    period of the first day. *)
Definition sample_engine : ScheduleEngine :=
  {| eng_classes :=
       [ sample_class "a" "1" "elementary" [mkConflict sample_start 1];
         sample_class "b" "2" "elementary" [];
         sample_class "c" "7" "middle" [] ];
     eng_startDate := sample_start;
     eng_constraints := sample_constraints |}.

Definition sample_rng : Rng :=
  [ (1 # 3); (1 # 2); (3 # 4); (1 # 5); (0 # 1); (2 # 3); (9 # 10); (1 # 7) ]%Q.

(** A catalogue of one class that no slot of the window can take: one
    period a day, and a total conflict on that period on each of the 14
    days. *)
Definition blocked_engine : ScheduleEngine :=
  {| eng_classes :=
       [ sample_class "x" "1" "elementary"
           (List.map (fun d => mkConflict d 1) (getDateRange sample_start 14)) ];
     eng_startDate := sample_start;
     eng_constraints :=
       {| maxPeriodsPerDay := 1; maxClassesPerDay := 6; maxPeriodsPerWeek := 5;
          consecutivePeriods := {| maximum := 2; requireBreak := 1 |} |} |}.

(** Two classes of one grade group, grade 2 listed before grade 1; two
    periods a day, two classes a day. *)
Definition bug_engine : ScheduleEngine :=
  {| eng_classes :=
       [ sample_class "A" "2" "elementary" [];
         sample_class "B" "1" "elementary" [] ];
     eng_startDate := sample_start;
     eng_constraints :=
       {| maxPeriodsPerDay := 2; maxClassesPerDay := 2; maxPeriodsPerWeek := 10;
          consecutivePeriods := {| maximum := 2; requireBreak := 1 |} |} |}.

(** Draws: the shuffles for class A keep the order (16 draws of 0), its
    first slot is turned down ([0.995 >= 0.99]), every later draw is 0. *)
Definition bug_rng : Rng := repeat 0%Q 16 ++ [(995 # 1000)%Q].

Definition bug_initial : Schedule :=
  fst (generateInitialSolution bug_engine bug_rng).

Definition bug_candidate : Schedule :=
  Eval vm_compute in
    match fst (mutateSchedule bug_engine bug_initial []) with
    | Normal s => s
    | Throw _ => bug_initial
    end.

Definition monday : Date := sample_start.
Definition tuesday : Date := sample_start + msPerDay.

(** Scenario 1: two classes of different grade groups on two days. *)
Definition scenario_two_days : list ScheduledClass :=
  [ schedule_class (sample_class "1" "1" "lower" []) (monday, 1);
    schedule_class (sample_class "2" "4" "upper" []) (tuesday, 1) ].

(** Scenario 2: four classes, two of each grade group, all on one day. *)
Definition scenario_same_day : list ScheduledClass :=
  [ schedule_class (sample_class "1" "1" "lower" []) (monday, 1);
    schedule_class (sample_class "2" "4" "upper" []) (monday, 2);
    schedule_class (sample_class "3" "2" "lower" []) (monday, 3);
    schedule_class (sample_class "4" "5" "upper" []) (monday, 4) ].

Definition engine_for (cs : list ScheduledClass) : ScheduleEngine :=
  {| eng_classes := List.map base cs;
     eng_startDate := sample_start;
     eng_constraints := sample_constraints |}.

Definition preferences_none : SchedulePreferences :=
  {| pref_gradeProgression := none; preferSameGradeInDay := true |}.

(** Two classes on one day, the lower grade first. *)
Definition rising_day : list ScheduledClass :=
  [ schedule_class (sample_class "1" "1" "elementary" []) (monday, 1);
    schedule_class (sample_class "2" "2" "elementary" []) (monday, 2) ].

Definition invalid_constraints : ScheduleConstraints :=
  {| maxPeriodsPerDay := 9; maxClassesPerDay := 6; maxPeriodsPerWeek := 41;
     consecutivePeriods := {| maximum := 3; requireBreak := 0 |} |}.

Definition good_schedule : Schedule :=
  {| classes := scenario_same_day;
     score := calculateScore (engine_for scenario_same_day) scenario_same_day |}.

Definition first_run_fails (i : nat) : Completion Schedule :=
  match i with
  | O => Throw TypeError
  | S _ => Normal good_schedule
  end.

Definition first_run_empty (i : nat) : Completion Schedule :=
  match i with
  | O => Normal {| classes := [];
                   score := calculateScore (engine_for scenario_same_day) [] |}
  | S _ => Normal good_schedule
  end.

(** A small heap: a schedule object [1] over the array [2] of the two
    classes [3] and [4] of [rising_day]. *)
Definition sample_heap : gmap loc object :=
  <[1%positive := ScheduleObj 2%positive
                    (calculateScore (engine_for rising_day) rising_day)]>
  (<[2%positive := ArrayObj [3%positive; 4%positive]]>
  (<[3%positive := ClassObj (schedule_class (sample_class "1" "1" "elementary" [])
                                            (monday, 1))]>
  (<[4%positive := ClassObj (schedule_class (sample_class "2" "2" "elementary" [])
                                            (monday, 2))]> ∅))).

(** ** Further vocabulary: the first legal slot *)

(** The first period of the list without a total conflict on the date. *)
Fixpoint first_free_period (conflicts : list Conflict) (d : Date) (ps : list Z)
  : option Slot :=
  match ps with
  | [] => None
  | p :: ps' =>
      if hasTotalConflict conflicts d p
      then first_free_period conflicts d ps'
      else Some (d, p)
  end.

(** The first slot, dates before periods, on a day below the cap and free
    of total conflicts. *)
Fixpoint first_legal_slot (conflicts : list Conflict) (maxPerDay : Z)
    (classesPerDay : gmap Z Z) (ds : list Date) (ps : list Z) : option Slot :=
  match ds with
  | [] => None
  | d :: ds' =>
      if Z.leb maxPerDay (day_count classesPerDay (dateKey d))
      then first_legal_slot conflicts maxPerDay classesPerDay ds' ps
      else
        match first_free_period conflicts d ps with
        | Some slot => Some slot
        | None => first_legal_slot conflicts maxPerDay classesPerDay ds' ps
        end
  end.

(** The class sits inside the window of the engine: on one of the 14 dates
    from the start date, at a period between 1 and [maxPeriodsPerDay]. *)
Definition in_window (e : ScheduleEngine) (c : ScheduledClass) : Prop :=
  (exists i, 0 <= i < 14 /\ date c = eng_startDate e + i * msPerDay) /\
  1 <= period c <= maxPeriodsPerDay (eng_constraints e).

(** ** The annealer ([simulatedAnnealing.ts], class [SimulatedAnnealing])

    The annealer calls four methods of its engine that [scheduleEngine.ts]
    does not define ([hasConflict], [getAvailablePeriods],
    [checkClassConflicts] and a [calculateScore] that returns a number); they
    are parameters here, taken as functions of their arguments.  Its
    schedules carry [{ class, date, period }] entries. *)

Module SimulatedAnnealing.

(** A configuration object, by its own properties. *)
Definition Config : Type := gmap string number.

Definition defaults : Config :=
  {[ "initialTemperature" := Fin 1000;
     "coolingRate" := Fin (95 # 100);
     "maxIterations" := Fin 10000;
     "minTemperature" := Fin (1 # 100) ]}.

(** The constructor: [this.config = { initialTemperature: 1000,
    coolingRate: 0.95, maxIterations: 10000, minTemperature: 0.01,
    ...config }]; the properties of [config] win. *)
Definition new (config : Config) : Config := config ∪ defaults.

(** [this.config.k] where a number is expected: a missing property reads
    [undefined], which the comparisons and the product of [optimize] treat
    as NaN. *)
Definition get (config : Config) (k : string) : number :=
  default NaN (config !! k).

Record ScheduledClass : Type := mkScheduledClass {
  class : Class;
  date : Date;
  period : Z
}.

Record Schedule : Type := mkSchedule {
  classes : list ScheduledClass;
  score : number
}.

Section Engine.

Variable hasConflict : Z -> Date -> Class -> list ScheduledClass -> bool.
Variable getAvailablePeriods : Date -> Class -> list ScheduledClass -> list Z.
(** [checkClassConflicts(date, period, cls).partialConflictCount] *)
Variable checkClassConflicts : Date -> Z -> Class -> Z.
Variable calculateScore : list ScheduledClass -> number.
(** [new Date()] when the [i]-th class of the catalogue is handled. *)
Variable clock : nat -> Date.
Variable Math_exp : number -> number.

(** [for (const period of availablePeriods)]: the first period without a
    conflict. *)
Fixpoint try_periods (tryDate : Date) (cls : Class)
    (scheduled : list ScheduledClass) (ps : list Z) : option ScheduledClass :=
  match ps with
  | [] => None
  | p :: ps' =>
      if hasConflict p tryDate cls scheduled
      then try_periods tryDate cls scheduled ps'
      else Some {| class := cls; date := tryDate; period := p |}
  end.

(** [for (let dayOffset = 0; dayOffset < 5 && !scheduled; dayOffset++)] *)
Fixpoint try_days (d : Date) (cls : Class) (scheduled : list ScheduledClass)
    (offsets : list Z) : option ScheduledClass :=
  match offsets with
  | [] => None
  | dayOffset :: rest =>
      match try_periods (d + dayOffset * msPerDay) cls scheduled (periods_of 8) with
      | Some c => Some c
      | None => try_days d cls scheduled rest
      end
  end.

(** [classes.forEach(cls => ...)], from the [i]-th class on. *)
Fixpoint place_from (i : nat) (scheduled : list ScheduledClass)
    (cs : list Class) : list ScheduledClass :=
  match cs with
  | [] => scheduled
  | cls :: rest =>
      match try_days (clock i) cls scheduled [0; 1; 2; 3; 4] with
      | Some c => place_from (S i) (scheduled ++ [c]) rest
      | None => place_from (S i) scheduled rest
      end
  end.

Definition generateInitialSolution (cs : list Class) : Schedule :=
  let scheduled := place_from 0 [] cs in
  {| classes := scheduled; score := calculateScore scheduled |}.

(** [periodsWithScores.sort((a, b) => a.conflicts - b.conflicts)]: a stable
    sort. *)
Fixpoint insert_by_conflicts (x : Z * Z) (l : list (Z * Z)) : list (Z * Z) :=
  match l with
  | [] => [x]
  | y :: rest =>
      if Z.leb (snd x) (snd y) then x :: l
      else y :: insert_by_conflicts x rest
  end.

Definition sort_by_conflicts (l : list (Z * Z)) : list (Z * Z) :=
  fold_right insert_by_conflicts [] l.

(** [mutateSchedule]; [schedule.clone()] is taken to return a copy with an
    array of its own, so that the input is not written. *)
Definition mutateSchedule (schedule : Schedule) : Rand (Completion Schedule) :=
  let scheduledClasses := classes schedule in
  randomIndex <- random_index (length scheduledClasses) ;;
  match array_get scheduledClasses randomIndex with
  | None => ret (Throw TypeError)
  | Some classToMove =>
      let availablePeriods :=
        getAvailablePeriods (date classToMove) (class classToMove)
          (delete (Z.to_nat randomIndex) scheduledClasses) in
      if Nat.ltb 0 (length availablePeriods) then
        let periodsWithScores :=
          List.map (fun p => (p, checkClassConflicts (date classToMove) p
                                                     (class classToMove)))
                   availablePeriods in
        let sorted := sort_by_conflicts periodsWithScores in
        let topPeriods := take (Nat.min 3 (length sorted)) sorted in
        i <- random_index (length topPeriods) ;;
        match array_get topPeriods i with
        | None => ret (Throw TypeError)
        | Some selected =>
            ret (Normal
              {| classes :=
                   <[Z.to_nat randomIndex :=
                       {| class := class classToMove;
                          date := date classToMove;
                          period := fst selected |}]> scheduledClasses;
                 score := score schedule |})
        end
      else ret (Normal schedule)
  end.

Definition acceptSchedule (currentScore newScore temperature : number)
  : Rand bool :=
  if JS.gt newScore currentScore then ret true
  else
    let delta := JS.sub newScore currentScore in
    let acceptanceProbability := Math_exp (JS.div delta temperature) in
    r <- Math_random ;;
    ret (JS.lt (Fin r) acceptanceProbability).

(** The variables of the loop of [optimize]. *)
Record State : Type := mkState {
  currentSolution : Schedule;
  bestSolution : Schedule;
  temperature : number;
  iteration : Z
}.

(** [temperature > this.config.minTemperature &&
     iteration < this.config.maxIterations] *)
Definition loop_condition (config : Config) (temperature : number)
    (iteration : Z) : bool :=
  JS.gt temperature (get config "minTemperature")
  && JS.lt (JS.of_Z iteration) (get config "maxIterations").

Definition loop_body (config : Config) (st : State)
  : Rand (Completion State) :=
  m <- mutateSchedule (currentSolution st) ;;
  match m with
  | Throw exn => ret (Throw exn)
  | Normal newSolution =>
      let currentScore := calculateScore (classes (currentSolution st)) in
      let newScore := calculateScore (classes newSolution) in
      accept <- acceptSchedule currentScore newScore (temperature st) ;;
      ret (Normal
        {| currentSolution :=
             if accept : bool then newSolution else currentSolution st;
           bestSolution :=
             if accept
             then if JS.gt newScore (calculateScore (classes (bestSolution st)))
                  then newSolution else bestSolution st
             else bestSolution st;
           temperature := JS.mul (temperature st) (get config "coolingRate");
           iteration := iteration st + 1 |})
  end.

(** The [while] loop, run for at most [fuel] iterations. *)
Fixpoint loop (fuel : nat) (config : Config) (st : State)
  : Rand (option (Completion State)) :=
  if loop_condition config (temperature st) (iteration st) then
    match fuel with
    | O => ret None
    | S fuel' =>
        c <- loop_body config st ;;
        match c with
        | Throw exn => ret (Some (Throw exn))
        | Normal st' => loop fuel' config st'
        end
    end
  else ret (Some (Normal st)).

Definition initial_state (config : Config) (cs : list Class) : State :=
  let currentSolution := generateInitialSolution cs in
  {| currentSolution := currentSolution;
     bestSolution := currentSolution;
     temperature := get config "initialTemperature";
     iteration := 0 |}.

(** [optimize(classes)], for an annealer whose [this.config] is [config]. *)
Definition optimize (fuel : nat) (config : Config) (cs : list Class)
  : Rand (option (Completion Schedule)) :=
  r <- loop fuel config (initial_state config cs) ;;
  ret (match r with
       | Some (Normal st) => Some (Normal (bestSolution st))
       | Some (Throw exn) => Some (Throw exn)
       | None => None
       end).

End Engine.

(** The temperatures and the counter of the loop, which depend on the
    configuration alone: the state in which the loop stops, if it stops
    within [fuel] iterations. *)
Fixpoint cooling (fuel : nat) (config : Config) (temperature : number)
    (iteration : Z) : option (number * Z) :=
  if loop_condition config temperature iteration then
    match fuel with
    | O => None
    | S fuel' =>
        cooling fuel' config (JS.mul temperature (get config "coolingRate"))
                (iteration + 1)
    end
  else Some (temperature, iteration).

(** The number of iterations an annealer with this configuration makes. *)
Definition iterations_of (config : Config) : option Z :=
  snd <$> cooling (Z.to_nat 10000) config (get config "initialTemperature") 0.

End SimulatedAnnealing.

(** [ParallelScheduler.createWorkerConfig(i)] *)
Definition createWorkerConfig (i : Z) : SimulatedAnnealing.Config :=
  {[ "initialTemperature" :=
       JS.mul (Fin 1000) (JS.add (Fin 1) (JS.mul (JS.of_Z i) (Fin (2 # 10))));
     "coolingRate" :=
       JS.sub (Fin (995 # 1000)) (JS.mul (JS.of_Z i) (Fin (1 # 1000)));
     "minTemperature" :=
       JS.mul (Fin (1 # 10)) (JS.add (Fin 1) (JS.mul (JS.of_Z i) (Fin (1 # 10))));
     "iterationsPerTemp" := JS.add (Fin 300) (JS.mul (JS.of_Z i) (Fin 50));
     "maxRestarts" := Fin 5 ]}.

(** [getWorkerParams(workerId)] of [schedulerWorker.js], the configuration
    its worker hands to the annealer. *)
Definition getWorkerParams (workerId : Z) : SimulatedAnnealing.Config :=
  {[ "initialTemp" :=
       JS.mul (Fin 100) (JS.add (Fin 1) (JS.mul (JS.of_Z workerId) (Fin (1 # 2))));
     "coolingRate" :=
       JS.sub (Fin (95 # 100)) (JS.mul (JS.of_Z workerId) (Fin (1 # 100)));
     "minTemp" := Fin (1 # 10);
     "iterationsPerTemp" := JS.add (Fin 100) (JS.mul (JS.of_Z workerId) (Fin 25)) ]}.

(** The pairs are in ascending order of their conflict counts. *)
Fixpoint ascending (l : list (Z * Z)) : Prop :=
  match l with
  | [] => True
  | x :: rest => Forall (fun y => snd x <= snd y) rest /\ ascending rest
  end.

(** A small engine for the annealer: a slot conflicts when a scheduled class
    holds it, the available periods of a day are the free ones, the partial
    conflicts of a period are those listed for it in the class, and the
    score falls with the periods used. *)
Definition slot_taken (d : Date) (p : Z)
    (scheduled : list SimulatedAnnealing.ScheduledClass) : bool :=
  existsb (fun c => Z.eqb (SimulatedAnnealing.date c) d
                    && Z.eqb (SimulatedAnnealing.period c) p) scheduled.

Definition sample_hasConflict (p : Z) (d : Date) (cls : Class)
    (scheduled : list SimulatedAnnealing.ScheduledClass) : bool :=
  slot_taken d p scheduled.

Definition sample_getAvailablePeriods (d : Date) (cls : Class)
    (others : list SimulatedAnnealing.ScheduledClass) : list Z :=
  List.filter (fun p => negb (slot_taken d p others)) (periods_of 8).

Definition sample_checkClassConflicts (d : Date) (p : Z) (cls : Class) : Z :=
  Z.of_nat (length (List.filter (fun c => Z.eqb (conflict_period c) p)
                                (partialConflicts cls))).

Definition sample_calculateScore
    (cs : list SimulatedAnnealing.ScheduledClass) : number :=
  JS.of_Z (- fold_left Z.add (List.map SimulatedAnnealing.period cs) 0).

Definition sample_clock (i : nat) : Date := sample_start.

Definition three_iterations : SimulatedAnnealing.Config :=
  {[ "maxIterations" := Fin 3 ]}.

(** The configuration [scheduleUtils.generateSchedule] hands to the
    annealer. *)
Definition utils_config : SimulatedAnnealing.Config :=
  {[ "initialTemperature" := Fin 3000;
     "coolingRate" := Fin (99 # 100);
     "minTemperature" := Fin (1 # 10);
     "iterationsPerTemp" := Fin 400;
     "maxRestarts" := Fin 10 ]}.

(** The initial solution of the annealer for the sample catalogue, and what
    [optimize] returns for it in three iterations. *)
Definition sample_annealer_initial : SimulatedAnnealing.Schedule :=
  SimulatedAnnealing.generateInitialSolution
    sample_hasConflict sample_calculateScore sample_clock
    (eng_classes sample_engine).

Definition sample_annealer_best : SimulatedAnnealing.Schedule :=
  Eval vm_compute in
    match fst (SimulatedAnnealing.optimize sample_hasConflict
                 sample_getAvailablePeriods sample_checkClassConflicts
                 sample_calculateScore sample_clock exp_approx 10
                 (SimulatedAnnealing.new three_iterations)
                 (eng_classes sample_engine) sample_rng) with
    | Some (Normal s) => s
    | _ => sample_annealer_initial
    end.

(** A configuration that halves the temperature at each iteration. *)
Definition halving : SimulatedAnnealing.Config :=
  {[ "coolingRate" := Fin (1 # 2) ]}.

(** ** [ParallelScheduler.generateSchedule] with its worker list

    The same loop as [run_workers], with the length of [this.workers]: each
    run pushes a mock worker before it starts, and [terminateWorkers()],
    which empties the list, is reached only when every run has returned. *)
Fixpoint run_workers_tracked (p : ParallelScheduler)
    (runs : list (Completion Schedule)) (best : option Schedule)
    (best_score : number) (workers : nat)
  : Completion (option Schedule) * nat :=
  match runs with
  | [] => (Normal best, O)
  | run :: rest =>
      let workers' := S workers in
      match SimulatedAnnealingScheduler_generateSchedule run with
      | Throw exn => (Throw exn, workers')
      | Normal schedule =>
          if JS.gt (worker_score p schedule) best_score
          then run_workers_tracked p rest (Some schedule)
                                   (worker_score p schedule) workers'
          else run_workers_tracked p rest best best_score workers'
      end
  end.

Definition ParallelScheduler_generateSchedule_tracked (p : ParallelScheduler)
    (optimize : nat -> Completion Schedule) (workers : nat)
  : Completion (option Schedule) * nat :=
  run_workers_tracked p (List.map optimize (seq 0 (Z.to_nat (workerCount p))))
                      None (Infinity true) workers.

(** ** Schedule utilities ([utils/schedule.ts])

    Local time is UTC moved by a fixed offset [tz] (in milliseconds); the
    year, month and day of month of a date are represented by the number of
    its local civil day. *)

Module ScheduleUtils.

Definition PERIODS_PER_DAY : nat := 8.

Record BlackoutPeriod : Type := mkBlackout {
  blackout_date : Date;
  blackout_period : Z
}.

Record Period : Type := mkPeriod {
  number : Z;
  time : string;
  isBlackout : bool
}.

Record DaySchedule : Type := mkDay {
  day_date : Date;
  periods : list Period;
  day_classes : list ScheduledClass
}.

Record WeekSchedule : Type := mkWeek {
  weekNumber : Z;
  startDate : Date;
  endDate : Date;
  days : list DaySchedule
}.

Section Zone.

Variable tz : Z.

Definition localDay (d : Date) : Z := (d + tz) / msPerDay.

(** [date.getDay()]: 0 is Sunday; 1 January 1970 was a Thursday. *)
Definition getDay (d : Date) : Z := (localDay d + 4) mod 7.

Definition isSameDay (date1 date2 : Date) : bool :=
  Z.eqb (localDay date1) (localDay date2).

Definition isBlackoutPeriod (period : Z) (d : Date)
    (blackoutPeriods : list BlackoutPeriod) : bool :=
  existsb (fun blackout => Z.eqb (blackout_period blackout) period
                           && isSameDay (blackout_date blackout) d)
          blackoutPeriods.

(** [Math.ceil(diffTime / (1000 * 60 * 60 * 24))] of a whole number of
    milliseconds, then [Math.floor(diffDays / 7) + 1]. *)
Definition getWeekNumber (d startDate : Date) : Z :=
  let diffTime := Z.abs (d - startDate) in
  let diffDays := (diffTime + msPerDay - 1) / msPerDay in
  diffDays / 7 + 1.

(** The text of a number between 0 and 9. *)
Definition digit_text (n : Z) : string :=
  String (ascii_of_nat (48 + Z.to_nat n)) EmptyString.

Definition getDaySchedule (d : Date) (scheduledClasses : list ScheduledClass)
    (blackoutPeriods : list BlackoutPeriod) : DaySchedule :=
  let dayClasses :=
    List.filter (fun cls => isSameDay (date cls) d) scheduledClasses in
  let periods :=
    List.map (fun i : nat =>
                {| number := Z.of_nat i + 1;
                   time := String.append "Period " (digit_text (Z.of_nat i + 1));
                   isBlackout :=
                     isBlackoutPeriod (Z.of_nat i + 1) d blackoutPeriods |})
             (seq 0 PERIODS_PER_DAY) in
  {| day_date := d; periods := periods; day_classes := dayClasses |}.

(** [while (monday.getDay() !== 1) monday.setDate(monday.getDate() + 1)],
    for at most [fuel] steps. *)
Fixpoint next_monday (fuel : nat) (monday : Date) : option Date :=
  if Z.eqb (getDay monday) 1 then Some monday
  else
    match fuel with
    | O => None
    | S fuel' => next_monday fuel' (monday + msPerDay)
    end.

Definition getWeekSchedule (fuel : nat) (weekStartDate : Date)
    (scheduledClasses : list ScheduledClass)
    (blackoutPeriods : list BlackoutPeriod) (startDate : Date)
  : option WeekSchedule :=
  match next_monday fuel weekStartDate with
  | None => None
  | Some monday =>
      let weekEndDate := monday + 4 * msPerDay in
      let days :=
        flat_map (fun i : nat =>
                    let currentDate := monday + Z.of_nat i * msPerDay in
                    if Z.leb startDate currentDate
                    then [getDaySchedule currentDate scheduledClasses
                                         blackoutPeriods]
                    else [])
                 (seq 0 5) in
      Some {| weekNumber := getWeekNumber monday startDate;
              startDate := monday;
              endDate := weekEndDate;
              days := days |}
  end.

(** [while (dayClasses.some(cls => cls.period === currentPeriod - 1))
       { consecutiveCount++; currentPeriod-- }] *)
Fixpoint count_before (fuel : nat) (dayClasses : list ScheduledClass)
    (currentPeriod consecutiveCount : Z) : option Z :=
  if existsb (fun cls => Z.eqb (period cls) (currentPeriod - 1)) dayClasses
  then
    match fuel with
    | O => None
    | S fuel' =>
        count_before fuel' dayClasses (currentPeriod - 1) (consecutiveCount + 1)
    end
  else Some consecutiveCount.

(** The same loop upwards, with [currentPeriod + 1] and [currentPeriod++]. *)
Fixpoint count_after (fuel : nat) (dayClasses : list ScheduledClass)
    (currentPeriod consecutiveCount : Z) : option Z :=
  if existsb (fun cls => Z.eqb (period cls) (currentPeriod + 1)) dayClasses
  then
    match fuel with
    | O => None
    | S fuel' =>
        count_after fuel' dayClasses (currentPeriod + 1) (consecutiveCount + 1)
    end
  else Some consecutiveCount.

Definition countConsecutivePeriods (fuel : nat) (p : Z) (d : Date)
    (scheduledClasses : list ScheduledClass) : option Z :=
  let dayClasses :=
    List.filter (fun cls => isSameDay (date cls) d) scheduledClasses in
  match count_before fuel dayClasses p 1 with
  | None => None
  | Some consecutiveCount => count_after fuel dayClasses p consecutiveCount
  end.

End Zone.

(** [hasConflict(period, dayOfWeek, conflicts)]: the first entry of the day
    decides. *)
Record DayConflicts : Type := mkDayConflicts {
  dayOfWeek : Z;
  conflict_periods : list Z
}.

Definition hasConflict (p d : Z) (conflicts : list DayConflicts) : bool :=
  match List.find (fun c => Z.eqb (dayOfWeek c) d) conflicts with
  | Some dayConflicts => existsb (Z.eqb p) (conflict_periods dayConflicts)
  | None => false
  end.

End ScheduleUtils.

(** The period [p] is taken by a class of the list. *)
Definition occupied (dayClasses : list ScheduledClass) (p : Z) : Prop :=
  exists cls, cls ∈ dayClasses /\ period cls = p.

(** What [count_by_date] holds while it reads the classes: one entry for
    each day seen, with a count between 1 and the number of classes of
    that day, the counts adding up to the number of classes. *)
Record counts_ok (m : list (Z * Z)) (seen : list ScheduledClass) : Prop := {
  counts_sum : foldr Z.add 0 (snd <$> m) = Z.of_nat (length seen);
  counts_bound : forall k v, (k, v) ∈ m -> 1 <= v <= classes_on_day k seen;
  counts_keys : NoDup (fst <$> m);
  counts_days : forall k, k ∈ (fst <$> m) <->
                          exists c, c ∈ seen /\ dateKey (date c) = k
}.

(** * Properties *)

Example parseInt_grade : JS.parseInt "12" = Fin 12.
Proof. reflexivity. Qed.

Example parseInt_kindergarten : JS.parseInt "K" = NaN.
Proof. reflexivity. Qed.

Example zero_over_zero : JS.div (JS.of_nat 0) (JS.of_nat 0) = NaN.
Proof. reflexivity. Qed.

(** ** Properties of the slot search *)

Lemma bind_eq {A B} (m : Rand A) (k : A -> Rand B) g :
  bind m k g = k (fst (m g)) (snd (m g)).
Proof. unfold bind. destruct (m g); reflexivity. Qed.

Lemma scanPeriods_spec conflicts d ps : forall best g,
  let s := fst (scanPeriods conflicts d ps best g) in
  (forall slot, accepted s = Some slot ->
     fst slot = d /\ snd slot ∈ ps /\
     hasTotalConflict conflicts d (snd slot) = false) /\
  (forall slot, bestSlot s = Some slot ->
     best = Some slot \/
     (fst slot = d /\ snd slot ∈ ps /\
      hasTotalConflict conflicts d (snd slot) = false)).
Proof.
  induction ps as [|p ps IH]; intros best g; cbn [scanPeriods].
  - cbn. split; [discriminate | auto].
  - destruct (hasTotalConflict conflicts d p) eqn:Hc.
    + destruct (IH best g) as [Ha Hb]. split.
      * intros slot H. destruct (Ha slot H) as (? & ? & ?).
        repeat split; auto. now apply list_elem_of_further.
      * intros slot H. destruct (Hb slot H) as [?|(? & ? & ?)]; auto.
        right. repeat split; auto. now apply list_elem_of_further.
    + rewrite bind_eq.
      set (best' := match best with None => Some (d, p) | Some _ => best end).
      assert (Hbest' : forall slot, best' = Some slot ->
                best = Some slot \/ slot = (d, p)).
      { intros slot. unfold best'. destruct best; intros H; auto.
        inversion H; auto. }
      destruct (Qltb (fst (Math_random g)) (99 # 100)).
      * cbn. split.
        -- intros slot H. inversion H; subst; cbn.
           repeat split; auto. apply list_elem_of_here.
        -- intros slot H. destruct (Hbest' slot H) as [? | ->]; auto.
           right; cbn. repeat split; auto. apply list_elem_of_here.
      * destruct (IH best' (snd (Math_random g))) as [Ha Hb]. split.
        -- intros slot H. destruct (Ha slot H) as (? & ? & ?).
           repeat split; auto. now apply list_elem_of_further.
        -- intros slot H. destruct (Hb slot H) as [H'|(? & ? & ?)].
           ++ destruct (Hbest' slot H') as [? | ->]; auto.
              right; cbn. repeat split; auto. apply list_elem_of_here.
           ++ right. repeat split; auto. now apply list_elem_of_further.
Qed.

Lemma scanDates_spec conflicts maxPerDay cpd ds ps : forall best g,
  let s := fst (scanDates conflicts maxPerDay cpd ds ps best g) in
  (forall slot, accepted s = Some slot ->
     ok_slot conflicts maxPerDay cpd ds ps slot) /\
  (forall slot, bestSlot s = Some slot ->
     best = Some slot \/ ok_slot conflicts maxPerDay cpd ds ps slot).
Proof.
  assert (Hweak : forall d ds slot,
            ok_slot conflicts maxPerDay cpd ds ps slot ->
            ok_slot conflicts maxPerDay cpd (d :: ds) ps slot).
  { intros d0 ds0 slot (? & ? & ? & ?). repeat split; auto.
    now apply list_elem_of_further. }
  induction ds as [|d ds IH]; intros best g; cbn [scanDates].
  - cbn. split; [discriminate | auto].
  - destruct (Z.leb_spec maxPerDay (day_count cpd (dateKey d))) as [Hfull|Hroom].
    + destruct (IH best g) as [Ha Hb]. split.
      * intros slot H. apply Hweak, Ha, H.
      * intros slot H. destruct (Hb slot H); auto.
    + rewrite bind_eq.
      pose proof (scanPeriods_spec conflicts d ps best g) as [Pa Pb].
      set (sp := scanPeriods conflicts d ps best g) in *.
      assert (Hhere : forall slot,
                fst slot = d /\ snd slot ∈ ps /\
                hasTotalConflict conflicts d (snd slot) = false ->
                ok_slot conflicts maxPerDay cpd (d :: ds) ps slot).
      { intros slot (Hd & Hp & Hc). repeat split; auto.
        - rewrite Hd. apply list_elem_of_here.
        - now rewrite Hd.
        - now rewrite Hd. }
      destruct (accepted (fst sp)) as [a|] eqn:Hacc.
      * cbn. split.
        -- intros slot H. rewrite Hacc in H. inversion H; subst.
           apply Hhere, Pa. reflexivity.
        -- intros slot H. destruct (Pb slot H); auto.
      * destruct (IH (bestSlot (fst sp)) (snd sp)) as [Ha Hb]. split.
        -- intros slot H. apply Hweak, Ha, H.
        -- intros slot H. destruct (Hb slot H) as [H'|H']; auto.
           destruct (Pb slot H'); auto.
Qed.

(** The shuffle returns a permutation of its argument, whatever the draws. *)
Lemma shuffle_pick_Permutation {A} fuel : forall (xs : list A) g,
  fst (shuffle_pick fuel xs g) ≡ₚ xs.
Proof.
  induction fuel as [|fuel IH]; intros xs g; cbn [shuffle_pick].
  - reflexivity.
  - rewrite bind_eq.
    set (i := fst (random_index (length xs) g)).
    unfold array_get. destruct (Z.ltb i 0); [reflexivity|].
    destruct (xs !! Z.to_nat i) as [x|] eqn:Hx; [|reflexivity].
    rewrite bind_eq. cbn. rewrite IH.
    symmetry. now apply delete_Permutation.
Qed.

Lemma shuffle_Permutation {A} (xs : list A) g : fst (shuffle xs g) ≡ₚ xs.
Proof. apply shuffle_pick_Permutation. Qed.

Lemma ok_slot_Permutation conflicts maxPerDay cpd ds ds' ps ps' slot :
  ds' ≡ₚ ds -> ps' ≡ₚ ps ->
  ok_slot conflicts maxPerDay cpd ds' ps' slot ->
  ok_slot conflicts maxPerDay cpd ds ps slot.
Proof.
  intros Hd Hp (? & ? & ? & ?). repeat split; auto.
  - now rewrite <- Hd.
  - now rewrite <- Hp.
Qed.

(** ** Counting the classes of a day *)

Lemma classes_on_day_nonneg k cs : 0 <= classes_on_day k cs.
Proof. unfold classes_on_day. lia. Qed.

Lemma classes_on_day_app k cs1 cs2 :
  classes_on_day k (cs1 ++ cs2) = classes_on_day k cs1 + classes_on_day k cs2.
Proof. unfold classes_on_day. rewrite filter_app, length_app. lia. Qed.

Lemma classes_on_day_cons k c cs :
  classes_on_day k (c :: cs) =
  (if decide (dateKey (date c) = k) then 1 else 0) + classes_on_day k cs.
Proof.
  unfold classes_on_day. rewrite filter_cons.
  destruct (decide (dateKey (date c) = k)); cbn [length]; lia.
Qed.

Lemma classes_on_day_elem c cs :
  c ∈ cs -> 0 < classes_on_day (dateKey (date c)) cs.
Proof.
  induction 1 as [c cs|c c' cs _ IH]; rewrite classes_on_day_cons.
  - rewrite decide_True by reflexivity.
    pose proof (classes_on_day_nonneg (dateKey (date c)) cs). lia.
  - destruct (decide _); lia.
Qed.

Lemma day_count_insert (m : gmap Z Z) k v k' :
  day_count (<[k := v]> m) k' = if decide (k = k') then v else day_count m k'.
Proof.
  unfold day_count. destruct (decide (k = k')) as [->|Hne].
  - now rewrite lookup_insert_eq.
  - now rewrite lookup_insert_ne.
Qed.

Lemma day_count_empty k : day_count ∅ k = 0.
Proof. unfold day_count. now rewrite lookup_empty. Qed.

Lemma count_per_day_fold cs : forall (m : gmap Z Z) k,
  day_count
    (fold_left (fun m cls =>
                  <[dateKey (date cls) := day_count m (dateKey (date cls)) + 1]> m)
               cs m) k
  = day_count m k + classes_on_day k cs.
Proof.
  induction cs as [|c cs IH]; intros m k; cbn [fold_left].
  - unfold classes_on_day; cbn. lia.
  - rewrite IH, classes_on_day_cons, day_count_insert.
    destruct (decide (dateKey (date c) = k)) as [->|]; lia.
Qed.

Lemma count_per_day_spec cs k :
  day_count (count_per_day cs) k = classes_on_day k cs.
Proof. unfold count_per_day. rewrite count_per_day_fold, day_count_empty. lia. Qed.

Lemma remove_from_day_spec (m : gmap Z Z) k0 k :
  0 < day_count m k0 ->
  day_count (remove_from_day m k0) k =
  if decide (k0 = k) then day_count m k0 - 1 else day_count m k.
Proof.
  intros Hpos. unfold remove_from_day. rewrite day_count_insert.
  destruct (decide (k0 = k)); [|reflexivity].
  unfold day_count in *. destruct (m !! k0) as [[| |]|]; cbn in *; lia.
Qed.

(** Replacing the entry at index [i]. *)
Lemma classes_on_day_insert k cs i (old new : ScheduledClass) :
  cs !! i = Some old ->
  classes_on_day k (<[i := new]> cs) =
  classes_on_day k cs
  - (if decide (dateKey (date old) = k) then 1 else 0)
  + (if decide (dateKey (date new) = k) then 1 else 0).
Proof.
  intros Hi.
  rewrite insert_take_drop by (eapply lookup_lt_Some; eauto).
  pose proof (take_drop_middle cs i old Hi) as Hsplit.
  apply (f_equal (classes_on_day k)) in Hsplit.
  rewrite classes_on_day_app, classes_on_day_cons in Hsplit.
  rewrite classes_on_day_app, classes_on_day_cons. lia.
Qed.

(** ** The two invariants of a schedule *)

Lemma builder_ok_empty e : builder_ok e (mkBuilder [] ∅).
Proof.
  split; cbn [placed perDay]; auto.
  intros k. unfold classes_on_day; cbn. lia.
Qed.

Lemma place_ok e b cls ds ps slot :
  builder_ok e b -> cls ∈ eng_classes e ->
  ok_slot (totalConflicts cls) (maxClassesPerDay (eng_constraints e))
          (perDay b) ds ps slot ->
  builder_ok e (place b cls slot).
Proof.
  intros [Hfree Hknown Hcount Hcap] Hin (_ & _ & Hc & Hroom).
  split; cbn [place placed perDay].
  - apply Forall_app; split; auto; repeat constructor; auto.
  - apply Forall_app; split; auto; repeat constructor; auto.
  - intros k. rewrite day_count_insert, classes_on_day_app, classes_on_day_cons.
    cbn [schedule_class date]. unfold classes_on_day at 2; cbn.
    rewrite <- Hcount. destruct (decide (dateKey (fst slot) = k)) as [<-|]; lia.
  - intros k. rewrite classes_on_day_app, classes_on_day_cons.
    cbn [schedule_class date]. unfold classes_on_day at 2 4; cbn.
    rewrite Hcount in Hroom. specialize (Hcap k).
    destruct (decide (dateKey (fst slot) = k)) as [<-|]; lia.
Qed.

Lemma placeClass_ok e dates periods b cls g :
  builder_ok e b -> cls ∈ eng_classes e ->
  builder_ok e (fst (placeClass e dates periods b cls g)).
Proof.
  intros Hb Hin. unfold placeClass. rewrite !bind_eq.
  set (sd := shuffle dates g).
  set (sp := shuffle periods (snd sd)).
  pose proof (scanDates_spec (totalConflicts cls)
                (maxClassesPerDay (eng_constraints e)) (perDay b)
                (fst sd) (fst sp) None (snd sp)) as [Ha Hbest].
  set (s := scanDates _ _ _ _ _ _ _) in *.
  destruct (accepted (fst s)) as [slot|] eqn:Hacc.
  - cbn. eapply place_ok; eauto.
  - destruct (bestSlot (fst s)) as [slot|] eqn:Hbs; cbn; auto.
    destruct (Hbest slot eq_refl) as [?|?]; [discriminate|].
    eapply place_ok; eauto.
Qed.

Lemma placeAll_ok e dates periods cs : forall b g,
  builder_ok e b -> (forall c, c ∈ cs -> c ∈ eng_classes e) ->
  builder_ok e (fst (placeAll e dates periods b cs g)).
Proof.
  induction cs as [|cls cs IH]; intros b g Hb Hsub; cbn [placeAll].
  - exact Hb.
  - rewrite bind_eq. apply IH.
    + apply placeClass_ok; auto. apply Hsub, list_elem_of_here.
    + intros c Hc. apply Hsub. now apply list_elem_of_further.
Qed.

Lemma generateInitialSolution_builder e g :
  exists b, builder_ok e b /\
    fst (generateInitialSolution e g) =
    {| classes := placed b; score := calculateScore e (placed b) |}.
Proof.
  unfold generateInitialSolution. rewrite bind_eq.
  eexists; split; [|reflexivity].
  apply placeAll_ok; auto using builder_ok_empty.
Qed.

Lemma generateInitialSolution_ok e g :
  schedule_ok e (fst (generateInitialSolution e g)).
Proof.
  destruct (generateInitialSolution_builder e g) as (b & [] & ->).
  split; auto.
Qed.

Lemma generateInitialSolution_cap e g :
  schedule_cap e (fst (generateInitialSolution e g)).
Proof.
  destruct (generateInitialSolution_builder e g) as (b & [] & ->).
  assumption.
Qed.

(** ** What a mutation does *)

Lemma array_get_Some {A} (xs : list A) i x :
  array_get xs i = Some x -> 0 <= i /\ xs !! Z.to_nat i = Some x.
Proof.
  unfold array_get. destruct (Z.ltb_spec i 0); [discriminate|]. auto.
Qed.

Lemma mutateSchedule_cases e s g :
  match fst (mutateSchedule e s g) with
  | Normal s' => mutation e s s'
  | Throw exn =>
      exn = TypeError /\
      array_get (classes s) (fst (random_index (length (classes s)) g)) = None
  end.
Proof.
  unfold mutateSchedule. rewrite bind_eq.
  set (i := fst (random_index (length (classes s)) g)).
  destruct (array_get (classes s) i) as [classToMove|] eqn:Hget;
    [|cbn; auto].
  apply array_get_Some in Hget as [Hi Hget].
  destruct (find_class e (id (base classToMove))) as [originalClass|] eqn:Hfind.
  2: { cbn. eapply mutation_unknown; eauto. }
  rewrite !bind_eq.
  set (sd := shuffle _ _). set (sp := shuffle _ (snd sd)).
  pose proof (scanDates_spec (totalConflicts originalClass)
                (maxClassesPerDay (eng_constraints e))
                (remove_from_day (count_per_day (classes s))
                                 (dateKey (date classToMove)))
                (fst sd) (fst sp) None (snd sp)) as [_ Hbest].
  set (r := scanDates _ _ _ _ _ _ _) in *.
  cbn [ret fst]. destruct (bestSlot (fst r)) as [slot|] eqn:Hbs.
  - destruct (Hbest slot eq_refl) as [?|Hok]; [discriminate|].
    eapply mutation_move; eauto.
    eapply ok_slot_Permutation; [| |exact Hok]; apply shuffle_Permutation.
  - eapply mutation_stay; eauto.
Qed.

Lemma find_class_In e i c : find_class e i = Some c -> c ∈ eng_classes e /\ id c = i.
Proof.
  unfold find_class. intros H. apply find_some in H as [Hin Heq].
  split; [now apply list_elem_of_In | now apply String.eqb_eq].
Qed.

Lemma find_unique (cs : list Class) c :
  NoDup (List.map id cs) -> c ∈ cs ->
  List.find (fun c' => String.eqb (id c') (id c)) cs = Some c.
Proof.
  induction cs as [|c0 cs IH]; intros Hnd Hin.
  - inversion Hin.
  - apply NoDup_cons in Hnd as [Hnotin Hnd]. cbn [List.find].
    apply elem_of_cons in Hin as [->|Hin].
    + now rewrite String.eqb_refl.
    + destruct (String.eqb_spec (id c0) (id c)) as [Heq|_]; [|auto].
      exfalso. apply Hnotin. rewrite Heq.
      change (List.map id cs) with (id <$> cs). now apply list_elem_of_fmap_2.
Qed.

Lemma find_class_known e c :
  NoDup (List.map id (eng_classes e)) -> known e c ->
  find_class e (id (base c)) = Some (base c).
Proof. intros Hnd Hin. now apply find_unique. Qed.

(** With distinct ids in the catalogue a mutation keeps every class off its
    own total conflicts. *)
Lemma mutation_ok e s s' :
  NoDup (List.map id (eng_classes e)) ->
  schedule_ok e s -> mutation e s s' -> schedule_ok e s'.
Proof.
  intros Hnd [Hfree Hknown Hscore] Hm.
  destruct Hm as [| |i classToMove originalClass slot Hi Hfind Hlegal cs'].
  - split; auto.
  - split; auto.
  - assert (Hk : known e classToMove).
    { eapply Forall_lookup_1 in Hknown; eauto. }
    rewrite (find_class_known e classToMove Hnd Hk) in Hfind.
    inversion Hfind; subst originalClass.
    destruct Hlegal as (_ & _ & Hc & _).
    split; cbn [classes score]; auto; subst cs'.
    + apply Forall_insert; auto.
    + apply Forall_insert; auto.
Qed.

(** A mutation never fills a day beyond the cap. *)
Lemma mutation_cap e s s' :
  schedule_cap e s -> mutation e s s' -> schedule_cap e s'.
Proof.
  unfold schedule_cap. intros Hcap Hm.
  destruct Hm as [| |i classToMove originalClass slot Hi Hfind Hlegal cs']; auto.
  destruct Hlegal as (_ & _ & _ & Hroom).
  assert (Hpos : 0 < classes_on_day (dateKey (date classToMove)) (classes s)).
  { apply classes_on_day_elem. apply list_elem_of_lookup. eauto. }
  rewrite remove_from_day_spec in Hroom
    by (rewrite count_per_day_spec; exact Hpos).
  rewrite !count_per_day_spec in Hroom.
  cbn [classes]. subst cs'. intros k.
  rewrite (classes_on_day_insert k _ _ classToMove _ Hi).
  cbn [schedule_class date]. specialize (Hcap k).
  destruct (decide (dateKey (date classToMove) = dateKey (fst slot))) as [Heq|Hne].
  - rewrite Heq in *.
    destruct (decide (dateKey (fst slot) = k)); lia.
  - destruct (decide (dateKey (date classToMove) = k)) as [Hold|Hold];
      destruct (decide (dateKey (fst slot) = k)) as [Hnew|Hnew];
      try lia; try congruence.
    rewrite Hnew in Hroom. lia.
Qed.

(** ** The loop: what one iteration does, invariants, termination *)

Section Loop.

Variable Math_exp : number -> number.
Variable e : ScheduleEngine.

Lemma iteration_cases st g :
  match fst (iteration Math_exp e st g) with
  | Normal st' => step e st st'
  | Throw exn => fst (mutateSchedule e (currentSchedule st) g) = Throw exn
  end.
Proof.
  unfold iteration. rewrite bind_eq.
  pose proof (mutateSchedule_cases e (currentSchedule st) g) as Hm.
  destruct (fst (mutateSchedule e (currentSchedule st) g))
    as [newSchedule|exn]; [|reflexivity].
  rewrite bind_eq. cbn [ret fst].
  set (acc := accepts _ _ _ _ _).
  destruct (fst acc) eqn:Hacc.
  - destruct (JS.gt (aggregateScore (score newSchedule)) (bestScore st)) eqn:Hgt.
    + eapply step_improve; eauto.
    + eapply step_accept; eauto.
  - eapply step_reject; eauto.
    subst acc. unfold accepts in Hacc.
    destruct (JS.gt _ _); [discriminate|reflexivity].
Qed.

Lemma step_iterations st st' :
  step e st st' -> iterations st' = iterations st + 1.
Proof. intros [? ? ? ->|? ? ? ->|? ? ? ->]; reflexivity. Qed.

(** A property of schedules that mutations preserve holds of the current
    and of the best schedule throughout the loop. *)
Section Invariant.
Variable P : Schedule -> Prop.
Hypothesis P_mutation : forall s s', P s -> mutation e s s' -> P s'.

Lemma step_invariant st st' :
  step e st st' ->
  P (currentSchedule st) /\ P (bestSchedule st) ->
  P (currentSchedule st') /\ P (bestSchedule st').
Proof.
  intros Hstep [Hc Hb].
  destruct Hstep as [? Hm _ ->|? Hm _ ->|? Hm _ ->]; cbn; eauto.
Qed.

Lemma annealing_loop_invariant fuel : forall st g st',
  P (currentSchedule st) /\ P (bestSchedule st) ->
  fst (annealing_loop Math_exp fuel e st g) = Some (Normal st') ->
  P (currentSchedule st') /\ P (bestSchedule st').
Proof.
  induction fuel as [|fuel IH]; intros st g st' HP; cbn [annealing_loop];
    destruct (loop_condition st).
  - discriminate.
  - cbn. intros H; inversion H; subst; exact HP.
  - rewrite bind_eq.
    pose proof (iteration_cases st g) as Hit.
    destruct (fst (iteration Math_exp e st g)) as [st1|exn].
    + apply IH. eapply step_invariant; eauto.
    + cbn. discriminate.
  - cbn. intros H; inversion H; subst; exact HP.
Qed.

Lemma generateSchedule_invariant fuel g s :
  P (fst (generateInitialSolution e g)) ->
  generateSchedule_fuel Math_exp fuel e g = Some (Normal s) -> P s.
Proof.
  intros Hinit. unfold generateSchedule_fuel, generateSchedule_run.
  rewrite bind_eq.
  destruct (fst (annealing_loop _ _ _ _ _)) as [[st|exn]|] eqn:Hloop;
    cbn; try discriminate.
  intros H; inversion H; subst.
  eapply annealing_loop_invariant; [|exact Hloop].
  cbn; split; apply Hinit.
Qed.
End Invariant.

Lemma step_counters st st' :
  loop_condition st = true -> counters_ok st -> step e st st' -> counters_ok st'.
Proof.
  unfold loop_condition, counters_ok, MAX_ITERATIONS,
    maxIterationsWithoutImprovement.
  intros Hc H Hstep. apply andb_prop in Hc as [H1 H2].
  apply Z.ltb_lt in H1, H2.
  destruct Hstep as [? _ _ ->|? _ _ ->|? _ _ ->]; cbn; lia.
Qed.

(** The loop ends before the fuel [MAX_ITERATIONS - iterations] runs out,
    in a state where its condition fails. *)
Lemma annealing_loop_terminates fuel : forall st g,
  counters_ok st ->
  MAX_ITERATIONS - iterations st <= Z.of_nat fuel ->
  exists c, fst (annealing_loop Math_exp fuel e st g) = Some c /\
    match c with
    | Normal st' =>
        counters_ok st' /\ loop_condition st' = false /\
        iterations st <= iterations st'
    | Throw _ => True
    end.
Proof.
  induction fuel as [|fuel IH]; intros st g Hok Hfuel; cbn [annealing_loop];
    destruct (loop_condition st) eqn:Hc.
  - exfalso. unfold loop_condition in Hc. apply andb_prop in Hc as [H1 _].
    apply Z.ltb_lt in H1. lia.
  - exists (Normal st); split; [reflexivity|].
    split; [exact Hok|split; [exact Hc|lia]].
  - rewrite bind_eq.
    pose proof (iteration_cases st g) as Hit.
    destruct (fst (iteration Math_exp e st g)) as [st1|exn].
    + pose proof (step_iterations _ _ Hit) as Hn.
      destruct (IH st1 (snd (iteration Math_exp e st g))) as (c & Hrun & Hc').
      * eapply step_counters; eauto.
      * lia.
      * exists c; split; [exact Hrun|].
        destruct c as [st'|]; auto.
        destruct Hc' as (? & ? & ?). split; [|split]; auto. lia.
    + eexists; split; [reflexivity|exact I].
  - exists (Normal st); split; [reflexivity|].
    split; [exact Hok|split; [exact Hc|lia]].
Qed.

(** More fuel than needed changes nothing. *)
Lemma annealing_loop_fuel_mono fuel : forall st g c fuel',
  fst (annealing_loop Math_exp fuel e st g) = Some c ->
  (fuel <= fuel')%nat ->
  annealing_loop Math_exp fuel' e st g = annealing_loop Math_exp fuel e st g.
Proof.
  induction fuel as [|fuel IH]; intros st g c fuel' Hrun Hle;
    destruct fuel' as [|fuel']; try lia; cbn [annealing_loop] in *;
    destruct (loop_condition st); try reflexivity; try discriminate.
  rewrite !bind_eq in *.
  destruct (fst (iteration Math_exp e st g)) as [st1|exn]; [|reflexivity].
  eapply IH; [exact Hrun|lia].
Qed.

End Loop.

(** ** Results on [generateSchedule] *)

Lemma no_violation e cs :
  NoDup (List.map id (eng_classes e)) ->
  Forall conflict_free cs -> Forall (known e) cs ->
  calculateConstraintViolations e cs = Fin 0.
Proof.
  intros Hnd Hfree Hknown. unfold calculateConstraintViolations.
  generalize (Fin 0) as acc.
  induction cs as [|c cs IH]; intros acc; cbn [fold_left]; [reflexivity|].
  apply Forall_cons in Hfree as [Hc Hfree].
  apply Forall_cons in Hknown as [Hk Hknown].
  unfold violates at 2. rewrite (find_class_known e c Hnd Hk), Hc. now apply IH.
Qed.


(** ** Draws stay valid; a non-empty schedule can always be mutated *)

Lemma keeps_valid_ret {A} (a : A) : keeps_valid (ret a).
Proof. intros g H; exact H. Qed.

Lemma keeps_valid_bind {A B} (m : Rand A) (k : A -> Rand B) :
  keeps_valid m -> (forall a, keeps_valid (k a)) -> keeps_valid (bind m k).
Proof. intros Hm Hk g Hg. rewrite bind_eq. apply Hk, Hm, Hg. Qed.

Lemma keeps_valid_random : keeps_valid Math_random.
Proof.
  intros [|r g] Hg; cbn; [constructor|]. now apply Forall_cons in Hg as [_ ?].
Qed.

Ltac keeps_valid_step :=
  first [ apply keeps_valid_ret
        | apply keeps_valid_random
        | apply keeps_valid_bind; [|intros ?]
        | match goal with
          | |- keeps_valid (match ?x with _ => _ end) => destruct x
          | |- keeps_valid (if ?x then _ else _) => destruct x
          end ].

Lemma keeps_valid_random_index n : keeps_valid (random_index n).
Proof. unfold random_index. repeat keeps_valid_step. Qed.

Lemma keeps_valid_shuffle_pick {A} fuel : forall xs : list A,
  keeps_valid (shuffle_pick fuel xs).
Proof.
  induction fuel as [|fuel IH]; intros xs; cbn [shuffle_pick].
  - apply keeps_valid_ret.
  - apply keeps_valid_bind; [apply keeps_valid_random_index|intros i].
    destruct (array_get xs i); [|apply keeps_valid_ret].
    apply keeps_valid_bind; [apply IH|intros ?; apply keeps_valid_ret].
Qed.

Lemma keeps_valid_shuffle {A} (xs : list A) : keeps_valid (shuffle xs).
Proof. apply keeps_valid_shuffle_pick. Qed.

Lemma keeps_valid_scanPeriods conflicts d ps : forall best,
  keeps_valid (scanPeriods conflicts d ps best).
Proof.
  induction ps as [|p ps IH]; intros best; cbn [scanPeriods].
  - apply keeps_valid_ret.
  - destruct (hasTotalConflict conflicts d p); [apply IH|].
    apply keeps_valid_bind; [apply keeps_valid_random|intros r].
    destruct (Qltb r (99 # 100)); [apply keeps_valid_ret|apply IH].
Qed.

Lemma keeps_valid_scanDates conflicts maxPerDay cpd ds ps : forall best,
  keeps_valid (scanDates conflicts maxPerDay cpd ds ps best).
Proof.
  induction ds as [|d ds IH]; intros best; cbn [scanDates].
  - apply keeps_valid_ret.
  - destruct (Z.leb _ _); [apply IH|].
    apply keeps_valid_bind; [apply keeps_valid_scanPeriods|intros s].
    destruct (accepted s); [apply keeps_valid_ret|apply IH].
Qed.

Lemma keeps_valid_placeClass e dates periods b cls :
  keeps_valid (placeClass e dates periods b cls).
Proof.
  unfold placeClass.
  apply keeps_valid_bind; [apply keeps_valid_shuffle|intros sd].
  apply keeps_valid_bind; [apply keeps_valid_shuffle|intros sp].
  apply keeps_valid_bind; [apply keeps_valid_scanDates|intros s].
  repeat keeps_valid_step.
Qed.

Lemma keeps_valid_placeAll e dates periods cs : forall b,
  keeps_valid (placeAll e dates periods b cs).
Proof.
  induction cs as [|cls cs IH]; intros b; cbn [placeAll].
  - apply keeps_valid_ret.
  - apply keeps_valid_bind; [apply keeps_valid_placeClass|intros b'; apply IH].
Qed.

Lemma keeps_valid_generateInitialSolution e :
  keeps_valid (generateInitialSolution e).
Proof.
  unfold generateInitialSolution.
  apply keeps_valid_bind; [apply keeps_valid_placeAll|intros b].
  apply keeps_valid_ret.
Qed.

Lemma keeps_valid_mutateSchedule e s : keeps_valid (mutateSchedule e s).
Proof.
  unfold mutateSchedule.
  apply keeps_valid_bind; [apply keeps_valid_random_index|intros i].
  destruct (array_get (classes s) i); [|apply keeps_valid_ret].
  destruct (find_class e _); [|apply keeps_valid_ret].
  apply keeps_valid_bind; [apply keeps_valid_shuffle|intros sd].
  apply keeps_valid_bind; [apply keeps_valid_shuffle|intros sp].
  apply keeps_valid_bind; [apply keeps_valid_scanDates|intros r].
  apply keeps_valid_ret.
Qed.

Lemma keeps_valid_iteration Math_exp e st :
  keeps_valid (iteration Math_exp e st).
Proof.
  unfold iteration.
  apply keeps_valid_bind; [apply keeps_valid_mutateSchedule|intros m].
  destruct m; [|apply keeps_valid_ret].
  apply keeps_valid_bind; [|intros ?; apply keeps_valid_ret].
  unfold accepts. repeat keeps_valid_step.
Qed.

(** [Math.floor(Math.random() * n)] is an index of an array of length
    [n > 0]. *)
Lemma random_index_bounds n g :
  valid_rng g -> (0 < n)%nat ->
  0 <= fst (random_index n g) < Z.of_nat n.
Proof.
  intros Hg Hn. unfold random_index. rewrite bind_eq. cbn [ret fst].
  assert (Hr : valid_draw (fst (Math_random g))).
  { destruct g as [|r g]; cbn.
    - split; [apply Qle_refl|reflexivity].
    - now apply Forall_cons in Hg as [? _]. }
  destruct Hr as [H0 H1].
  set (r := fst (Math_random g)) in *.
  set (q := inject_Z (Z.of_nat n)).
  assert (Hq : (0 < q)%Q).
  { unfold q. rewrite <- (Zlt_Qlt 0). lia. }
  split.
  - change 0 with (Qfloor 0). apply Qfloor_resp_le.
    apply Qmult_le_0_compat; auto. now apply Qlt_le_weak.
  - apply Z.lt_nge. intros Hge.
    assert (Hle : (q <= r * q)%Q).
    { eapply Qle_trans; [|apply Qfloor_le].
      unfold q at 1. rewrite <- Zle_Qle. exact Hge. }
    assert (Hlt : (r * q < 1 * q)%Q) by (apply Qmult_lt_compat_r; auto).
    rewrite Qmult_1_l in Hlt.
    apply (Qlt_irrefl q). eapply Qle_lt_trans; eauto.
Qed.

Lemma mutateSchedule_returns e s g :
  valid_rng g -> classes s <> [] ->
  exists s', fst (mutateSchedule e s g) = Normal s'.
Proof.
  intros Hg Hne.
  pose proof (mutateSchedule_cases e s g) as Hm.
  destruct (fst (mutateSchedule e s g)) as [s'|exn]; [eauto|].
  destruct Hm as [_ Hnone]. exfalso.
  assert (Hlen : (0 < length (classes s))%nat).
  { destruct (classes s); [congruence|cbn; lia]. }
  pose proof (random_index_bounds _ g Hg Hlen) as [Hlo Hhi].
  unfold array_get in Hnone.
  destruct (Z.ltb_spec (fst (random_index (length (classes s)) g)) 0); [lia|].
  apply lookup_ge_None in Hnone. lia.
Qed.

Lemma mutateSchedule_empty e s g :
  classes s = [] -> fst (mutateSchedule e s g) = Throw TypeError.
Proof.
  intros Hnil. unfold mutateSchedule. rewrite bind_eq, Hnil.
  unfold array_get. destruct (Z.ltb _ 0); [reflexivity|].
  now rewrite lookup_nil.
Qed.

Lemma mutation_length e s s' :
  mutation e s s' -> length (classes s') = length (classes s).
Proof.
  intros [| |]; cbn [classes]; auto. subst cs'. apply length_insert.
Qed.

Lemma mutation_nonempty e s s' : mutation e s s' -> classes s <> [].
Proof.
  intros [i c Hi _|i c o Hi _|i c o slot Hi _ _]; intros Hnil;
    rewrite Hnil in Hi; now rewrite lookup_nil in Hi.
Qed.

Section Returns.

Variable Math_exp : number -> number.
Variable e : ScheduleEngine.

Lemma step_length st st' :
  step e st st' ->
  length (classes (currentSchedule st')) =
  length (classes (currentSchedule st)).
Proof.
  intros [? Hm _ ->|? Hm _ ->|? Hm _ ->]; cbn; auto;
    eapply mutation_length; eauto.
Qed.

(** On valid draws the loop started on a non-empty schedule ends normally. *)
Lemma annealing_loop_returns fuel : forall st g,
  valid_rng g -> classes (currentSchedule st) <> [] ->
  counters_ok st -> MAX_ITERATIONS - iterations st <= Z.of_nat fuel ->
  exists st', fst (annealing_loop Math_exp fuel e st g) = Some (Normal st').
Proof.
  induction fuel as [|fuel IH]; intros st g Hg Hne Hok Hfuel;
    cbn [annealing_loop]; destruct (loop_condition st) eqn:Hc.
  - exfalso. unfold loop_condition in Hc. apply andb_prop in Hc as [H1 _].
    apply Z.ltb_lt in H1. lia.
  - eexists; reflexivity.
  - rewrite bind_eq.
    pose proof (iteration_cases Math_exp e st g) as Hit.
    pose proof (keeps_valid_iteration Math_exp e st g Hg) as Hg'.
    destruct (fst (iteration Math_exp e st g)) as [st1|exn].
    + apply IH; auto.
      * intros Hnil. apply Hne. apply step_length in Hit.
        rewrite Hnil in Hit. destruct (classes (currentSchedule st));
          [reflexivity|discriminate].
      * eapply step_counters; eauto.
      * rewrite (step_iterations _ _ _ Hit). lia.
    + destruct (mutateSchedule_returns e (currentSchedule st) g Hg Hne)
        as [s' Hs']. congruence.
  - eexists; reflexivity.
Qed.

Lemma counters_ok_initial s : counters_ok (initial_state s).
Proof.
  unfold counters_ok, MAX_ITERATIONS, maxIterationsWithoutImprovement; cbn. lia.
Qed.

(** [generateSchedule] returns a schedule when the draws are valid and the
    initial solution holds a class ... *)
Lemma generateSchedule_returns g :
  valid_rng g -> classes (fst (generateInitialSolution e g)) <> [] ->
  exists s, generateSchedule Math_exp e g = Some (Normal s).
Proof.
  intros Hg Hne. unfold generateSchedule, generateSchedule_fuel,
    generateSchedule_run. rewrite bind_eq.
  destruct (annealing_loop_returns (Z.to_nat MAX_ITERATIONS)
              (initial_state (fst (generateInitialSolution e g)))
              (snd (generateInitialSolution e g))) as [st' Hst'].
  - now apply keeps_valid_generateInitialSolution.
  - exact Hne.
  - apply counters_ok_initial.
  - cbn. lia.
  - rewrite Hst'. cbn. eauto.
Qed.

(** ... and throws at the first mutation when it holds none. *)
Lemma generateSchedule_throws g :
  classes (fst (generateInitialSolution e g)) = [] ->
  generateSchedule Math_exp e g = Some (Throw TypeError).
Proof.
  intros Hnil. unfold generateSchedule, generateSchedule_fuel,
    generateSchedule_run. rewrite bind_eq.
  change (Z.to_nat MAX_ITERATIONS) with (S (Z.to_nat (MAX_ITERATIONS - 1))).
  cbn [annealing_loop]. change (loop_condition (initial_state _)) with true.
  cbv iota. rewrite bind_eq. unfold iteration at 1. rewrite bind_eq.
  rewrite mutateSchedule_empty by exact Hnil. reflexivity.
Qed.

End Returns.

Lemma sample_ids_distinct : NoDup (List.map id (eng_classes sample_engine)).
Proof. apply (bool_decide_unpack _). vm_compute. reflexivity. Qed.

Lemma sample_rng_valid : valid_rng sample_rng.
Proof. repeat constructor; discriminate. Qed.

Lemma sample_initial_nonempty :
  classes (fst (generateInitialSolution sample_engine sample_rng)) <> [].
Proof. vm_compute. discriminate. Qed.


Lemma returned_nonempty Math_exp e g s :
  generateSchedule Math_exp e g = Some (Normal s) ->
  classes (fst (generateInitialSolution e g)) <> [].
Proof.
  intros Hrun Hnil.
  rewrite (generateSchedule_throws Math_exp e g Hnil) in Hrun. discriminate.
Qed.

(** C5.  In a schedule returned by [generateSchedule] no calendar day
    carries more than [constraints.maxClassesPerDay] classes.  The builder
    ([generateInitialSolution_cap]) and the mutation ([mutation_cap]) only
    use days whose count is below the cap, also when they fall back to the
    remembered best slot. *)
Theorem generateSchedule_respects_maxClassesPerDay Math_exp e g s :
  generateSchedule Math_exp e g = Some (Normal s) ->
  forall day, classes_on_day day (classes s)
              <= maxClassesPerDay (eng_constraints e).
Proof.
  intros Hrun day.
  set (init := fst (generateInitialSolution e g)).
  assert (HP : schedule_cap e s /\ length (classes s) = length (classes init)).
  { eapply (generateSchedule_invariant Math_exp e
              (fun s => schedule_cap e s /\
                        length (classes s) = length (classes init)));
      [| |exact Hrun].
    - intros s0 s1 [Hcap Hlen] Hm. split.
      + eapply mutation_cap; eauto.
      + rewrite <- Hlen. eapply mutation_length; eauto.
    - split; [apply generateInitialSolution_cap|reflexivity]. }
  destruct HP as [Hcap Hlen].
  pose proof (returned_nonempty _ _ _ _ Hrun) as Hne. fold init in Hne.
  destruct (classes s) as [|c cs] eqn:Hcs.
  { destruct (classes init); [congruence|discriminate]. }
  assert (Hmax : 1 <= maxClassesPerDay (eng_constraints e)).
  { unfold schedule_cap in Hcap. rewrite Hcs in Hcap.
    pose proof (classes_on_day_elem c (c :: cs) (list_elem_of_here _ _)) as Hpos.
    specialize (Hcap _ Hpos). lia. }
  unfold schedule_cap in Hcap. rewrite Hcs in Hcap.
  pose proof (classes_on_day_nonneg day (c :: cs)).
  destruct (Z.eq_dec (classes_on_day day (c :: cs)) 0) as [->|Hnz]; [lia|].
  apply Hcap. lia.
Qed.

Lemma generateSchedule_respects_maxClassesPerDay_witness :
  exists s,
    generateSchedule exp_approx sample_engine sample_rng = Some (Normal s) /\
    forall day, classes_on_day day (classes s) <= 2.
Proof.
  destruct (generateSchedule_returns exp_approx sample_engine sample_rng
              sample_rng_valid sample_initial_nonempty) as [s Hs].
  exists s. split; [exact Hs|].
  exact (generateSchedule_respects_maxClassesPerDay
           exp_approx sample_engine sample_rng s Hs).
Defined.


(** ** Where [generateSchedule] is defined *)

Lemma mutation_scored e s s' : scored e s -> mutation e s s' -> scored e s'.
Proof. intros Hs [| |]; auto; reflexivity. Qed.

Lemma div_of_nat_finite n m :
  m <> O -> JS.is_finite (JS.div (JS.of_nat n) (JS.of_nat m)) = true.
Proof.
  intros Hm. unfold JS.div, JS.of_nat, JS.of_Z, JS.Qzero_b. cbn [Qnum inject_Z].
  destruct (Z.eqb_spec (Z.of_nat m) 0); [lia|reflexivity].
Qed.




(** ** The best-so-far schedule and the first accepted candidate *)

Lemma bug_initial_run :
  generateInitialSolution bug_engine bug_rng = (bug_initial, []).
Proof. vm_compute. reflexivity. Qed.

Lemma bug_initial_classes :
  classes bug_initial =
  [ schedule_class (sample_class "A" "2" "elementary" []) (sample_start, 2);
    schedule_class (sample_class "B" "1" "elementary" []) (sample_start, 1) ].
Proof. vm_compute. reflexivity. Qed.

Lemma bug_candidate_classes :
  classes bug_candidate =
  [ schedule_class (sample_class "A" "2" "elementary" []) (sample_start, 1);
    schedule_class (sample_class "B" "1" "elementary" []) (sample_start, 1) ].
Proof. vm_compute. reflexivity. Qed.

Lemma bug_first_mutation :
  mutateSchedule bug_engine bug_initial [] = (Normal bug_candidate, []).
Proof. vm_compute. reflexivity. Qed.

Lemma bug_later_mutation :
  mutateSchedule bug_engine bug_candidate [] = (Normal bug_candidate, []).
Proof. vm_compute. reflexivity. Qed.

Lemma bug_scores :
  aggregateScore (score bug_initial) = Fin (11 # 5) /\
  aggregateScore (score bug_candidate) = Fin (9 # 5).
Proof. split; vm_compute; reflexivity. Qed.

Lemma Qred_zero_iff q : Qnum (Qred q) = 0 <-> q == 0.
Proof.
  rewrite <- (Qred_correct q) at 2. unfold Qeq. cbn. lia.
Qed.

(** The temperature is a finite, non-zero number at every iteration. *)
Lemma temperature_at_nonzero i :
  exists t, temperature_at i = Fin t /\ JS.Qzero_b t = false.
Proof.
  unfold temperature_at, JS.mul. eexists; split; [reflexivity|].
  unfold JS.Qzero_b. apply Z.eqb_neq. rewrite Qred_zero_iff.
  rewrite Qmult_1_l, Qred_correct.
  apply Qpower_not_0. discriminate.
Qed.

Lemma zero_over_temperature i : JS.div (Fin 0) (temperature_at i) = Fin 0.
Proof.
  destruct (temperature_at_nonzero i) as (t & -> & Ht).
  unfold JS.div. rewrite Ht.
  assert (H : Qred (0 / t) = Qred 0)
    by (apply Qred_complete; unfold Qdiv; apply Qmult_0_l).
  cbn [JS.Qzero_b]. rewrite H. reflexivity.
Qed.

Section BestTracking.

Variable Math_exp : number -> number.
Hypothesis exp_pos_0 : JS.lt (Fin 0) (Math_exp (Fin 0)) = true.
Hypothesis exp_pos_drop : JS.lt (Fin 0) (Math_exp (Fin (- 2 # 5))) = true.

(** Iteration 0: the candidate scores 9/5 against 11/5, is accepted by
    the draw, and replaces the best schedule, [bestScore] being
    [-Infinity]. *)
Lemma bug_iteration_0 :
  iteration Math_exp bug_engine (initial_state bug_initial) [] =
  (Normal {| iterations := 1;
             bestScore := aggregateScore (score bug_candidate);
             lastImprovement := 0;
             currentSchedule := bug_candidate;
             bestSchedule := bug_candidate |}, []).
Proof.
  unfold iteration. rewrite bind_eq.
  cbn [initial_state currentSchedule iterations bestScore lastImprovement
       bestSchedule].
  rewrite bug_first_mutation. cbn [fst snd]. rewrite bind_eq.
  unfold accepts.
  replace (JS.gt (aggregateScore (score bug_candidate))
                 (aggregateScore (score bug_initial))) with false
    by (vm_compute; reflexivity).
  rewrite bind_eq. cbn [Math_random fst snd ret].
  replace (JS.div (JS.sub (aggregateScore (score bug_candidate))
                          (aggregateScore (score bug_initial)))
                  (temperature_at 0)) with (Fin (- 2 # 5))
    by (vm_compute; reflexivity).
  rewrite exp_pos_drop.
  replace (JS.gt (aggregateScore (score bug_candidate)) (Infinity true))
    with true by (vm_compute; reflexivity).
  reflexivity.
Qed.

(** Every later iteration proposes the same schedule again; it is
    accepted and the best schedule stays. *)
Lemma bug_iteration_later i li :
  iteration Math_exp bug_engine
    {| iterations := i;
       bestScore := aggregateScore (score bug_candidate);
       lastImprovement := li;
       currentSchedule := bug_candidate;
       bestSchedule := bug_candidate |} [] =
  (Normal {| iterations := i + 1;
             bestScore := aggregateScore (score bug_candidate);
             lastImprovement := li;
             currentSchedule := bug_candidate;
             bestSchedule := bug_candidate |}, []).
Proof.
  unfold iteration. rewrite bind_eq.
  cbn [currentSchedule iterations bestScore lastImprovement bestSchedule].
  rewrite bug_later_mutation. cbn [fst snd]. rewrite bind_eq.
  unfold accepts.
  replace (JS.gt (aggregateScore (score bug_candidate))
                 (aggregateScore (score bug_candidate))) with false
    by (vm_compute; reflexivity).
  rewrite bind_eq. cbn [Math_random fst snd ret].
  replace (JS.sub (aggregateScore (score bug_candidate))
                  (aggregateScore (score bug_candidate))) with (Fin 0)
    by (vm_compute; reflexivity).
  rewrite zero_over_temperature, exp_pos_0. reflexivity.
Qed.

Lemma bug_loop_later fuel : forall i,
  1 <= i -> MAX_ITERATIONS - i <= Z.of_nat fuel ->
  exists st,
    fst (annealing_loop Math_exp fuel bug_engine
           {| iterations := i;
              bestScore := aggregateScore (score bug_candidate);
              lastImprovement := 0;
              currentSchedule := bug_candidate;
              bestSchedule := bug_candidate |} []) = Some (Normal st) /\
    bestSchedule st = bug_candidate.
Proof.
  induction fuel as [|fuel IH]; intros i Hi Hfuel; cbn [annealing_loop];
    destruct (loop_condition _) eqn:Hc.
  - unfold loop_condition in Hc; cbn in Hc.
    apply andb_prop in Hc as [Hc _]. apply Z.ltb_lt in Hc.
    unfold MAX_ITERATIONS in *. lia.
  - eexists; split; reflexivity.
  - rewrite bind_eq, bug_iteration_later. cbn [fst snd].
    apply IH; unfold MAX_ITERATIONS in *; lia.
  - eexists; split; reflexivity.
Qed.

(** C2 fails on the code at this input: the run returns the first
    accepted candidate, whose aggregate score 9/5 is below the 11/5 of the
    initial solution, a schedule the run has met. *)
Theorem generateSchedule_returns_worse_than_initial :
  exists s,
    generateSchedule Math_exp bug_engine bug_rng = Some (Normal s) /\
    aggregateScore (score s) = Fin (9 # 5) /\
    aggregateScore (score (fst (generateInitialSolution bug_engine bug_rng)))
    = Fin (11 # 5) /\
    JS.lt (aggregateScore (score s))
          (aggregateScore
             (score (fst (generateInitialSolution bug_engine bug_rng))))
    = true.
Proof.
  unfold generateSchedule, generateSchedule_fuel, generateSchedule_run.
  rewrite bind_eq, bug_initial_run. cbn [fst snd].
  change (Z.to_nat MAX_ITERATIONS) with (S (Z.to_nat (MAX_ITERATIONS - 1))).
  cbn [annealing_loop].
  change (loop_condition (initial_state bug_initial)) with true. cbv iota.
  rewrite bind_eq, bug_iteration_0. cbn [fst snd].
  destruct (bug_loop_later (Z.to_nat (MAX_ITERATIONS - 1)) 1)
    as (st & Hrun & Hbest); [lia|cbn; lia|].
  rewrite Hrun. cbn [returned]. rewrite Hbest.
  exists bug_candidate. split; [reflexivity|].
  split; [apply bug_scores|]. split; [apply bug_scores|].
  vm_compute. reflexivity.
Qed.

End BestTracking.

Lemma generateSchedule_returns_worse_than_initial_witness :
  exists s,
    generateSchedule exp_approx bug_engine bug_rng = Some (Normal s) /\
    aggregateScore (score s) = Fin (9 # 5) /\
    aggregateScore (score (fst (generateInitialSolution bug_engine bug_rng)))
    = Fin (11 # 5) /\
    JS.lt (aggregateScore (score s))
          (aggregateScore
             (score (fst (generateInitialSolution bug_engine bug_rng))))
    = true.
Proof.
  apply (generateSchedule_returns_worse_than_initial exp_approx);
    vm_compute; reflexivity.
Defined.

(** ** Grade-group cohesion *)


Ltac decide_keys :=
  repeat match goal with
         | |- context [decide (?x = ?y)] =>
             destruct (decide (x = y)); try congruence; cbn
         end.

Lemma group_by_two {K} `{EqDecision K} (key : ScheduledClass -> K) a b :
  key a <> key b -> group_by key [a; b] = [(key a, [a]); (key b, [b])].
Proof.
  intros Hne. unfold group_by. cbn. decide_keys. reflexivity.
Qed.

Lemma group_by_interleaved {K} `{EqDecision K} (key : ScheduledClass -> K)
    a1 b1 a2 b2 :
  key a1 = key a2 -> key b1 = key b2 -> key a1 <> key b1 ->
  group_by key [a1; b1; a2; b2] = [(key a1, [a1; a2]); (key b1, [b1; b2])].
Proof.
  intros Ha Hb Hne. unfold group_by. cbn. rewrite <- Ha, <- Hb.
  decide_keys. reflexivity.
Qed.



(** ** The weighted sum *)

(** C6, as stated, fails in its second half: with the preference ['none']
    the component [gradeProgression] is 1, not 0, and it enters the
    aggregate with weight 0.4: the aggregate is 11/5, the sum without that
    term is 9/5. *)
Lemma progression_counts_under_none :
  exists e,
    ScheduleEngine_new (List.map base rising_day) sample_start
                       sample_constraints preferences_none = Normal e /\
    gradeProgression (calculateScore e rising_day) = Fin 1 /\
    aggregateScore (calculateScore e rising_day) = Fin (11 # 5) /\
    JS.add (JS.add (JS.add
       (JS.mul (Fin 1) (totalLength (calculateScore e rising_day)))
       (JS.mul (Fin (1 # 2)) (gradeGroupCohesion (calculateScore e rising_day))))
       (JS.mul (Fin (3 # 10)) (distributionQuality (calculateScore e rising_day))))
       (JS.mul (Fin (-100)) (constraintViolations (calculateScore e rising_day)))
    = Fin (9 # 5).
Proof.
  eexists. split; [reflexivity|]. repeat split; vm_compute; reflexivity.
Qed.

(** C6, amended.  The aggregate of finite components is the weighted sum
    with weights 1, 0.5, 0.3, 0.4, -100 and 0; the constructor stores
    nothing of the preferences, so the component [gradeProgression] and its
    weight 0.4 are the same under every preference, ['none'] included. *)
Theorem aggregateScore_weighted_sum :
  (forall tl ggc dq cv gp pcp : Q,
     exists q,
       aggregateScore
         {| totalLength := Fin tl; gradeGroupCohesion := Fin ggc;
            distributionQuality := Fin dq; constraintViolations := Fin cv;
            gradeProgression := Fin gp; partialConflictPenalty := Fin pcp |}
       = Fin q /\
       (q == 1 * tl + (1 # 2) * ggc + (3 # 10) * dq + (2 # 5) * gp
             + (-100) * cv + 0 * pcp)%Q) /\
  (forall cs startDate constraints preferences,
     ScheduleEngine_new cs startDate constraints preferences =
     ScheduleEngine_new cs startDate constraints preferences_none).
Proof.
  split; [|reflexivity].
  intros tl ggc dq cv gp pcp. unfold aggregateScore, weights.
  cbn [fold_left fst snd score_get JS.add JS.mul].
  eexists; split; [reflexivity|].
  rewrite !Qred_correct. ring.
Qed.

(** C7, as stated, fails: constraints that break every validity condition
    construct an engine, and no [ConfigurationError] is thrown. *)
Lemma invalid_constraints_construct :
  constraints_valid invalid_constraints = false /\
  validateMaxPeriodsPerDay (maxPeriodsPerDay invalid_constraints) = false /\
  validateConsecutivePeriods (consecutivePeriods invalid_constraints) = false /\
  ScheduleEngine_new [] sample_start invalid_constraints preferences_none
  = Normal {| eng_classes := []; eng_startDate := sample_start;
              eng_constraints := invalid_constraints |} /\
  ScheduleEngine_new [] sample_start invalid_constraints preferences_none
  <> Throw ConfigurationError.
Proof. repeat split; try reflexivity. discriminate. Qed.

(** C7, amended.  The constructor validates nothing: for every constraints
    value, valid or not, it returns an engine that holds the catalogue, the
    start date and these constraints unchanged, and it never throws. *)
Theorem constructor_never_throws cs startDate constraints preferences :
  exists e,
    ScheduleEngine_new cs startDate constraints preferences = Normal e /\
    eng_classes e = cs /\ eng_startDate e = startDate /\
    eng_constraints e = constraints /\
    forall exn,
      ScheduleEngine_new cs startDate constraints preferences <> Throw exn.
Proof.
  eexists. split; [reflexivity|]. repeat split. discriminate.
Qed.


Lemma generateSchedule_run_fails run :
  run_fails run ->
  SimulatedAnnealingScheduler_generateSchedule run = Throw (Error failure_message).
Proof.
  unfold SimulatedAnnealingScheduler_generateSchedule.
  destruct run as [s|exn]; cbn; [|reflexivity].
  intros ->. reflexivity.
Qed.

Lemma generateSchedule_run_succeeds run :
  ~ run_fails run ->
  exists s, run = Normal s /\
            SimulatedAnnealingScheduler_generateSchedule run = Normal s.
Proof.
  unfold SimulatedAnnealingScheduler_generateSchedule.
  destruct run as [s|exn]; cbn; [|tauto].
  intros Hne. exists s. split; [reflexivity|].
  destruct (classes s); [tauto|reflexivity].
Qed.

Lemma run_workers_spec p runs : forall best best_score,
  (Exists run_fails runs ->
   run_workers p runs best best_score = Throw (Error failure_message)) /\
  (Forall (fun run => ~ run_fails run) runs ->
   exists result, run_workers p runs best best_score = Normal result).
Proof.
  induction runs as [|run runs IH]; intros best best_score; cbn [run_workers].
  - split; [intros H; inversion H|eauto].
  - split.
    + intros Hex.
      destruct (SimulatedAnnealingScheduler_generateSchedule run)
        as [schedule|exn] eqn:Hrun.
      * apply Exists_cons in Hex as [Hfail|Hex].
        { rewrite generateSchedule_run_fails in Hrun by exact Hfail.
          discriminate. }
        destruct (JS.gt _ _); now apply IH.
      * unfold SimulatedAnnealingScheduler_generateSchedule in Hrun.
        destruct run as [s|]; [destruct (Nat.eqb _ _)|]; cbn in Hrun;
          congruence.
    + intros Hall. apply Forall_cons in Hall as [Hok Hall].
      destruct (generateSchedule_run_succeeds run Hok) as (s & _ & ->).
      destruct (JS.gt _ _); now apply IH.
Qed.



Example sample_heap_reads :
  read_schedule sample_heap 1%positive =
  Some {| classes := rising_day;
          score := calculateScore (engine_for rising_day) rising_day |}.
Proof. vm_compute. reflexivity. Qed.

Example sample_heap_mutation :
  exists h',
    fst (mutateSchedule_heap (engine_for rising_day) sample_heap 1%positive
                             [(1 # 2)%Q])
    = (Normal 7%positive, h') /\
    read_schedule h' 1%positive = read_schedule sample_heap 1%positive /\
    (classes <$> read_schedule h' 7%positive) =
    Some [ schedule_class (sample_class "1" "1" "elementary" []) (monday, 1);
           schedule_class (sample_class "2" "2" "elementary" []) (monday, 1) ].
Proof. eexists. split; [vm_compute; reflexivity|]. split; vm_compute; reflexivity. Qed.

Lemma alloc_fresh (h : gmap loc object) o : h !! fst (alloc h o) = None.
Proof. cbn. apply not_elem_of_dom, is_fresh. Qed.

Lemma alloc_lookup (h : gmap loc object) o :
  snd (alloc h o) !! fst (alloc h o) = Some o.
Proof. cbn. apply lookup_insert_eq. Qed.

Lemma alloc_subseteq (h : gmap loc object) o : h ⊆ snd (alloc h o).
Proof. cbn. apply insert_subseteq, (alloc_fresh h o). Qed.

Lemma deref_class_mono (h h' : gmap loc object) l c :
  h ⊆ h' -> deref_class h l = Some c -> deref_class h' l = Some c.
Proof.
  unfold deref_class. intros Hsub H.
  destruct (h !! l) as [o|] eqn:Hl; [|discriminate].
  now rewrite (lookup_weaken _ _ _ _ Hl Hsub).
Qed.

Lemma deref_all_mono (h h' : gmap loc object) ls cs :
  h ⊆ h' -> mapM (deref_class h) ls = Some cs ->
  mapM (deref_class h') ls = Some cs.
Proof.
  intros Hsub H. apply mapM_Some. apply mapM_Some in H.
  eapply Forall2_impl; [exact H|]. intros l c. now apply deref_class_mono.
Qed.

Lemma read_classes_mono (h h' : gmap loc object) arr cs :
  h ⊆ h' -> read_classes h arr = Some cs -> read_classes h' arr = Some cs.
Proof.
  unfold read_classes. intros Hsub H.
  destruct (h !! arr) as [o|] eqn:Harr; [|discriminate].
  rewrite (lookup_weaken _ _ _ _ Harr Hsub).
  destruct o; try discriminate. now apply (deref_all_mono h).
Qed.

Lemma read_schedule_mono (h h' : gmap loc object) s S :
  h ⊆ h' -> read_schedule h s = Some S -> read_schedule h' s = Some S.
Proof.
  unfold read_schedule. intros Hsub H.
  destruct (h !! s) as [o|] eqn:Hs; [|discriminate].
  rewrite (lookup_weaken _ _ _ _ Hs Hsub).
  destruct o as [| |arr sc]; try discriminate.
  destruct (read_classes h arr) as [cs|] eqn:Hcs; [|discriminate].
  now rewrite (read_classes_mono h h' arr cs Hsub Hcs).
Qed.

Lemma read_schedule_inv (h : gmap loc object) s S :
  read_schedule h s = Some S ->
  exists arr elements,
    h !! s = Some (ScheduleObj arr (score S)) /\
    h !! arr = Some (ArrayObj elements) /\
    mapM (deref_class h) elements = Some (classes S).
Proof.
  unfold read_schedule, read_classes. intros H.
  destruct (h !! s) as [[| |arr sc]|] eqn:Hs; try discriminate.
  destruct (h !! arr) as [[elements| |]|] eqn:Harr; try discriminate.
  destruct (mapM (deref_class h) elements) as [cs|] eqn:Hcs; [|discriminate].
  inversion H; subst. cbn. eauto.
Qed.

(** The heap version computes what [mutateSchedule] computes, draws the same
    numbers, and only adds to the heap. *)
Lemma mutateSchedule_heap_refines e (h : gmap loc object) schedule S g :
  read_schedule h schedule = Some S ->
  let r := mutateSchedule_heap e h schedule g in
  h ⊆ snd (fst r) /\
  snd r = snd (mutateSchedule e S g) /\
  match fst (fst r) with
  | Normal result =>
      exists S', fst (mutateSchedule e S g) = Normal S' /\
                 read_schedule (snd (fst r)) result = Some S'
  | Throw exn => fst (mutateSchedule e S g) = Throw exn
  end.
Proof.
  intros Hread.
  destruct (read_schedule_inv h schedule S Hread)
    as (arr & elements & Hs & Harr & Hcs).
  unfold mutateSchedule_heap, mutateSchedule. rewrite Hs, Harr.
  set (newClasses := fst (alloc h (ArrayObj elements))).
  set (h1 := snd (alloc h (ArrayObj elements))).
  assert (Hsub1 : h ⊆ h1) by apply (alloc_subseteq h (ArrayObj elements)).
  assert (Hnew1 : h1 !! newClasses = Some (ArrayObj elements))
    by apply (alloc_lookup h (ArrayObj elements)).
  assert (Hfresh : h !! newClasses = None)
    by apply (alloc_fresh h (ArrayObj elements)).
  assert (Hcs1 : mapM (deref_class h1) elements = Some (classes S))
    by (eapply deref_all_mono; eauto).
  assert (Hr1 : read_classes h1 newClasses = Some (classes S)).
  { unfold read_classes. now rewrite Hnew1. }
  rewrite Hr1.
  pose proof (mapM_Some_1 _ _ _ Hcs1) as Hall.
  assert (Hlen : length elements = length (classes S))
    by (eapply Forall2_length; eauto).
  cbv zeta. rewrite !(bind_eq (random_index _)), Hlen.
  set (i := fst (random_index (length (classes S)) g)).
  set (g1 := snd (random_index (length (classes S)) g)).
  unfold array_get. destruct (Z.ltb i 0); [cbn; auto|].
  destruct (elements !! Z.to_nat i) as [class_ref|] eqn:Hi.
  2: { apply lookup_ge_None in Hi. rewrite Hlen in Hi.
       apply lookup_ge_None in Hi. rewrite Hi. cbn. auto. }
  destruct (Forall2_lookup_l _ _ _ _ _ Hall Hi) as (classToMove & Hci & Hderef).
  rewrite Hci, Hderef.
  destruct (find_class e (id (base classToMove))) as [originalClass|].
  2: { cbn. repeat split; auto. exists S. split; [reflexivity|].
       eapply read_schedule_mono; eauto. }
  rewrite !(bind_eq (shuffle _)).
  set (sd := shuffle _ g1). set (sp := shuffle _ (snd sd)).
  rewrite !(bind_eq (scanDates _ _ _ _ _ _)).
  set (s := scanDates _ _ _ _ _ _ _).
  cbn [ret fst snd].
  set (h3 := match bestSlot (fst s) with Some _ => _ | None => h1 end).
  set (cs' := match bestSlot (fst s) with
              | Some slot => <[Z.to_nat i := schedule_class (base classToMove) slot]>
                               (classes S)
              | None => classes S
              end).
  assert (H3 : h ⊆ h3 /\ h3 !! newClasses <> None /\
               read_classes h3 newClasses = Some cs').
  { subst h3 cs'. destruct (bestSlot (fst s)) as [slot|].
    - set (moved := ClassObj (schedule_class (base classToMove) slot)).
      set (new_ref := fst (alloc h1 moved)).
      set (h2 := snd (alloc h1 moved)).
      assert (Hsub2 : h1 ⊆ h2) by apply (alloc_subseteq h1 moved).
      assert (Hne : new_ref <> newClasses).
      { intros Heq. pose proof (alloc_fresh h1 moved) as Hf.
        fold new_ref in Hf. rewrite Heq, Hnew1 in Hf. discriminate. }
      split; [|split].
      + apply insert_subseteq_r; [exact Hfresh|]. now transitivity h1.
      + rewrite lookup_insert_eq. discriminate.
      + unfold read_classes. rewrite lookup_insert_eq. apply mapM_Some_2.
        apply Forall2_insert.
        * eapply Forall2_impl; [exact Hall|]. intros l c Hl.
          apply (deref_class_mono h).
          -- apply insert_subseteq_r; [exact Hfresh|]. now transitivity h1.
          -- unfold deref_class in *.
             destruct (h1 !! l) as [o|] eqn:Hl1; [|discriminate].
             destruct (h !! l) as [o'|] eqn:Hl0.
             ++ rewrite (lookup_weaken _ _ _ _ Hl0 Hsub1) in Hl1.
                now inversion Hl1; subst.
             ++ exfalso. subst h1. cbn in Hl1.
                destruct (decide (fresh (dom h) = l)) as [<-|Hnl].
                ** rewrite lookup_insert_eq in Hl1. inversion Hl1; subst.
                   discriminate.
                ** rewrite lookup_insert_ne in Hl1 by exact Hnl. congruence.
        * unfold deref_class. rewrite lookup_insert_ne by congruence.
          subst h2 new_ref. now rewrite alloc_lookup.
    - split; [exact Hsub1|]. split; [congruence|exact Hr1]. }
  destruct H3 as (Hsub3 & Hnew3 & Hr3). rewrite Hr3.
  unfold ret. cbn [fst snd].
  set (result := fst (alloc h3 (ScheduleObj newClasses (calculateScore e cs')))).
  set (h4 := snd (alloc h3 (ScheduleObj newClasses (calculateScore e cs')))).
  assert (Hsub4 : h3 ⊆ h4)
    by apply (alloc_subseteq h3 (ScheduleObj newClasses (calculateScore e cs'))).
  cbn [fst snd]. split; [now transitivity h3|]. split; [reflexivity|].
  eexists; split; [reflexivity|].
  unfold read_schedule. subst h4 result. rewrite alloc_lookup.
  fold cs'.
  now rewrite (read_classes_mono h3 _ newClasses cs' (alloc_subseteq _ _) Hr3).
Qed.

(** The class a mutation picks, and where it may put it. *)
Lemma mutateSchedule_chosen e s g s' :
  fst (mutateSchedule e s g) = Normal s' ->
  let index := fst (random_index (length (classes s)) g) in
  exists classToMove,
    array_get (classes s) index = Some classToMove /\
    (classes s' = classes s \/
     exists originalClass slot,
       find_class e (id (base classToMove)) = Some originalClass /\
       legal_destination e (classes s) classToMove originalClass slot /\
       classes s' =
       <[Z.to_nat index := schedule_class (base classToMove) slot]> (classes s)).
Proof.
  unfold mutateSchedule. rewrite bind_eq.
  set (i := fst (random_index (length (classes s)) g)). cbv zeta.
  destruct (array_get (classes s) i) as [classToMove|] eqn:Hget;
    [|cbn; discriminate].
  intros Hrun. exists classToMove. split; [reflexivity|].
  destruct (find_class e (id (base classToMove))) as [originalClass|] eqn:Hfind.
  2: { cbn in Hrun. inversion Hrun; subst. now left. }
  rewrite !bind_eq in Hrun.
  set (sd := shuffle _ _) in Hrun. set (sp := shuffle _ (snd sd)) in Hrun.
  pose proof (scanDates_spec (totalConflicts originalClass)
                (maxClassesPerDay (eng_constraints e))
                (remove_from_day (count_per_day (classes s))
                                 (dateKey (date classToMove)))
                (fst sd) (fst sp) None (snd sp)) as [_ Hbest].
  set (r := scanDates _ _ _ _ _ _ _) in *.
  cbn [ret fst] in Hrun. inversion Hrun; subst s'; cbn [classes].
  destruct (bestSlot (fst r)) as [slot|] eqn:Hbs; [|now left].
  right. exists originalClass, slot. split; [reflexivity|]. split; [|reflexivity].
  destruct (Hbest slot eq_refl) as [?|Hok]; [discriminate|].
  eapply ok_slot_Permutation; [| |exact Hok]; apply shuffle_Permutation.
Qed.

(** C8.  [mutateSchedule] modifies no object that exists when it is called:
    the input schedule, its array of classes, each scheduled class in it and
    its cached score read the same afterwards.  The schedule it returns has
    the same classes in the same order and differs from the input at most at
    the index it picked, in date and period; and when the class picked has
    no legal destination, the returned assignment is the input's. *)
Theorem mutateSchedule_leaves_input_unchanged e (h : gmap loc object)
    schedule S g :
  read_schedule h schedule = Some S ->
  let run := fst (mutateSchedule_heap e h schedule g) in
  let index := fst (random_index (length (classes S)) g) in
  (forall l o, h !! l = Some o -> snd run !! l = Some o) /\
  read_schedule (snd run) schedule = Some S /\
  forall result, fst run = Normal result ->
    exists S' classToMove,
      read_schedule (snd run) result = Some S' /\
      array_get (classes S) index = Some classToMove /\
      length (classes S') = length (classes S) /\
      base <$> classes S' = base <$> classes S /\
      (forall j, j <> Z.to_nat index -> classes S' !! j = classes S !! j) /\
      ((forall originalClass slot,
          find_class e (id (base classToMove)) = Some originalClass ->
          ~ legal_destination e (classes S) classToMove originalClass slot) ->
       classes S' = classes S).
Proof.
  intros Hread run index.
  destruct (mutateSchedule_heap_refines e h schedule S g Hread)
    as (Hsub & _ & Hres).
  fold run in Hsub, Hres. split; [|split].
  - intros l o Hl. eapply lookup_weaken; eauto.
  - eapply read_schedule_mono; eauto.
  - intros result Hrun. rewrite Hrun in Hres.
    destruct Hres as (S' & Hpure & Hread').
    destruct (mutateSchedule_chosen e S g S' Hpure)
      as (classToMove & Hget & Hcases).
    exists S', classToMove. split; [exact Hread'|]. split; [exact Hget|].
    apply array_get_Some in Hget as [_ Hget]. subst index. cbv zeta in *.
    destruct Hcases as [->|(originalClass & slot & Hfind & Hlegal & ->)].
    + repeat split; auto.
    + split; [apply length_insert|]. split; [|split].
      * rewrite list_fmap_insert. cbn [schedule_class base].
        apply list_insert_id. now rewrite list_lookup_fmap, Hget.
      * intros j Hj. now apply list_lookup_insert_ne.
      * intros Hnone. exfalso. eapply Hnone; eauto.
Qed.

Lemma mutateSchedule_leaves_input_unchanged_witness :
  let e := engine_for rising_day in
  let run := fst (mutateSchedule_heap e sample_heap 1%positive [(1 # 2)%Q]) in
  (forall l o, sample_heap !! l = Some o -> snd run !! l = Some o) /\
  read_schedule (snd run) 1%positive =
  Some {| classes := rising_day; score := calculateScore e rising_day |} /\
  forall result, fst run = Normal result ->
    exists S' classToMove,
      read_schedule (snd run) result = Some S' /\
      array_get rising_day 1 = Some classToMove /\
      length (classes S') = length rising_day /\
      base <$> classes S' = base <$> rising_day /\
      (forall j, j <> 1%nat -> classes S' !! j = rising_day !! j) /\
      ((forall originalClass slot,
          find_class e (id (base classToMove)) = Some originalClass ->
          ~ legal_destination e rising_day classToMove originalClass slot) ->
       classes S' = rising_day).
Proof.
  exact (mutateSchedule_leaves_input_unchanged
           (engine_for rising_day) sample_heap 1%positive
           {| classes := rising_day;
              score := calculateScore (engine_for rising_day) rising_day |}
           [(1 # 2)%Q] sample_heap_reads).
Defined.

(** * Further properties of the engine *)

(** ** The window of dates and periods *)

Lemma elem_of_getDateRange start n d :
  d ∈ getDateRange start n <->
  exists i, 0 <= i < Z.of_nat n /\ d = start + i * msPerDay.
Proof.
  unfold getDateRange. change (List.map ?f ?l) with (f <$> l).
  rewrite list_elem_of_fmap. split.
  - intros (i & -> & Hi). apply elem_of_seq in Hi. exists (Z.of_nat i).
    split; [lia|reflexivity].
  - intros (i & Hi & ->). exists (Z.to_nat i). split.
    + rewrite Z2Nat.id by lia. reflexivity.
    + apply elem_of_seq. lia.
Qed.

Lemma elem_of_periods_of n p : p ∈ periods_of n <-> 1 <= p <= n.
Proof.
  unfold periods_of. change (List.map ?f ?l) with (f <$> l).
  rewrite list_elem_of_fmap. split.
  - intros (i & -> & Hi). apply elem_of_seq in Hi. lia.
  - intros Hp. exists (Z.to_nat (p - 1)). split; [lia|].
    apply elem_of_seq. lia.
Qed.

Lemma dateKey_getDateRange start (i : Z) :
  dateKey (start + i * msPerDay) = dateKey start + i.
Proof. unfold dateKey. apply Z.div_add. discriminate. Qed.

Lemma getDateRange_keys_NoDup start n :
  NoDup (dateKey <$> getDateRange start n).
Proof.
  unfold getDateRange. change (List.map ?f ?l) with (f <$> l).
  rewrite <- list_fmap_compose. apply NoDup_fmap_2_strong; [|apply NoDup_seq].
  intros i j _ _. cbn. rewrite !dateKey_getDateRange. lia.
Qed.

Lemma getDateRange_length start n : length (getDateRange start n) = n.
Proof. unfold getDateRange. now rewrite length_map, length_seq. Qed.

(** ** The search returns the first legal slot *)

Lemma scanPeriods_best conflicts d ps : forall best g,
  let s := fst (scanPeriods conflicts d ps best g) in
  bestSlot s = match best with
               | Some b => Some b
               | None => first_free_period conflicts d ps
               end /\
  (accepted s <> None -> bestSlot s <> None).
Proof.
  induction ps as [|p ps IH]; intros best g;
    cbn [scanPeriods first_free_period].
  - cbn. split; [now destruct best|congruence].
  - destruct (hasTotalConflict conflicts d p); [apply IH|].
    rewrite bind_eq. destruct (Qltb _ _).
    + cbn. split; [|now destruct best]. now destruct best.
    + destruct (IH (match best with None => Some (d, p) | Some _ => best end)
                   (snd (Math_random g))) as [Hb Ha].
      split; [|exact Ha]. rewrite Hb. now destruct best.
Qed.

Lemma scanDates_best conflicts maxPerDay cpd ds ps : forall best g,
  bestSlot (fst (scanDates conflicts maxPerDay cpd ds ps best g)) =
  match best with
  | Some b => Some b
  | None => first_legal_slot conflicts maxPerDay cpd ds ps
  end.
Proof.
  induction ds as [|d ds IH]; intros best g;
    cbn [scanDates first_legal_slot].
  - cbn. now destruct best.
  - destruct (Z.leb _ _); [apply IH|].
    rewrite bind_eq.
    destruct (scanPeriods_best conflicts d ps best g) as [Hb Ha].
    set (s := scanPeriods conflicts d ps best g) in *.
    destruct (accepted (fst s)) as [a|] eqn:Hacc.
    + cbn. rewrite Hb. destruct best; [reflexivity|].
      rewrite Hb in Ha. destruct (first_free_period conflicts d ps);
        [reflexivity|]. exfalso. now apply Ha.
    + rewrite IH, Hb. destruct best; [reflexivity|].
      now destruct (first_free_period conflicts d ps).
Qed.

Lemma first_free_period_None conflicts d ps :
  first_free_period conflicts d ps = None ->
  forall p, p ∈ ps -> hasTotalConflict conflicts d p = true.
Proof.
  induction ps as [|p0 ps IH]; cbn [first_free_period]; intros H p Hp.
  - inversion Hp.
  - destruct (hasTotalConflict conflicts d p0) eqn:Hc; [|discriminate].
    apply elem_of_cons in Hp as [->|Hp]; auto.
Qed.

Lemma first_legal_slot_None conflicts maxPerDay cpd ds ps :
  first_legal_slot conflicts maxPerDay cpd ds ps = None ->
  forall slot, ~ ok_slot conflicts maxPerDay cpd ds ps slot.
Proof.
  induction ds as [|d ds IH]; cbn [first_legal_slot];
    intros H slot (Hd & Hp & Hc & Hroom).
  - inversion Hd.
  - apply elem_of_cons in Hd as [Hd|Hd].
    + destruct (Z.leb_spec maxPerDay (day_count cpd (dateKey d))) as [Hfull|_].
      * rewrite Hd in Hroom. lia.
      * destruct (first_free_period conflicts d ps) eqn:Hf; [discriminate|].
        rewrite Hd in Hc.
        rewrite (first_free_period_None _ _ _ Hf _ Hp) in Hc. discriminate.
    + apply (IH ltac:(destruct (Z.leb _ _); [exact H|];
                      destruct (first_free_period conflicts d ps);
                      [discriminate|exact H]) slot).
      repeat split; auto.
Qed.

Lemma first_free_period_Some conflicts d ps slot :
  first_free_period conflicts d ps = Some slot ->
  fst slot = d /\ snd slot ∈ ps /\
  hasTotalConflict conflicts d (snd slot) = false.
Proof.
  induction ps as [|p ps IH]; cbn [first_free_period]; [discriminate|].
  destruct (hasTotalConflict conflicts d p) eqn:Hc.
  - intros H. destruct (IH H) as (? & ? & ?). repeat split; auto.
    now apply list_elem_of_further.
  - intros H. inversion H; subst. cbn. repeat split; auto.
    apply list_elem_of_here.
Qed.

Lemma first_legal_slot_Some conflicts maxPerDay cpd ds ps slot :
  first_legal_slot conflicts maxPerDay cpd ds ps = Some slot ->
  ok_slot conflicts maxPerDay cpd ds ps slot.
Proof.
  induction ds as [|d ds IH]; cbn [first_legal_slot]; [discriminate|].
  assert (Hweak : ok_slot conflicts maxPerDay cpd ds ps slot ->
                  ok_slot conflicts maxPerDay cpd (d :: ds) ps slot).
  { intros (? & ? & ? & ?). repeat split; auto. now apply list_elem_of_further. }
  destruct (Z.leb_spec maxPerDay (day_count cpd (dateKey d))) as [_|Hroom];
    [auto|].
  destruct (first_free_period conflicts d ps) as [s|] eqn:Hf; [|auto].
  intros H. inversion H; subst s.
  destruct (first_free_period_Some _ _ _ _ Hf) as (Hd & Hp & Hc).
  repeat split; auto.
  - rewrite Hd. apply list_elem_of_here.
  - now rewrite Hd.
  - now rewrite Hd.
Qed.

Lemma ok_slot_Permutation_iff conflicts maxPerDay cpd ds ds' ps ps' slot :
  ds' ≡ₚ ds -> ps' ≡ₚ ps ->
  ok_slot conflicts maxPerDay cpd ds' ps' slot <->
  ok_slot conflicts maxPerDay cpd ds ps slot.
Proof.
  intros Hd Hp. split; apply ok_slot_Permutation; auto; now symmetry.
Qed.

(** ** What the builder does with one class *)

Lemma placeClass_cases e dates periods b cls g :
  (exists slot,
     ok_slot (totalConflicts cls) (maxClassesPerDay (eng_constraints e))
             (perDay b) dates periods slot /\
     fst (placeClass e dates periods b cls g) = place b cls slot) \/
  ((forall slot,
      ~ ok_slot (totalConflicts cls) (maxClassesPerDay (eng_constraints e))
                (perDay b) dates periods slot) /\
   fst (placeClass e dates periods b cls g) = b).
Proof.
  unfold placeClass. rewrite !bind_eq.
  set (sd := shuffle dates g).
  set (sp := shuffle periods (snd sd)).
  pose proof (scanDates_spec (totalConflicts cls)
                (maxClassesPerDay (eng_constraints e)) (perDay b)
                (fst sd) (fst sp) None (snd sp)) as [Ha Hbest].
  pose proof (scanDates_best (totalConflicts cls)
                (maxClassesPerDay (eng_constraints e)) (perDay b)
                (fst sd) (fst sp) None (snd sp)) as Hfirst.
  set (s := scanDates _ _ _ _ _ _ _) in *.
  assert (Hperm : forall slot,
            ok_slot (totalConflicts cls) (maxClassesPerDay (eng_constraints e))
                    (perDay b) (fst sd) (fst sp) slot <->
            ok_slot (totalConflicts cls) (maxClassesPerDay (eng_constraints e))
                    (perDay b) dates periods slot).
  { intros slot. apply ok_slot_Permutation_iff; apply shuffle_Permutation. }
  destruct (accepted (fst s)) as [slot|] eqn:Hacc.
  - left. exists slot. split; [|reflexivity]. apply Hperm, Ha. reflexivity.
  - destruct (bestSlot (fst s)) as [slot|] eqn:Hbs.
    + left. exists slot. split; [|reflexivity]. apply Hperm.
      destruct (Hbest slot eq_refl) as [?|?]; [discriminate|assumption].
    + right. split; [|reflexivity]. intros slot Hok.
      eapply first_legal_slot_None; [symmetry; exact Hfirst|].
      apply Hperm. exact Hok.
Qed.

(** The classes the builder has placed are classes of the catalogue, in the
    order of the catalogue, each taken at most once, on slots of the
    window. *)
Lemma placeAll_placed e dates periods cs : forall b g,
  exists added,
    placed (fst (placeAll e dates periods b cs g)) = placed b ++ added /\
    sublist (base <$> added) cs /\
    Forall (fun c => date c ∈ dates /\ period c ∈ periods) added.
Proof.
  induction cs as [|cls cs IH]; intros b g; cbn [placeAll].
  - exists []. rewrite app_nil_r. repeat split; constructor.
  - rewrite bind_eq.
    destruct (IH (fst (placeClass e dates periods b cls g))
                 (snd (placeClass e dates periods b cls g)))
      as (added & Hadd & Hsub & Hwin).
    destruct (placeClass_cases e dates periods b cls g)
      as [(slot & Hok & Hplace)|[_ Hsame]].
    + exists (schedule_class cls slot :: added).
      rewrite Hadd, Hplace. cbn [place placed]. rewrite <- app_assoc.
      split; [reflexivity|]. split.
      * cbn. now apply sublist_skip.
      * constructor; [|exact Hwin]. destruct Hok as (? & ? & _). now split.
    + exists added. rewrite Hadd, Hsame. split; [reflexivity|].
      split; [now apply sublist_cons|exact Hwin].
Qed.

Lemma window_slot e c :
  date c ∈ getDateRange (eng_startDate e) 14 ->
  period c ∈ periods_of (maxPeriodsPerDay (eng_constraints e)) ->
  in_window e c.
Proof.
  intros Hd Hp. split.
  - apply elem_of_getDateRange in Hd as (i & Hi & Hd). exists i. split; [lia|auto].
  - now apply elem_of_periods_of.
Qed.

Lemma generateInitialSolution_placed e g :
  sublist (base <$> classes (fst (generateInitialSolution e g))) (eng_classes e) /\
  Forall (in_window e) (classes (fst (generateInitialSolution e g))).
Proof.
  unfold generateInitialSolution. rewrite bind_eq. cbn [ret fst classes].
  destruct (placeAll_placed e (getDateRange (eng_startDate e) 14)
              (periods_of (maxPeriodsPerDay (eng_constraints e)))
              (eng_classes e) (mkBuilder [] ∅) g) as (added & -> & Hsub & Hwin).
  cbn [placed app]. split; [exact Hsub|].
  eapply Forall_impl; [exact Hwin|]. intros c [? ?]. now apply window_slot.
Qed.

Lemma mutation_bases e s s' :
  mutation e s s' -> base <$> classes s' = base <$> classes s.
Proof.
  intros [| |i classToMove originalClass slot Hi _ _ cs']; cbn [classes]; auto.
  subst cs'. rewrite list_fmap_insert. cbn [schedule_class base].
  apply list_insert_id. now rewrite list_lookup_fmap, Hi.
Qed.

Lemma mutation_window e s s' :
  Forall (in_window e) (classes s) -> mutation e s s' ->
  Forall (in_window e) (classes s').
Proof.
  intros Hw [| |i classToMove originalClass slot Hi _ Hlegal cs'];
    cbn [classes]; auto.
  subst cs'. apply Forall_insert; [exact Hw|].
  destruct Hlegal as (Hd & Hp & _). now apply window_slot.
Qed.



(** X2.  The loop only moves classes: the schedule [generateSchedule]
    returns holds the classes of the initial solution, in the same order,
    and these are classes of the catalogue in catalogue order, none of them
    twice; a class the initial solution left out is never scheduled. *)
Theorem generateSchedule_same_classes Math_exp e g s :
  generateSchedule Math_exp e g = Some (Normal s) ->
  base <$> classes s = base <$> classes (fst (generateInitialSolution e g)) /\
  sublist (base <$> classes s) (eng_classes e) /\
  (length (classes s) <= length (eng_classes e))%nat.
Proof.
  intros Hrun.
  set (init := fst (generateInitialSolution e g)).
  assert (Hb : base <$> classes s = base <$> classes init).
  { eapply (generateSchedule_invariant Math_exp e
              (fun s => base <$> classes s = base <$> classes init));
      [| |exact Hrun].
    - intros s0 s1 H0 Hm. rewrite <- H0. eapply mutation_bases; eauto.
    - reflexivity. }
  assert (Hsub : sublist (base <$> classes s) (eng_classes e)).
  { rewrite Hb. apply generateInitialSolution_placed. }
  split; [exact Hb|]. split; [exact Hsub|].
  apply sublist_length in Hsub. now rewrite length_fmap in Hsub.
Qed.

Lemma generateSchedule_same_classes_witness :
  exists s,
    generateSchedule exp_approx sample_engine sample_rng = Some (Normal s) /\
    base <$> classes s =
      base <$> classes (fst (generateInitialSolution sample_engine sample_rng)) /\
    sublist (base <$> classes s) (eng_classes sample_engine) /\
    (length (classes s) <= 3)%nat.
Proof.
  destruct (generateSchedule_returns exp_approx sample_engine sample_rng
              sample_rng_valid sample_initial_nonempty) as [s Hs].
  exists s. split; [exact Hs|].
  exact (generateSchedule_same_classes exp_approx sample_engine sample_rng s Hs).
Defined.

(** ** The destination of a mutation *)

(** X3.  [mutateSchedule] puts the class it picked on the first slot, in
    the order of the shuffled dates and periods, that is free of total
    conflicts on a day below the cap: the draws against 0.99 never change
    the result.  The class is reassigned exactly when the window holds a
    legal destination for it. *)
Theorem mutateSchedule_takes_first_legal_slot e s g classToMove originalClass :
  let index := fst (random_index (length (classes s)) g) in
  let g1 := snd (random_index (length (classes s)) g) in
  let shuffledDates := shuffle (getDateRange (eng_startDate e) 14) g1 in
  let shuffledPeriods :=
    shuffle (periods_of (maxPeriodsPerDay (eng_constraints e)))
            (snd shuffledDates) in
  let first :=
    first_legal_slot (totalConflicts originalClass)
      (maxClassesPerDay (eng_constraints e))
      (remove_from_day (count_per_day (classes s)) (dateKey (date classToMove)))
      (fst shuffledDates) (fst shuffledPeriods) in
  let newClasses :=
    match first with
    | Some slot =>
        <[Z.to_nat index := schedule_class (base classToMove) slot]> (classes s)
    | None => classes s
    end in
  array_get (classes s) index = Some classToMove ->
  find_class e (id (base classToMove)) = Some originalClass ->
  fst (mutateSchedule e s g) =
    Normal {| classes := newClasses; score := calculateScore e newClasses |} /\
  (forall slot, first = Some slot ->
     legal_destination e (classes s) classToMove originalClass slot) /\
  (first = None <->
   forall slot, ~ legal_destination e (classes s) classToMove originalClass slot).
Proof.
  intros index g1 sd sp first newClasses Hget Hfind.
  assert (Hperm : forall slot,
            ok_slot (totalConflicts originalClass)
                    (maxClassesPerDay (eng_constraints e))
                    (remove_from_day (count_per_day (classes s))
                                     (dateKey (date classToMove)))
                    (fst sd) (fst sp) slot <->
            legal_destination e (classes s) classToMove originalClass slot).
  { intros slot. apply ok_slot_Permutation_iff; apply shuffle_Permutation. }
  split; [|split].
  - unfold mutateSchedule. rewrite bind_eq. fold index. cbv zeta.
    rewrite Hget, Hfind, !bind_eq. fold g1. fold sd. fold sp.
    cbn [ret fst]. rewrite scanDates_best. reflexivity.
  - intros slot Hs. apply Hperm. now apply first_legal_slot_Some.
  - split.
    + intros Hnone slot Hlegal. apply Hperm in Hlegal.
      eapply first_legal_slot_None; eauto.
    + intros Hnone. destruct first as [slot|] eqn:Hs; [|reflexivity].
      exfalso. apply (Hnone slot), Hperm. now apply first_legal_slot_Some.
Qed.

Lemma mutateSchedule_takes_first_legal_slot_witness :
  let e := engine_for rising_day in
  let s := {| classes := rising_day; score := calculateScore e rising_day |} in
  let classToMove := schedule_class (sample_class "2" "2" "elementary" [])
                                    (monday, 2) in
  let newClasses :=
    <[1%nat := schedule_class (base classToMove) (monday, 1)]> rising_day in
  fst (mutateSchedule e s [(1 # 2)%Q]) =
    Normal {| classes := newClasses; score := calculateScore e newClasses |}.
Proof.
  exact (proj1 (mutateSchedule_takes_first_legal_slot
                  (engine_for rising_day)
                  {| classes := rising_day;
                     score := calculateScore (engine_for rising_day) rising_day |}
                  [(1 # 2)%Q]
                  (schedule_class (sample_class "2" "2" "elementary" []) (monday, 2))
                  (sample_class "2" "2" "elementary" [])
                  eq_refl eq_refl)).
Defined.

(** ** When the builder schedules the whole catalogue *)

Lemma classes_on_day_other k k0 cs :
  k <> k0 ->
  classes_on_day k (filter (fun c => dateKey (date c) <> k0) cs) =
  classes_on_day k cs.
Proof.
  intros Hne. induction cs as [|c cs IH]; [reflexivity|].
  rewrite filter_cons. destruct (decide (dateKey (date c) <> k0)) as [Hc|Hc].
  - rewrite !classes_on_day_cons, IH. reflexivity.
  - rewrite classes_on_day_cons, IH.
    destruct (decide (dateKey (date c) = k)); [|lia].
    exfalso. apply Hc. congruence.
Qed.

Lemma length_split_day k0 (cs : list ScheduledClass) :
  Z.of_nat (length cs) =
  classes_on_day k0 cs +
  Z.of_nat (length (filter (fun c => dateKey (date c) <> k0) cs)).
Proof.
  induction cs as [|c cs IH]; [reflexivity|].
  rewrite classes_on_day_cons, filter_cons. cbn [length].
  destruct (decide (dateKey (date c) = k0)) as [Heq|Hne].
  - rewrite decide_False by (intros H; now apply H). lia.
  - rewrite decide_True by exact Hne. cbn [length]. lia.
Qed.

(** If each of the days [ks] carries [m] classes or more, the schedule holds
    at least [length ks * m] classes. *)
Lemma full_days_count m (ks : list Z) : forall cs,
  NoDup ks -> (forall k, k ∈ ks -> m <= classes_on_day k cs) ->
  Z.of_nat (length ks) * m <= Z.of_nat (length cs).
Proof.
  induction ks as [|k0 ks IH]; intros cs Hnd Hfull.
  - cbn. lia.
  - apply NoDup_cons in Hnd as [Hnotin Hnd].
    specialize (IH (filter (fun c => dateKey (date c) <> k0) cs) Hnd).
    rewrite (length_split_day k0 cs). cbn [length].
    pose proof (Hfull k0 (list_elem_of_here _ _)).
    assert (Z.of_nat (length ks) * m <=
            Z.of_nat (length (filter (fun c => dateKey (date c) <> k0) cs))).
    { apply IH. intros k Hk. rewrite classes_on_day_other.
      - apply Hfull. now apply list_elem_of_further.
      - intros ->. contradiction. }
    lia.
Qed.

Lemma place_counts b cls slot :
  (forall k, day_count (perDay b) k = classes_on_day k (placed b)) ->
  forall k, day_count (perDay (place b cls slot)) k =
            classes_on_day k (placed (place b cls slot)).
Proof.
  intros Hcount k. cbn [place placed perDay].
  rewrite day_count_insert, classes_on_day_app, classes_on_day_cons.
  cbn [schedule_class date]. unfold classes_on_day at 2; cbn.
  rewrite <- Hcount. destruct (decide (dateKey (fst slot) = k)) as [<-|]; lia.
Qed.

(** While fewer than [length dates * maxClassesPerDay] classes are placed,
    one of the dates is below the cap. *)
Lemma free_day maxPerDay (b : Builder) (dates : list Date) :
  NoDup (dateKey <$> dates) ->
  (forall k, day_count (perDay b) k = classes_on_day k (placed b)) ->
  Z.of_nat (length (placed b)) < Z.of_nat (length dates) * maxPerDay ->
  exists d, d ∈ dates /\ day_count (perDay b) (dateKey d) < maxPerDay.
Proof.
  intros Hnd Hcount Hlen.
  destruct (decide (Exists (fun d => day_count (perDay b) (dateKey d) < maxPerDay)
                           dates)) as [Hex|Hno].
  - apply Exists_exists in Hex. exact Hex.
  - exfalso. apply (not_Exists_Forall _) in Hno.
    pose proof (full_days_count maxPerDay (dateKey <$> dates) (placed b) Hnd)
      as Hfull.
    rewrite length_fmap in Hfull. apply Zlt_not_le in Hlen. apply Hlen, Hfull.
    intros k Hk. apply list_elem_of_fmap in Hk as (d & -> & Hd).
    eapply Forall_forall in Hno; eauto. cbn in Hno.
    rewrite <- Hcount. lia.
Qed.

Lemma placeAll_complete e dates periods cs : forall b g,
  NoDup (dateKey <$> dates) ->
  (forall k, day_count (perDay b) k = classes_on_day k (placed b)) ->
  Z.of_nat (length (placed b) + length cs) <=
    Z.of_nat (length dates) * maxClassesPerDay (eng_constraints e) ->
  (forall cls d, cls ∈ cs -> d ∈ dates ->
     exists p, p ∈ periods /\ hasTotalConflict (totalConflicts cls) d p = false) ->
  base <$> placed (fst (placeAll e dates periods b cs g)) =
  (base <$> placed b) ++ cs.
Proof.
  induction cs as [|cls cs IH]; intros b g Hnd Hcount Hlen Hfree;
    cbn [placeAll].
  - cbn. now rewrite app_nil_r.
  - rewrite bind_eq. cbn [length] in Hlen.
    destruct (placeClass_cases e dates periods b cls g)
      as [(slot & Hok & Hplace)|[Hnone _]].
    + rewrite IH; auto.
      * rewrite Hplace. cbn [place placed]. rewrite fmap_app. cbn.
        now rewrite <- app_assoc.
      * rewrite Hplace. now apply place_counts.
      * rewrite Hplace. cbn [place placed]. rewrite length_app. cbn [length]. lia.
      * intros c d Hc Hd. apply Hfree; [now apply list_elem_of_further|exact Hd].
    + exfalso.
      destruct (free_day (maxClassesPerDay (eng_constraints e)) b dates Hnd Hcount)
        as (d & Hd & Hroom); [lia|].
      destruct (Hfree cls d (list_elem_of_here _ _) Hd) as (p & Hp & Hc).
      apply (Hnone (d, p)). repeat split; auto.
Qed.

Lemma Qred_inject_Z z : Qred (inject_Z z) = inject_Z z.
Proof.
  unfold Qred, inject_Z.
  generalize (Z.ggcd_gcd z 1) (Z.ggcd_correct_divisors z 1).
  destruct (Z.ggcd z 1) as (gcd & a & b). cbn [fst snd].
  rewrite Z.gcd_1_r. intros -> [Ha Hb].
  rewrite Z.mul_1_l in Ha, Hb. subst. reflexivity.
Qed.

Lemma div_self n : n <> O -> JS.div (JS.of_nat n) (JS.of_nat n) = Fin 1.
Proof.
  intros Hn. unfold JS.div, JS.of_nat, JS.of_Z, JS.Qzero_b. cbn [Qnum inject_Z].
  destruct (Z.eqb_spec (Z.of_nat n) 0); [lia|].
  change (Fin 1) with (Fin (Qred 1)). f_equal. apply Qred_complete.
  apply Qmult_inv_r. unfold Qeq. cbn. lia.
Qed.


Lemma sample_engine_free cls d :
  cls ∈ eng_classes sample_engine ->
  d ∈ getDateRange (eng_startDate sample_engine) 14 ->
  exists p, 1 <= p <= maxPeriodsPerDay (eng_constraints sample_engine) /\
            hasTotalConflict (totalConflicts cls) d p = false.
Proof.
  intros Hc _. exists 2. split; [cbn; lia|].
  cbn in Hc. repeat (apply elem_of_cons in Hc as [->|Hc]);
    [cbn; now rewrite andb_false_r|reflexivity|reflexivity|inversion Hc].
Qed.


(** ** The scores [constraintViolations] and [totalLength] *)

Lemma add_one n : JS.add (JS.of_nat n) (Fin 1) = JS.of_nat (S n).
Proof.
  unfold JS.add, JS.of_nat, JS.of_Z. f_equal.
  rewrite <- (Qred_inject_Z (Z.of_nat (S n))). apply Qred_complete.
  rewrite Nat2Z.inj_succ. unfold Z.succ. rewrite inject_Z_plus. reflexivity.
Qed.

Lemma count_violations e cs : forall n,
  fold_left (fun violations cls =>
               if violates e cls then JS.add violations (Fin 1) else violations)
            cs (JS.of_nat n) =
  JS.of_nat (n + length (filter (fun c => violates e c = true) cs)).
Proof.
  induction cs as [|c cs IH]; intros n; cbn [fold_left].
  - cbn. now rewrite Nat.add_0_r.
  - rewrite filter_cons. destruct (violates e c) eqn:Hv.
    + rewrite decide_True by reflexivity. rewrite add_one, IH. cbn [length].
      f_equal. lia.
    + rewrite decide_False by discriminate. apply IH.
Qed.

Lemma filter_none {A} (P : A -> Prop) `{forall x, Decision (P x)} (l : list A) :
  (forall x, x ∈ l -> ~ P x) -> filter P l = [].
Proof.
  induction l as [|x l IH]; intros Hnone; [reflexivity|].
  rewrite filter_cons_False by (apply Hnone, list_elem_of_here).
  apply IH. intros y Hy. apply Hnone. now apply list_elem_of_further.
Qed.

(** X5.  [calculateConstraintViolations] returns the number of scheduled
    classes that sit on a total conflict of the first class of the catalogue
    with their id ([violates]); a scheduled class whose id the catalogue does
    not hold is not counted.  So the result is a whole number between 0 and
    the length of the schedule, never NaN, and it is 0 exactly when no
    class of the schedule violates. *)
Theorem calculateConstraintViolations_counts e cs :
  calculateConstraintViolations e cs =
    JS.of_nat (length (filter (fun c => violates e c = true) cs)) /\
  (length (filter (fun c => violates e c = true) cs) <= length cs)%nat /\
  (forall c, find_class e (id (base c)) = None -> violates e c = false) /\
  (calculateConstraintViolations e cs = Fin 0 <->
   forall c, c ∈ cs -> violates e c = false).
Proof.
  assert (Heq : calculateConstraintViolations e cs =
                JS.of_nat (length (filter (fun c => violates e c = true) cs))).
  { unfold calculateConstraintViolations.
    change (Fin 0) with (JS.of_nat 0). now rewrite count_violations. }
  split; [exact Heq|]. split; [apply length_filter|]. split.
  - intros c Hnone. unfold violates. now rewrite Hnone.
  - rewrite Heq. split.
    + intros Hz c Hc. destruct (violates e c) eqn:Hv; [|reflexivity].
      exfalso.
      assert (Hin : c ∈ filter (fun c => violates e c = true) cs)
        by (apply list_elem_of_filter; auto).
      destruct (filter (fun c => violates e c = true) cs); [inversion Hin|].
      discriminate.
    + intros Hnone.
      rewrite filter_none; [reflexivity|].
      intros c Hc. rewrite (Hnone c Hc). discriminate.
Qed.

Lemma totalLength_range n m :
  (0 < n <= m)%nat ->
  exists q, JS.div (JS.of_nat n) (JS.of_nat m) = Fin q /\ (0 < q)%Q /\ (q <= 1)%Q.
Proof.
  intros Hnm. unfold JS.div, JS.of_nat, JS.of_Z, JS.Qzero_b.
  cbn [Qnum inject_Z]. destruct (Z.eqb_spec (Z.of_nat m) 0); [lia|].
  eexists; split; [reflexivity|].
  assert (Hm : (0 < inject_Z (Z.of_nat m))%Q).
  { rewrite <- (Zlt_Qlt 0). lia. }
  rewrite Qred_correct. split.
  - apply Qlt_shift_div_l; [exact Hm|]. rewrite Qmult_0_l.
    rewrite <- (Zlt_Qlt 0). lia.
  - apply Qle_shift_div_r; [exact Hm|]. rewrite Qmult_1_l.
    rewrite <- Zle_Qle. lia.
Qed.



(** * The annealer of [simulatedAnnealing.ts] *)

Lemma keeps_valid_random_index_snd n g :
  valid_rng g -> valid_rng (snd (random_index n g)).
Proof. apply keeps_valid_random_index. Qed.

Lemma insert_by_conflicts_Permutation x l :
  SimulatedAnnealing.insert_by_conflicts x l ≡ₚ x :: l.
Proof.
  induction l as [|y l IH]; cbn; [reflexivity|].
  destruct (Z.leb (snd x) (snd y)); [reflexivity|].
  rewrite IH. apply Permutation_swap.
Qed.

Lemma sort_by_conflicts_Permutation l :
  SimulatedAnnealing.sort_by_conflicts l ≡ₚ l.
Proof.
  induction l as [|x l IH]; cbn; [reflexivity|].
  rewrite insert_by_conflicts_Permutation. now rewrite IH.
Qed.

Lemma insert_by_conflicts_ascending x l :
  ascending l -> ascending (SimulatedAnnealing.insert_by_conflicts x l).
Proof.
  induction l as [|y l IH]; cbn [SimulatedAnnealing.insert_by_conflicts ascending].
  - intros _. split; constructor.
  - intros [Hy Hl]. destruct (Z.leb_spec (snd x) (snd y)) as [Hle|Hgt].
    + cbn [ascending]. split; [|split; assumption].
      constructor; [exact Hle|].
      eapply Forall_impl; [exact Hy|]. cbn. intros; lia.
    + cbn [ascending]. split; [|apply IH, Hl].
      rewrite insert_by_conflicts_Permutation. constructor; [lia|exact Hy].
Qed.

Lemma sort_by_conflicts_ascending l :
  ascending (SimulatedAnnealing.sort_by_conflicts l).
Proof.
  induction l as [|x l IH]; cbn; [exact I|].
  now apply insert_by_conflicts_ascending.
Qed.

(** In an ascending list fewer than [i + 1] entries lie strictly below the
    entry at index [i]. *)
Lemma ascending_count l : forall i x,
  ascending l -> l !! i = Some x ->
  (length (filter (fun y => (snd y < snd x)%Z) l) <= i)%nat.
Proof.
  induction l as [|y l IH]; intros i x Hasc Hi; [discriminate|].
  destruct Hasc as [Hy Hl]. destruct i as [|i]; cbn in Hi.
  - inversion Hi; subst y. rewrite filter_cons_False by lia.
    rewrite filter_none; [reflexivity|].
    intros z Hz. eapply Forall_forall in Hy; eauto. lia.
  - rewrite filter_cons. specialize (IH i x Hl Hi).
    destruct (decide (snd y < snd x)); cbn [length]; lia.
Qed.

Lemma length_filter_fmap {A B} (f : A -> B) (P : B -> Prop)
    `{forall y, Decision (P y)} (l : list A) :
  length (filter P (f <$> l)) = length (filter (fun x => P (f x)) l).
Proof.
  induction l as [|x l IH]; [reflexivity|].
  cbn [fmap list_fmap]. rewrite !filter_cons.
  destruct (decide (P (f x))); cbn [length]; now rewrite IH.
Qed.

Section Annealer.

Variable hasConflict :
  Z -> Date -> Class -> list SimulatedAnnealing.ScheduledClass -> bool.
Variable getAvailablePeriods :
  Date -> Class -> list SimulatedAnnealing.ScheduledClass -> list Z.
Variable checkClassConflicts : Date -> Z -> Class -> Z.
Variable calculateScore : list SimulatedAnnealing.ScheduledClass -> number.
Variable clock : nat -> Date.
Variable Math_exp : number -> number.

Lemma try_periods_Some d cls scheduled ps c :
  SimulatedAnnealing.try_periods hasConflict d cls scheduled ps = Some c ->
  SimulatedAnnealing.class c = cls /\ SimulatedAnnealing.date c = d /\
  SimulatedAnnealing.period c ∈ ps /\
  hasConflict (SimulatedAnnealing.period c) d cls scheduled = false.
Proof.
  induction ps as [|p ps IH]; cbn [SimulatedAnnealing.try_periods];
    [discriminate|].
  destruct (hasConflict p d cls scheduled) eqn:Hc.
  - intros H. destruct (IH H) as (? & ? & ? & ?). repeat split; auto.
    now apply list_elem_of_further.
  - intros H. inversion H; subst c. cbn. repeat split; auto.
    apply list_elem_of_here.
Qed.

Lemma try_days_Some d cls scheduled offsets c :
  SimulatedAnnealing.try_days hasConflict d cls scheduled offsets = Some c ->
  SimulatedAnnealing.class c = cls /\
  (exists o, o ∈ offsets /\ SimulatedAnnealing.date c = d + o * msPerDay) /\
  1 <= SimulatedAnnealing.period c <= 8 /\
  hasConflict (SimulatedAnnealing.period c) (SimulatedAnnealing.date c) cls
              scheduled = false.
Proof.
  induction offsets as [|o os IH]; cbn [SimulatedAnnealing.try_days];
    [discriminate|].
  destruct (SimulatedAnnealing.try_periods hasConflict (d + o * msPerDay) cls
              scheduled (periods_of 8)) as [c'|] eqn:Hp.
  - intros H. inversion H; subst c'.
    apply try_periods_Some in Hp as (Hc & Hd & Hin & Hfree).
    split; [exact Hc|]. split.
    + exists o. split; [apply list_elem_of_here|exact Hd].
    + split; [now apply elem_of_periods_of|]. now rewrite Hd.
  - intros H. destruct (IH H) as (Hc & (o' & Ho' & Hd) & Hper & Hfree).
    split; [exact Hc|]. split; [|split; [exact Hper|exact Hfree]].
    exists o'. split; [now apply list_elem_of_further|exact Hd].
Qed.

Lemma place_from_spec cs : forall i scheduled,
  exists added,
    SimulatedAnnealing.place_from hasConflict clock i scheduled cs =
      scheduled ++ added /\
    sublist (SimulatedAnnealing.class <$> added) cs /\
    forall k c, added !! k = Some c ->
      1 <= SimulatedAnnealing.period c <= 8 /\
      (exists j o, (i <= j < i + length cs)%nat /\ 0 <= o < 5 /\
         SimulatedAnnealing.date c = clock j + o * msPerDay) /\
      hasConflict (SimulatedAnnealing.period c) (SimulatedAnnealing.date c)
                  (SimulatedAnnealing.class c) (scheduled ++ take k added) = false.
Proof.
  induction cs as [|cls cs IH]; intros i scheduled;
    cbn [SimulatedAnnealing.place_from].
  - exists []. rewrite app_nil_r. split; [reflexivity|].
    split; [constructor|]. intros k c Hk. now rewrite lookup_nil in Hk.
  - destruct (SimulatedAnnealing.try_days hasConflict (clock i) cls scheduled
                [0; 1; 2; 3; 4]) as [c0|] eqn:Htry.
    + destruct (IH (S i) (scheduled ++ [c0])) as (added & Heq & Hsub & Hall).
      apply try_days_Some in Htry as (Hc & (o & Ho & Hd) & Hp & Hfree).
      exists (c0 :: added). rewrite Heq, <- app_assoc. split; [reflexivity|].
      split; [cbn; rewrite Hc; now apply sublist_skip|].
      intros [|k] c Hk; cbn in Hk.
      * inversion Hk; subst c. split; [exact Hp|]. split.
        -- exists i, o. split; [cbn; lia|]. split; [|exact Hd].
           repeat (apply elem_of_cons in Ho as [->|Ho]); try lia.
           inversion Ho.
        -- cbn [take]. rewrite app_nil_r, Hc. exact Hfree.
      * destruct (Hall k c Hk) as (Hp' & (j & o' & Hj & Ho' & Hd') & Hfree').
        split; [exact Hp'|]. split.
        -- exists j, o'. split; [cbn; lia|auto].
        -- cbn [take]. rewrite <- app_assoc in Hfree'. exact Hfree'.
    + destruct (IH (S i) scheduled) as (added & Heq & Hsub & Hall).
      exists added. split; [exact Heq|]. split; [now apply sublist_cons|].
      intros k c Hk. destruct (Hall k c Hk) as (Hp' & (j & o' & Hj & Ho' & Hd') & Hf).
      split; [exact Hp'|]. split; [|exact Hf].
      exists j, o'. split; [cbn; lia|auto].
Qed.


(** X8.  [mutateSchedule] of the annealer, on a schedule that holds a class
    and with draws in [0, 1): it returns a schedule that differs from the
    input at most in the period of the entry it picked.  When the engine
    offers no available period the entry stays as it is; otherwise the new
    period is one of the available periods, and at most two of the
    available periods have fewer partial conflicts. *)
Theorem annealer_mutateSchedule schedule g :
  valid_rng g -> SimulatedAnnealing.classes schedule <> [] ->
  let index :=
    Z.to_nat (fst (random_index (length (SimulatedAnnealing.classes schedule)) g)) in
  exists classToMove moved,
    SimulatedAnnealing.classes schedule !! index = Some classToMove /\
    fst (SimulatedAnnealing.mutateSchedule getAvailablePeriods
           checkClassConflicts schedule g) =
      Normal {| SimulatedAnnealing.classes :=
                  <[index := moved]> (SimulatedAnnealing.classes schedule);
                SimulatedAnnealing.score := SimulatedAnnealing.score schedule |} /\
    SimulatedAnnealing.class moved = SimulatedAnnealing.class classToMove /\
    SimulatedAnnealing.date moved = SimulatedAnnealing.date classToMove /\
    let conflicts p :=
      checkClassConflicts (SimulatedAnnealing.date classToMove) p
                          (SimulatedAnnealing.class classToMove) in
    let available :=
      getAvailablePeriods (SimulatedAnnealing.date classToMove)
        (SimulatedAnnealing.class classToMove)
        (delete index (SimulatedAnnealing.classes schedule)) in
    (available = [] -> moved = classToMove) /\
    (available <> [] ->
       SimulatedAnnealing.period moved ∈ available /\
       (length (filter (fun p => (conflicts p <
                                  conflicts (SimulatedAnnealing.period moved))%Z)
                       available) <= 2)%nat).
Proof.
  intros Hg Hne index.
  assert (Hlen : (0 < length (SimulatedAnnealing.classes schedule))%nat).
  { destruct (SimulatedAnnealing.classes schedule); [congruence|cbn; lia]. }
  pose proof (random_index_bounds _ g Hg Hlen) as [Hlo Hhi].
  pose proof (keeps_valid_random_index_snd
                (length (SimulatedAnnealing.classes schedule)) g Hg) as Hg1.
  unfold SimulatedAnnealing.mutateSchedule. rewrite bind_eq.
  set (g1 := snd (random_index _ g)) in *.
  set (randomIndex := fst (random_index _ g)) in *.
  unfold array_get at 1. destruct (Z.ltb_spec randomIndex 0); [lia|].
  fold index.
  destruct (SimulatedAnnealing.classes schedule !! index)
    as [classToMove|] eqn:Hget.
  2: { apply lookup_ge_None in Hget. lia. }
  set (available := getAvailablePeriods _ _ _).
  set (conflicts := fun p : Z =>
         checkClassConflicts (SimulatedAnnealing.date classToMove) p
                             (SimulatedAnnealing.class classToMove)).
  destruct (Nat.ltb_spec 0 (length available)) as [Hav|Hav].
  - set (periodsWithScores :=
           List.map (fun p => (p, checkClassConflicts
                                    (SimulatedAnnealing.date classToMove) p
                                    (SimulatedAnnealing.class classToMove)))
                    available).
    set (sorted := SimulatedAnnealing.sort_by_conflicts periodsWithScores).
    set (topPeriods := take (Nat.min 3 (length sorted)) sorted).
    assert (Hsorted : sorted ≡ₚ periodsWithScores)
      by apply sort_by_conflicts_Permutation.
    assert (Hslen : length sorted = length available).
    { rewrite Hsorted. apply length_map. }
    assert (Htop : (0 < length topPeriods)%nat).
    { unfold topPeriods. rewrite length_take. lia. }
    rewrite bind_eq.
    pose proof (random_index_bounds _ g1 Hg1 Htop) as [Hlo2 Hhi2].
    set (i := fst (random_index (length topPeriods) g1)) in *.
    unfold array_get. destruct (Z.ltb_spec i 0); [lia|].
    destruct (topPeriods !! Z.to_nat i) as [selected|] eqn:Hsel.
    2: { apply lookup_ge_None in Hsel. lia. }
    exists classToMove,
      {| SimulatedAnnealing.class := SimulatedAnnealing.class classToMove;
         SimulatedAnnealing.date := SimulatedAnnealing.date classToMove;
         SimulatedAnnealing.period := fst selected |}.
    split; [reflexivity|]. split; [reflexivity|].
    split; [reflexivity|]. split; [reflexivity|].
    cbn [SimulatedAnnealing.period]. cbv zeta. fold available. split.
    { intros Hnil. rewrite Hnil in Hav. cbn in Hav. lia. }
    intros _.
    apply lookup_take_Some in Hsel as [Hsel Hi3].
    assert (Hin : selected ∈ periodsWithScores).
    { rewrite <- Hsorted. eapply list_elem_of_lookup_2; eauto. }
    unfold periodsWithScores in Hin.
    change (List.map ?f ?l) with (f <$> l) in Hin.
    apply list_elem_of_fmap in Hin as (p & Hp & Hpin).
    split; [rewrite Hp; exact Hpin|].
    pose proof (ascending_count sorted (Z.to_nat i) selected
                  (sort_by_conflicts_ascending _) Hsel) as Hcount.
    rewrite Hsorted in Hcount. unfold periodsWithScores in Hcount.
    change (List.map ?f ?l) with (f <$> l) in Hcount.
    rewrite length_filter_fmap in Hcount. cbn [snd] in Hcount.
    rewrite Hp in Hcount |- *. cbn [fst snd] in Hcount |- *.
    fold conflicts in Hcount. lia.
  - assert (Hnil : available = []).
    { destruct available; [reflexivity|cbn in Hav; lia]. }
    exists classToMove, classToMove. split; [reflexivity|].
    cbn [ret fst]. rewrite list_insert_id by exact Hget.
    split; [destruct schedule; reflexivity|].
    split; [reflexivity|]. split; [reflexivity|].
    cbv zeta. fold available.
    split; [reflexivity|]. intros Hne'. contradiction.
Qed.

(** ** The loop of [optimize] *)

Lemma loop_body_counters config st g st1 :
  fst (SimulatedAnnealing.loop_body getAvailablePeriods checkClassConflicts
         calculateScore Math_exp config st g) = Normal st1 ->
  SimulatedAnnealing.temperature st1 =
    JS.mul (SimulatedAnnealing.temperature st)
           (SimulatedAnnealing.get config "coolingRate") /\
  SimulatedAnnealing.iteration st1 = SimulatedAnnealing.iteration st + 1.
Proof.
  unfold SimulatedAnnealing.loop_body. rewrite bind_eq.
  destruct (fst (SimulatedAnnealing.mutateSchedule _ _ _ g)) as [new|exn];
    [|discriminate].
  rewrite bind_eq. cbn [ret fst]. intros H. inversion H; subst st1.
  split; reflexivity.
Qed.

Lemma mutateSchedule_throws_TypeError schedule g exn :
  fst (SimulatedAnnealing.mutateSchedule getAvailablePeriods
         checkClassConflicts schedule g) = Throw exn -> exn = TypeError.
Proof.
  unfold SimulatedAnnealing.mutateSchedule. rewrite bind_eq.
  destruct (array_get _ _) as [classToMove|]; [|cbn; congruence].
  destruct (Nat.ltb 0 _); [|discriminate].
  rewrite bind_eq. destruct (array_get _ _); cbn; [discriminate|congruence].
Qed.

Lemma loop_body_throws_TypeError config st g exn :
  fst (SimulatedAnnealing.loop_body getAvailablePeriods checkClassConflicts
         calculateScore Math_exp config st g) = Throw exn -> exn = TypeError.
Proof.
  unfold SimulatedAnnealing.loop_body. rewrite bind_eq.
  destruct (fst (SimulatedAnnealing.mutateSchedule _ _ _ g)) as [new|exn']
    eqn:Hm.
  - rewrite bind_eq. discriminate.
  - cbn. intros H; inversion H; subst. eapply mutateSchedule_throws_TypeError; eauto.
Qed.

(** The counters of the loop follow [cooling]. *)
Lemma loop_cooling config fuel : forall st g st',
  fst (SimulatedAnnealing.loop getAvailablePeriods checkClassConflicts
         calculateScore Math_exp fuel config st g) = Some (Normal st') ->
  SimulatedAnnealing.cooling fuel config (SimulatedAnnealing.temperature st)
                             (SimulatedAnnealing.iteration st) =
  Some (SimulatedAnnealing.temperature st', SimulatedAnnealing.iteration st').
Proof.
  induction fuel as [|fuel IH]; intros st g st';
    cbn [SimulatedAnnealing.loop SimulatedAnnealing.cooling];
    destruct (SimulatedAnnealing.loop_condition config _ _).
  - discriminate.
  - cbn. intros H; inversion H; subst. reflexivity.
  - rewrite bind_eq.
    destruct (fst (SimulatedAnnealing.loop_body _ _ _ _ config st g))
      as [st1|exn] eqn:Hb; [|cbn; discriminate].
    apply loop_body_counters in Hb as [Ht Hi]. intros H.
    rewrite <- Ht, <- Hi. eapply IH; eauto.
  - cbn. intros H; inversion H; subst. reflexivity.
Qed.

(** When [maxIterations] lets no counter from [bound] on pass, the loop ends
    within [bound - iteration] iterations. *)
Lemma loop_ends config bound :
  (forall i, bound <= i ->
     JS.lt (JS.of_Z i) (SimulatedAnnealing.get config "maxIterations") = false) ->
  forall fuel st g,
  bound - SimulatedAnnealing.iteration st <= Z.of_nat fuel ->
  exists c,
    fst (SimulatedAnnealing.loop getAvailablePeriods checkClassConflicts
           calculateScore Math_exp fuel config st g) = Some c /\
    match c with
    | Normal st' =>
        SimulatedAnnealing.loop_condition config
          (SimulatedAnnealing.temperature st')
          (SimulatedAnnealing.iteration st') = false /\
        SimulatedAnnealing.iteration st <= SimulatedAnnealing.iteration st' /\
        SimulatedAnnealing.iteration st' <=
          Z.max bound (SimulatedAnnealing.iteration st)
    | Throw exn => exn = TypeError
    end.
Proof.
  intros Hmax.
  induction fuel as [|fuel IH]; intros st g Hfuel;
    cbn [SimulatedAnnealing.loop];
    destruct (SimulatedAnnealing.loop_condition config _ _) eqn:Hc.
  - exfalso. unfold SimulatedAnnealing.loop_condition in Hc.
    apply andb_prop in Hc as [_ Hc]. rewrite Hmax in Hc by lia. discriminate.
  - exists (Normal st). split; [reflexivity|]. split; [exact Hc|]. lia.
  - rewrite bind_eq.
    assert (Hlt : SimulatedAnnealing.iteration st < bound).
    { apply Z.lt_nge. intros Hge. unfold SimulatedAnnealing.loop_condition in Hc.
      apply andb_prop in Hc as [_ Hc]. rewrite Hmax in Hc by lia. discriminate. }
    destruct (fst (SimulatedAnnealing.loop_body _ _ _ _ config st g))
      as [st1|exn] eqn:Hb.
    + pose proof (loop_body_counters _ _ _ _ Hb) as [_ Hi].
      destruct (IH st1 (snd (SimulatedAnnealing.loop_body getAvailablePeriods
                  checkClassConflicts calculateScore Math_exp config st g)))
        as (c & Hrun & Hcase); [lia|].
      exists c. split; [exact Hrun|]. destruct c as [st'|]; [|exact Hcase].
      destruct Hcase as (? & ? & ?). split; [assumption|]. lia.
    + exists (Throw exn). split; [reflexivity|].
      eapply loop_body_throws_TypeError; eauto.
  - exists (Normal st). split; [reflexivity|]. split; [exact Hc|]. lia.
Qed.

Lemma loop_fuel_mono config fuel : forall st g c fuel',
  fst (SimulatedAnnealing.loop getAvailablePeriods checkClassConflicts
         calculateScore Math_exp fuel config st g) = Some c ->
  (fuel <= fuel')%nat ->
  SimulatedAnnealing.loop getAvailablePeriods checkClassConflicts
    calculateScore Math_exp fuel' config st g =
  SimulatedAnnealing.loop getAvailablePeriods checkClassConflicts
    calculateScore Math_exp fuel config st g.
Proof.
  induction fuel as [|fuel IH]; intros st g c fuel' Hrun Hle;
    destruct fuel' as [|fuel']; try lia; cbn [SimulatedAnnealing.loop] in *;
    destruct (SimulatedAnnealing.loop_condition config _ _);
    try reflexivity; try discriminate.
  rewrite !bind_eq in *.
  destruct (fst (SimulatedAnnealing.loop_body _ _ _ _ config st g))
    as [st1|exn]; [|reflexivity].
  eapply IH; [exact Hrun|lia].
Qed.

Lemma default_maxIterations config :
  config !! "maxIterations" = None ->
  SimulatedAnnealing.get (SimulatedAnnealing.new config) "maxIterations" =
  Fin 10000.
Proof.
  intros Hnone. unfold SimulatedAnnealing.get, SimulatedAnnealing.new.
  replace ((config ∪ SimulatedAnnealing.defaults) !! "maxIterations")
    with (SimulatedAnnealing.defaults !! "maxIterations");
    [reflexivity|].
  symmetry. apply lookup_union_r, Hnone.
Qed.

Lemma lt_bound (m i : Z) : m <= i -> JS.lt (JS.of_Z i) (Fin (inject_Z m)) = false.
Proof.
  intros Hle. unfold JS.lt, JS.compare, JS.of_Z.
  destruct (Qcompare (inject_Z i) (inject_Z m)) eqn:Hcmp; try reflexivity.
  apply Qlt_alt in Hcmp. rewrite <- Zlt_Qlt in Hcmp. lia.
Qed.

(** X9.  An annealer whose configuration does not set [maxIterations] ends
    its loop within 10000 iterations, whatever the engine, the catalogue
    and the draws; more fuel changes nothing.  It either faults in a
    mutation (a TypeError) or leaves the loop with the counter between 0
    and 10000, in the state the configuration alone determines: the number
    of iterations is [iterations_of] the configuration and the loop test
    fails there. *)
Theorem annealer_loop_terminates config cs g :
  config !! "maxIterations" = None ->
  let this_config := SimulatedAnnealing.new config in
  let run fuel :=
    SimulatedAnnealing.loop getAvailablePeriods checkClassConflicts
      calculateScore Math_exp fuel this_config
      (SimulatedAnnealing.initial_state hasConflict calculateScore clock
         this_config cs) g in
  exists c,
    fst (run (Z.to_nat 10000)) = Some c /\
    (forall fuel, (Z.to_nat 10000 <= fuel)%nat -> run fuel = run (Z.to_nat 10000)) /\
    match c with
    | Normal st' =>
        0 <= SimulatedAnnealing.iteration st' <= 10000 /\
        SimulatedAnnealing.iterations_of this_config =
          Some (SimulatedAnnealing.iteration st') /\
        SimulatedAnnealing.loop_condition this_config
          (SimulatedAnnealing.temperature st')
          (SimulatedAnnealing.iteration st') = false
    | Throw exn => exn = TypeError
    end.
Proof.
  intros Hnone this_config run.
  assert (Hmax : forall i, 10000 <= i ->
            JS.lt (JS.of_Z i)
                  (SimulatedAnnealing.get this_config "maxIterations") = false).
  { intros i Hi. subst this_config. rewrite default_maxIterations by exact Hnone.
    now apply (lt_bound 10000). }
  destruct (loop_ends this_config 10000 Hmax (Z.to_nat 10000)
              (SimulatedAnnealing.initial_state hasConflict calculateScore clock
                 this_config cs) g) as (c & Hrun & Hcase).
  - cbn. lia.
  - exists c. split; [exact Hrun|]. split.
    + intros fuel Hfuel. eapply loop_fuel_mono; eauto.
    + destruct c as [st'|]; [|exact Hcase].
      destruct Hcase as (Hcond & Hlo & Hhi). cbn in Hlo, Hhi.
      split; [lia|]. split; [|exact Hcond].
      unfold SimulatedAnnealing.iterations_of.
      apply loop_cooling in Hrun. cbn [SimulatedAnnealing.initial_state
        SimulatedAnnealing.temperature SimulatedAnnealing.iteration] in Hrun.
      now rewrite Hrun.
Qed.

Lemma gt_irrefl (a : number) : JS.gt a a = false.
Proof.
  unfold JS.gt, JS.compare. destruct a as [|[]|q]; try reflexivity.
  destruct (Qcompare q q) eqn:H; try reflexivity.
  apply Qgt_alt in H. exfalso. exact (Qlt_irrefl q H).
Qed.

Lemma gt_not_lt_trans a b c :
  JS.gt a b = true -> JS.lt b c = false -> JS.lt a c = false.
Proof.
  unfold JS.gt, JS.lt, JS.compare.
  destruct a as [|[]|qa], b as [|[]|qb], c as [|[]|qc]; cbn;
    try reflexivity; try discriminate.
  destruct (Qcompare qa qb) eqn:Hab; try discriminate. intros _.
  destruct (Qcompare qb qc) eqn:Hbc; try discriminate; intros _;
    destruct (Qcompare qa qc) eqn:Hac; try reflexivity; exfalso;
    apply Qgt_alt in Hab; apply Qlt_alt in Hac.
  - apply Qeq_alt in Hbc. rewrite Hbc in Hab.
    apply (Qlt_irrefl qa). eapply Qlt_trans; eauto.
  - apply Qgt_alt in Hbc.
    apply (Qlt_irrefl qa). eapply Qlt_trans; [exact Hac|].
    eapply Qlt_trans; eauto.
Qed.

Lemma loop_best config init fuel : forall st g st',
  JS.gt (calculateScore (SimulatedAnnealing.classes
                           (SimulatedAnnealing.currentSolution st)))
        (calculateScore (SimulatedAnnealing.classes
                           (SimulatedAnnealing.bestSolution st))) = false /\
  JS.lt (calculateScore (SimulatedAnnealing.classes
                           (SimulatedAnnealing.bestSolution st)))
        (calculateScore init) = false ->
  fst (SimulatedAnnealing.loop getAvailablePeriods checkClassConflicts
         calculateScore Math_exp fuel config st g) = Some (Normal st') ->
  JS.gt (calculateScore (SimulatedAnnealing.classes
                           (SimulatedAnnealing.currentSolution st')))
        (calculateScore (SimulatedAnnealing.classes
                           (SimulatedAnnealing.bestSolution st'))) = false /\
  JS.lt (calculateScore (SimulatedAnnealing.classes
                           (SimulatedAnnealing.bestSolution st')))
        (calculateScore init) = false.
Proof.
  induction fuel as [|fuel IH]; intros st g st' Hinv;
    cbn [SimulatedAnnealing.loop];
    destruct (SimulatedAnnealing.loop_condition config _ _).
  - discriminate.
  - cbn. intros H; inversion H; subst. exact Hinv.
  - rewrite bind_eq.
    destruct (fst (SimulatedAnnealing.loop_body _ _ _ _ config st g))
      as [st1|exn] eqn:Hb; [|cbn; discriminate].
    apply IH. clear IH. destruct Hinv as [Hcur Hbest].
    unfold SimulatedAnnealing.loop_body in Hb. rewrite bind_eq in Hb.
    destruct (fst (SimulatedAnnealing.mutateSchedule _ _ _ g)) as [new|exn];
      [|discriminate].
    rewrite bind_eq in Hb. cbn [ret fst] in Hb.
    inversion Hb; subst st1; clear Hb.
    cbn [SimulatedAnnealing.currentSolution SimulatedAnnealing.bestSolution].
    destruct (fst (SimulatedAnnealing.acceptSchedule _ _ _ _ _)).
    + destruct (JS.gt (calculateScore (SimulatedAnnealing.classes new))
                      (calculateScore (SimulatedAnnealing.classes
                         (SimulatedAnnealing.bestSolution st)))) eqn:Hgt.
      * split; [apply gt_irrefl|]. eapply gt_not_lt_trans; eauto.
      * split; assumption.
    + split; assumption.
  - cbn. intros H; inversion H; subst. exact Hinv.
Qed.

Lemma lt_irrefl (a : number) : JS.lt a a = false.
Proof.
  unfold JS.lt, JS.compare. destruct a as [|[]|q]; try reflexivity.
  destruct (Qcompare q q) eqn:H; try reflexivity.
  apply Qlt_alt in H. exfalso. exact (Qlt_irrefl q H).
Qed.

(** X10.  The schedule [optimize] returns never scores below the initial
    solution, and the solution the loop holds when it stops never scores
    above the one returned: the best solution is compared by its own
    score. *)
Theorem annealer_returns_best fuel config cs g best :
  fst (SimulatedAnnealing.optimize hasConflict getAvailablePeriods
         checkClassConflicts calculateScore clock Math_exp fuel config cs g) =
    Some (Normal best) ->
  let initial :=
    SimulatedAnnealing.generateInitialSolution hasConflict calculateScore
      clock cs in
  JS.lt (calculateScore (SimulatedAnnealing.classes best))
        (calculateScore (SimulatedAnnealing.classes initial)) = false /\
  exists st',
    fst (SimulatedAnnealing.loop getAvailablePeriods checkClassConflicts
           calculateScore Math_exp fuel config
           (SimulatedAnnealing.initial_state hasConflict calculateScore clock
              config cs) g) = Some (Normal st') /\
    best = SimulatedAnnealing.bestSolution st' /\
    JS.gt (calculateScore (SimulatedAnnealing.classes
                             (SimulatedAnnealing.currentSolution st')))
          (calculateScore (SimulatedAnnealing.classes best)) = false.
Proof.
  intros Hrun initial. revert Hrun.
  unfold SimulatedAnnealing.optimize. rewrite bind_eq. cbn [ret fst].
  destruct (fst (SimulatedAnnealing.loop _ _ _ _ fuel config _ g))
    as [[st'|exn]|] eqn:Hloop; try discriminate.
  intros H. inversion H; subst best.
  assert (Hinv :
    JS.gt (calculateScore (SimulatedAnnealing.classes
                             (SimulatedAnnealing.currentSolution st')))
          (calculateScore (SimulatedAnnealing.classes
                             (SimulatedAnnealing.bestSolution st'))) = false /\
    JS.lt (calculateScore (SimulatedAnnealing.classes
                             (SimulatedAnnealing.bestSolution st')))
          (calculateScore (SimulatedAnnealing.classes initial)) = false).
  { eapply loop_best; [|exact Hloop].
    cbn [SimulatedAnnealing.initial_state SimulatedAnnealing.currentSolution
         SimulatedAnnealing.bestSolution].
    split; [apply gt_irrefl|apply lt_irrefl]. }
  destruct Hinv as [Hcur Hbest].
  split; [exact Hbest|]. exists st'. repeat split; auto.
Qed.

End Annealer.

(** ** The cooling schedule *)

Lemma gt_Fin (a b : Q) : JS.gt (Fin a) (Fin b) = true <-> (b < a)%Q.
Proof.
  unfold JS.gt, JS.compare. rewrite Qgt_alt.
  destruct (Qcompare a b); split; congruence.
Qed.

Lemma gt_Fin_false (a b : Q) : JS.gt (Fin a) (Fin b) = false <-> (a <= b)%Q.
Proof.
  unfold JS.gt, JS.compare. rewrite Qle_alt.
  destruct (Qcompare a b); split; congruence.
Qed.

Lemma lt_of_Z (i m : Z) : JS.lt (JS.of_Z i) (Fin (inject_Z m)) = true <-> i < m.
Proof.
  unfold JS.lt, JS.compare, JS.of_Z. rewrite Zlt_Qlt, Qlt_alt.
  destruct (Qcompare (inject_Z i) (inject_Z m)); split; congruence.
Qed.

Lemma Qpower_succ (c : Q) (k : nat) :
  (c ^ Z.of_nat (S k) == c ^ Z.of_nat k * c)%Q.
Proof.
  rewrite Nat2Z.inj_succ. unfold Z.succ.
  rewrite Qpower_plus' by lia. reflexivity.
Qed.

(** From a temperature [T0 * c^i] at counter [i], with [n] more iterations
    above the minimum and the test failing after them, the loop makes
    exactly [n] more iterations. *)
Lemma cooling_steps config (T0 c Tmin : Q) :
  SimulatedAnnealing.get config "coolingRate" = Fin c ->
  SimulatedAnnealing.get config "minTemperature" = Fin Tmin ->
  SimulatedAnnealing.get config "maxIterations" = Fin 10000 ->
  forall (n fuel i : nat) (t : Q),
    (t == T0 * c ^ Z.of_nat i)%Q ->
    (n <= fuel)%nat -> Z.of_nat (i + n) <= 10000 ->
    (forall k : nat, (i <= k < i + n)%nat -> (Tmin < T0 * c ^ Z.of_nat k)%Q) ->
    (Z.of_nat (i + n) < 10000 -> (T0 * c ^ Z.of_nat (i + n) <= Tmin)%Q) ->
    exists t',
      SimulatedAnnealing.cooling fuel config (Fin t) (Z.of_nat i) =
        Some (Fin t', Z.of_nat (i + n)) /\
      (t' == T0 * c ^ Z.of_nat (i + n))%Q.
Proof.
  intros Hc Hmin Hmax.
  induction n as [|n IH]; intros fuel i t Ht Hfuel Hbound Habove Hstop.
  - rewrite Nat.add_0_r in *. exists t. split; [|exact Ht].
    assert (Hcond : SimulatedAnnealing.loop_condition config (Fin t)
                      (Z.of_nat i) = false).
    { unfold SimulatedAnnealing.loop_condition. rewrite Hmin, Hmax.
      destruct (Z.eq_dec (Z.of_nat i) 10000) as [Heq|Hne].
      - apply andb_false_iff. right. rewrite Heq. reflexivity.
      - apply andb_false_iff. left. apply gt_Fin_false.
        rewrite Ht. apply Hstop. lia. }
    destruct fuel; cbn [SimulatedAnnealing.cooling]; now rewrite Hcond.
  - destruct fuel as [|fuel]; [lia|].
    cbn [SimulatedAnnealing.cooling].
    assert (Hcond : SimulatedAnnealing.loop_condition config (Fin t)
                      (Z.of_nat i) = true).
    { unfold SimulatedAnnealing.loop_condition. rewrite Hmin, Hmax.
      apply andb_true_intro. split.
      - apply gt_Fin. rewrite Ht. apply Habove. lia.
      - apply (lt_of_Z _ 10000). lia. }
    rewrite Hcond, Hc. cbn [JS.mul].
    replace (Z.of_nat i + 1) with (Z.of_nat (S i)) by lia.
    destruct (IH fuel (S i) (Qred (t * c))) as (t' & Hrun & Ht').
    + rewrite Qred_correct, Ht, Qpower_succ. ring.
    + lia.
    + lia.
    + intros k Hk. apply Habove. lia.
    + intros Hlt. replace (S i + n)%nat with (i + S n)%nat by lia.
      apply Hstop. lia.
    + exists t'. replace (i + S n)%nat with (S i + n)%nat by lia.
      split; assumption.
Qed.


(** A cooling rate in (0, 1] lowers the temperature at each step. *)
Lemma cooling_decreases (T0 c : Q) (k n : nat) :
  (0 < T0)%Q -> (0 < c)%Q -> (c <= 1)%Q -> (k <= n)%nat ->
  (T0 * c ^ Z.of_nat n <= T0 * c ^ Z.of_nat k)%Q.
Proof.
  intros HT0 Hc0 Hc1 Hkn. induction Hkn as [|n Hkn IH].
  - apply Qle_refl.
  - eapply Qle_trans; [|exact IH]. rewrite Qpower_succ.
    rewrite Qmult_assoc.
    rewrite <- (Qmult_1_r (T0 * c ^ Z.of_nat n)) at 2.
    apply Qmult_le_l; [|exact Hc1].
    apply Qmult_lt_0_compat; [exact HT0|]. now apply Qpower_0_lt.
Qed.

Lemma default_config_reads :
  SimulatedAnnealing.get (SimulatedAnnealing.new ∅) "initialTemperature" = Fin 1000 /\
  SimulatedAnnealing.get (SimulatedAnnealing.new ∅) "coolingRate" = Fin (95 # 100) /\
  SimulatedAnnealing.get (SimulatedAnnealing.new ∅) "minTemperature" = Fin (1 # 100) /\
  SimulatedAnnealing.get (SimulatedAnnealing.new ∅) "maxIterations" = Fin 10000.
Proof. repeat split; vm_compute; reflexivity. Qed.

Lemma default_config_above (k : nat) :
  (k < 225)%nat -> (1 # 100 < 1000 * (95 # 100) ^ Z.of_nat k)%Q.
Proof.
  intros Hk. eapply Qlt_le_trans;
    [|apply (cooling_decreases 1000 (95 # 100) k 224);
      [reflexivity|reflexivity|discriminate|lia]].
  vm_compute. reflexivity.
Qed.

Lemma default_config_below :
  Z.of_nat 225 < 10000 -> (1000 * (95 # 100) ^ Z.of_nat 225 <= 1 # 100)%Q.
Proof. intros _. vm_compute. discriminate. Qed.


(** ** The annealer on the sample catalogue *)

Lemma sample_annealer_initial_nonempty :
  SimulatedAnnealing.classes sample_annealer_initial <> [].
Proof. vm_compute. discriminate. Qed.

Lemma annealer_mutateSchedule_witness :
  exists classToMove moved,
    SimulatedAnnealing.classes sample_annealer_initial !! 1%nat =
      Some classToMove /\
    fst (SimulatedAnnealing.mutateSchedule sample_getAvailablePeriods
           sample_checkClassConflicts sample_annealer_initial [(1 # 2)%Q]) =
      Normal {| SimulatedAnnealing.classes :=
                  <[1%nat := moved]>
                    (SimulatedAnnealing.classes sample_annealer_initial);
                SimulatedAnnealing.score :=
                  SimulatedAnnealing.score sample_annealer_initial |} /\
    SimulatedAnnealing.date moved = SimulatedAnnealing.date classToMove.
Proof.
  assert (Hg : valid_rng [(1 # 2)%Q]) by (repeat constructor; discriminate).
  destruct (annealer_mutateSchedule sample_getAvailablePeriods
              sample_checkClassConflicts sample_annealer_initial [(1 # 2)%Q]
              Hg sample_annealer_initial_nonempty)
    as (classToMove & moved & Hget & Hrun & _ & Hdate & _).
  exists classToMove, moved. split; [exact Hget|]. split; [exact Hrun|exact Hdate].
Defined.

Lemma halving_maxIterations : halving !! "maxIterations" = None.
Proof. vm_compute. reflexivity. Qed.

Lemma annealer_loop_terminates_witness :
  exists c,
    fst (SimulatedAnnealing.loop sample_getAvailablePeriods
           sample_checkClassConflicts sample_calculateScore exp_approx
           (Z.to_nat 10000) (SimulatedAnnealing.new halving)
           (SimulatedAnnealing.initial_state sample_hasConflict
              sample_calculateScore sample_clock
              (SimulatedAnnealing.new halving) (eng_classes sample_engine))
           sample_rng) = Some c /\
    match c with
    | Normal st' =>
        0 <= SimulatedAnnealing.iteration st' <= 10000 /\
        SimulatedAnnealing.iterations_of (SimulatedAnnealing.new halving) =
          Some (SimulatedAnnealing.iteration st')
    | Throw exn => exn = TypeError
    end.
Proof.
  destruct (annealer_loop_terminates sample_hasConflict
              sample_getAvailablePeriods sample_checkClassConflicts
              sample_calculateScore sample_clock exp_approx halving
              (eng_classes sample_engine) sample_rng halving_maxIterations)
    as (c & Hrun & _ & Hc).
  exists c. split; [exact Hrun|].
  destruct c as [st'|exn]; [|exact Hc].
  destruct Hc as (Hi & Hn & _). split; assumption.
Defined.

Lemma sample_annealer_run :
  fst (SimulatedAnnealing.optimize sample_hasConflict
         sample_getAvailablePeriods sample_checkClassConflicts
         sample_calculateScore sample_clock exp_approx 10
         (SimulatedAnnealing.new three_iterations)
         (eng_classes sample_engine) sample_rng) =
  Some (Normal sample_annealer_best).
Proof. vm_compute. reflexivity. Qed.

Lemma annealer_returns_best_witness :
  JS.lt (sample_calculateScore (SimulatedAnnealing.classes sample_annealer_best))
        (sample_calculateScore
           (SimulatedAnnealing.classes sample_annealer_initial)) = false.
Proof.
  exact (proj1 (annealer_returns_best sample_hasConflict
                  sample_getAvailablePeriods sample_checkClassConflicts
                  sample_calculateScore sample_clock exp_approx 10
                  (SimulatedAnnealing.new three_iterations)
                  (eng_classes sample_engine) sample_rng sample_annealer_best
                  sample_annealer_run)).
Defined.

(** ** The properties of the configuration that [optimize] reads *)

Section AnnealerConfig.

Variable hasConflict :
  Z -> Date -> Class -> list SimulatedAnnealing.ScheduledClass -> bool.
Variable getAvailablePeriods :
  Date -> Class -> list SimulatedAnnealing.ScheduledClass -> list Z.
Variable checkClassConflicts : Date -> Z -> Class -> Z.
Variable calculateScore : list SimulatedAnnealing.ScheduledClass -> number.
Variable clock : nat -> Date.
Variable Math_exp : number -> number.

Lemma loop_config_ext c1 c2 fuel :
  SimulatedAnnealing.get c1 "coolingRate" = SimulatedAnnealing.get c2 "coolingRate" ->
  SimulatedAnnealing.get c1 "minTemperature" =
    SimulatedAnnealing.get c2 "minTemperature" ->
  SimulatedAnnealing.get c1 "maxIterations" =
    SimulatedAnnealing.get c2 "maxIterations" ->
  forall st g,
    SimulatedAnnealing.loop getAvailablePeriods checkClassConflicts
      calculateScore Math_exp fuel c1 st g =
    SimulatedAnnealing.loop getAvailablePeriods checkClassConflicts
      calculateScore Math_exp fuel c2 st g.
Proof.
  intros Hc Hmin Hmax.
  induction fuel as [|fuel IH]; intros st g; cbn [SimulatedAnnealing.loop];
    unfold SimulatedAnnealing.loop_condition; rewrite Hmin, Hmax;
    [reflexivity|].
  destruct (_ && _); [|reflexivity].
  rewrite !bind_eq. unfold SimulatedAnnealing.loop_body. rewrite Hc.
  destruct (fst _) as [st1|exn]; [apply IH|reflexivity].
Qed.

Lemma optimize_config_ext c1 c2 fuel cs g :
  (forall k, k ∈ ["initialTemperature"; "coolingRate"; "minTemperature";
                  "maxIterations"] ->
     SimulatedAnnealing.get c1 k = SimulatedAnnealing.get c2 k) ->
  SimulatedAnnealing.optimize hasConflict getAvailablePeriods
    checkClassConflicts calculateScore clock Math_exp fuel c1 cs g =
  SimulatedAnnealing.optimize hasConflict getAvailablePeriods
    checkClassConflicts calculateScore clock Math_exp fuel c2 cs g.
Proof.
  intros Hkeys. unfold SimulatedAnnealing.optimize. rewrite !bind_eq.
  unfold SimulatedAnnealing.initial_state.
  rewrite (Hkeys "initialTemperature") by (repeat constructor).
  rewrite (loop_config_ext c1 c2) by (apply Hkeys; repeat constructor).
  reflexivity.
Qed.

(** X12.  [optimize] reads four properties of its configuration and no
    others.  So the parameters a worker of [schedulerWorker.js] passes
    under the names [initialTemp], [minTemp] and [iterationsPerTemp] have no
    effect: its annealer runs with the default temperatures 1000 and 0.01
    and differs from the default one in the cooling rate only.  Of the
    configuration [ParallelScheduler.createWorkerConfig(i)] builds,
    [iterationsPerTemp] and [maxRestarts] have no effect, and
    [maxIterations] stays at the default 10000; the same holds of the
    configuration of [scheduleUtils.generateSchedule]. *)
Theorem worker_configurations fuel cs g :
  (forall workerId,
     SimulatedAnnealing.optimize hasConflict getAvailablePeriods
       checkClassConflicts calculateScore clock Math_exp fuel
       (SimulatedAnnealing.new (getWorkerParams workerId)) cs g =
     SimulatedAnnealing.optimize hasConflict getAvailablePeriods
       checkClassConflicts calculateScore clock Math_exp fuel
       (SimulatedAnnealing.new
          {[ "coolingRate" :=
               JS.sub (Fin (95 # 100))
                      (JS.mul (JS.of_Z workerId) (Fin (1 # 100))) ]}) cs g) /\
  (forall workerId,
     SimulatedAnnealing.get (SimulatedAnnealing.new (getWorkerParams workerId))
       "initialTemperature" = Fin 1000 /\
     SimulatedAnnealing.get (SimulatedAnnealing.new (getWorkerParams workerId))
       "minTemperature" = Fin (1 # 100)) /\
  (forall i,
     SimulatedAnnealing.optimize hasConflict getAvailablePeriods
       checkClassConflicts calculateScore clock Math_exp fuel
       (SimulatedAnnealing.new (createWorkerConfig i)) cs g =
     SimulatedAnnealing.optimize hasConflict getAvailablePeriods
       checkClassConflicts calculateScore clock Math_exp fuel
       (SimulatedAnnealing.new
          (delete "iterationsPerTemp"
                  (delete "maxRestarts" (createWorkerConfig i)))) cs g) /\
  (forall i,
     SimulatedAnnealing.get (SimulatedAnnealing.new (createWorkerConfig i))
       "maxIterations" = Fin 10000) /\
  SimulatedAnnealing.optimize hasConflict getAvailablePeriods
    checkClassConflicts calculateScore clock Math_exp fuel
    (SimulatedAnnealing.new utils_config) cs g =
  SimulatedAnnealing.optimize hasConflict getAvailablePeriods
    checkClassConflicts calculateScore clock Math_exp fuel
    (SimulatedAnnealing.new
       {[ "initialTemperature" := Fin 3000; "coolingRate" := Fin (99 # 100);
          "minTemperature" := Fin (1 # 10) ]}) cs g.
Proof.
  split; [|split; [|split; [|split]]].
  - intros workerId. apply optimize_config_ext. intros k Hk.
    repeat (apply elem_of_cons in Hk as [->|Hk]);
      [vm_compute; reflexivity ..|inversion Hk].
  - intros workerId. split; vm_compute; reflexivity.
  - intros i. apply optimize_config_ext. intros k Hk.
    repeat (apply elem_of_cons in Hk as [->|Hk]);
      [vm_compute; reflexivity ..|inversion Hk].
  - intros i. vm_compute. reflexivity.
  - apply optimize_config_ext. intros k Hk.
    repeat (apply elem_of_cons in Hk as [->|Hk]);
      [vm_compute; reflexivity ..|inversion Hk].
Qed.

End AnnealerConfig.

(** * The multi-run aggregator: which schedule it returns *)

Ltac js_order :=
  unfold JS.gt, JS.ge, JS.lt, JS.le, JS.compare;
  repeat match goal with
         | x : number |- _ => destruct x as [|[]|?]
         end;
  cbn;
  repeat match goal with
         | |- context [Qcompare ?a ?b] => destruct (Qcompare a b) eqn:?
         end;
  intros; repeat split; try congruence;
  repeat match goal with
         | H : Qcompare _ _ = Lt |- _ => apply Qlt_alt in H
         | H : Qcompare _ _ = Gt |- _ => apply Qgt_alt in H
         | H : Qcompare _ _ = Eq |- _ => apply Qeq_alt in H
         end;
  exfalso; lra.

Lemma gt_trans (a b c : number) :
  JS.gt a b = true -> JS.gt b c = true -> JS.gt a c = true.
Proof. js_order. Qed.

Lemma gt_ge_trans (a b c : number) :
  JS.ge a b = true -> JS.gt b c = true -> JS.ge a c = true.
Proof. js_order. Qed.

Lemma gt_reverse (a c : number) :
  JS.gt c a = true -> JS.ge a c = false /\ JS.gt a c = false.
Proof. js_order. Qed.

Lemma not_gt_below (a b c : number) :
  JS.gt a b = false -> JS.gt c b = true ->
  JS.ge a c = false /\ JS.gt a c = false.
Proof. js_order. Qed.

Lemma not_gt_ge (a b c : number) :
  JS.gt a b = false -> JS.ge c b = true -> JS.gt a c = false.
Proof. js_order. Qed.

Lemma gt_defined (a b : number) : JS.gt a b = true -> JS.ge a a = true.
Proof. js_order. Qed.

Lemma scheduler_returns run s :
  SimulatedAnnealingScheduler_generateSchedule run = Normal s ->
  run = Normal s /\ classes s <> [].
Proof.
  unfold SimulatedAnnealingScheduler_generateSchedule.
  destruct run as [s0|exn]; cbn; [|discriminate].
  destruct (classes s0) eqn:Hc; cbn; [discriminate|].
  intros H; inversion H; subst. split; [reflexivity|]. rewrite Hc. discriminate.
Qed.

(** The loop over the runs keeps the first schedule of the highest score
    among those above the score it starts with. *)
Lemma run_workers_max p runs : forall best best_score result,
  JS.ge best_score best_score = true ->
  run_workers p runs best best_score = Normal result ->
  exists final_score,
    JS.ge final_score best_score = true /\
    (forall j s', runs !! j = Some (Normal s') ->
       JS.gt (worker_score p s') final_score = false) /\
    ((result = best /\ final_score = best_score) \/
     exists k s,
       runs !! k = Some (Normal s) /\ classes s <> [] /\
       result = Some s /\ final_score = worker_score p s /\
       JS.gt final_score best_score = true /\
       forall j s', (j < k)%nat -> runs !! j = Some (Normal s') ->
         JS.ge (worker_score p s') final_score = false).
Proof.
  induction runs as [|run runs IH]; intros best best_score result Hdef;
    cbn [run_workers].
  - intros H; inversion H; subst. exists best_score.
    split; [exact Hdef|]. split; [|left; auto].
    intros j s' Hj. now rewrite lookup_nil in Hj.
  - destruct (SimulatedAnnealingScheduler_generateSchedule run)
      as [schedule|exn] eqn:Hrun; [|discriminate].
    apply scheduler_returns in Hrun as [-> Hne].
    destruct (JS.gt (worker_score p schedule) best_score) eqn:Hgt.
    + intros Hrest.
      destruct (IH _ _ _ (gt_defined _ _ Hgt) Hrest)
        as (final & Hge & Hmax & Hcase).
      exists final. split; [eapply gt_ge_trans; eauto|]. split.
      * intros [|j] s' Hj; cbn in Hj; [|eauto].
        inversion Hj; subst s'.
        eapply not_gt_ge; [apply gt_irrefl|exact Hge].
      * right. destruct Hcase as [[-> ->]|(k & s & Hk & Hs & -> & -> & Hbetter & Hfirst)].
        -- exists O, schedule. repeat split; auto. intros j s' Hj. lia.
        -- exists (S k), s. repeat split; auto.
           ++ eapply gt_trans; eauto.
           ++ intros [|j] s' Hj Hlook; cbn in Hlook.
              ** inversion Hlook; subst s'. now apply gt_reverse.
              ** eapply Hfirst; [|exact Hlook]. lia.
    + intros Hrest.
      destruct (IH _ _ _ Hdef Hrest) as (final & Hge & Hmax & Hcase).
      exists final. split; [exact Hge|]. split.
      * intros [|j] s' Hj; cbn in Hj; [|eauto].
        inversion Hj; subst s'. eapply not_gt_ge; eauto.
      * destruct Hcase as [[-> ->]|(k & s & Hk & Hs & -> & -> & Hbetter & Hfirst)];
          [left; auto|right].
        exists (S k), s. repeat split; auto.
        intros [|j] s' Hj Hlook; cbn in Hlook.
        -- inversion Hlook; subst s'. eapply not_gt_below; eauto.
        -- eapply Hfirst; [|exact Hlook]. lia.
Qed.

Lemma lookup_runs (optimize : nat -> Completion Schedule) n j :
  (j < n)%nat -> List.map optimize (seq 0 n) !! j = Some (optimize j).
Proof.
  intros Hj. change (List.map ?f ?l) with (f <$> l).
  rewrite list_lookup_fmap, lookup_seq_lt by exact Hj. reflexivity.
Qed.

Lemma lookup_runs_inv (optimize : nat -> Completion Schedule) n j run :
  List.map optimize (seq 0 n) !! j = Some run -> (j < n)%nat /\ run = optimize j.
Proof.
  change (List.map ?f ?l) with (f <$> l). rewrite list_lookup_fmap.
  intros H. apply fmap_Some in H as (i & Hi & ->).
  apply lookup_seq in Hi as [-> Hlt]. auto.
Qed.



(** ** The worker list of the aggregator *)

Lemma run_workers_tracked_spec p runs : forall best best_score workers,
  let r := run_workers_tracked p runs best best_score workers in
  fst r = run_workers p runs best best_score /\
  match fst r with
  | Normal _ => Forall (fun run => ~ run_fails run) runs /\ snd r = O
  | Throw _ =>
      exists k run,
        runs !! k = Some run /\ run_fails run /\
        Forall (fun run => ~ run_fails run) (take k runs) /\
        snd r = (workers + k + 1)%nat
  end.
Proof.
  induction runs as [|run runs IH]; intros best best_score workers;
    cbn [run_workers_tracked run_workers].
  - cbn. split; [reflexivity|]. split; [constructor|reflexivity].
  - cbv zeta.
    destruct (SimulatedAnnealingScheduler_generateSchedule run)
      as [schedule|exn] eqn:Hrun.
    + apply scheduler_returns in Hrun as [-> Hne].
      assert (Hok : ~ run_fails (Normal schedule)) by (cbn; exact Hne).
      destruct (JS.gt _ _);
        [specialize (IH (Some schedule) (worker_score p schedule) (S workers))
        |specialize (IH best best_score (S workers))];
        cbv zeta in IH; destruct IH as [Heq Hcase]; (split; [exact Heq|]);
        destruct (fst (run_workers_tracked _ _ _ _ _)) as [res|exn'].
      * destruct Hcase as [Hall ->]. split; [now constructor|reflexivity].
      * destruct Hcase as (k & r & Hk & Hf & Hbefore & ->).
        exists (S k), r. split; [exact Hk|]. split; [exact Hf|].
        split; [cbn; now constructor|lia].
      * destruct Hcase as [Hall ->]. split; [now constructor|reflexivity].
      * destruct Hcase as (k & r & Hk & Hf & Hbefore & ->).
        exists (S k), r. split; [exact Hk|]. split; [exact Hf|].
        split; [cbn; now constructor|lia].
    + cbn [fst snd]. split; [reflexivity|].
      exists O, run. split; [reflexivity|]. split.
      * destruct run as [s|]; [|exact I]. cbn.
        unfold SimulatedAnnealingScheduler_generateSchedule in Hrun.
        destruct (classes s); [reflexivity|discriminate].
      * split; [constructor|lia].
Qed.


(** * Schedule utilities *)

(** X15.  [getWeekNumber] counts from 1 and does not tell the two
    directions apart; the week is [w] exactly when the distance between the
    two dates is above [7w - 8] days and at most [7w - 1] days, so that
    week 1 ends six days after the start date and a date [k] whole days
    away lies in week [k / 7 + 1]. *)
Theorem getWeekNumber_weeks (d startDate : Date) :
  ScheduleUtils.getWeekNumber d startDate =
    ScheduleUtils.getWeekNumber startDate d /\
  1 <= ScheduleUtils.getWeekNumber d startDate /\
  (forall w,
     ScheduleUtils.getWeekNumber d startDate = w <->
     (7 * w - 8) * msPerDay < Z.abs (d - startDate) <= (7 * w - 1) * msPerDay) /\
  (forall k, 0 <= k ->
     ScheduleUtils.getWeekNumber (startDate + k * msPerDay) startDate = k / 7 + 1).
Proof.
  unfold ScheduleUtils.getWeekNumber, msPerDay.
  split; [|split; [|split]].
  - replace (Z.abs (startDate - d)) with (Z.abs (d - startDate)) by lia.
    reflexivity.
  - Z.div_mod_to_equations. lia.
  - intros w. split; intros H; Z.div_mod_to_equations; lia.
  - intros k Hk.
    replace (Z.abs (startDate + k * (24 * 60 * 60 * 1000) - startDate))
      with (k * (24 * 60 * 60 * 1000)) by lia.
    Z.div_mod_to_equations. lia.
Qed.

(** ** [countConsecutivePeriods] *)

Lemma existsb_occupied dayClasses p :
  existsb (fun cls => Z.eqb (period cls) p) dayClasses = true <->
  occupied dayClasses p.
Proof.
  rewrite existsb_exists. unfold occupied. split.
  - intros (cls & Hin & Heq). exists cls. split; [now apply list_elem_of_In|].
    now apply Z.eqb_eq.
  - intros (cls & Hin & Heq). exists cls. split; [now apply list_elem_of_In|].
    now apply Z.eqb_eq.
Qed.

Lemma below_decreases dayClasses p :
  occupied dayClasses (p - 1) ->
  (length (filter (fun c => (period c < p - 1)%Z) dayClasses) <
   length (filter (fun c => (period c < p)%Z) dayClasses))%nat.
Proof.
  intros (cls & Hin & Heq).
  rewrite (list_filter_iff (fun c => (period c < p - 1)%Z)
             (fun c => (period c < p - 1 /\ period c < p)%Z)) by (intros; lia).
  rewrite <- list_filter_filter.
  apply (length_filter_lt _ _ cls); [|lia].
  apply list_elem_of_filter. split; [lia|exact Hin].
Qed.

Lemma above_decreases dayClasses p :
  occupied dayClasses (p + 1) ->
  (length (filter (fun c => (p + 1 < period c)%Z) dayClasses) <
   length (filter (fun c => (p < period c)%Z) dayClasses))%nat.
Proof.
  intros (cls & Hin & Heq).
  rewrite (list_filter_iff (fun c => (p + 1 < period c)%Z)
             (fun c => (p + 1 < period c /\ p < period c)%Z)) by (intros; lia).
  rewrite <- list_filter_filter.
  apply (length_filter_lt _ _ cls); [|lia].
  apply list_elem_of_filter. split; [lia|exact Hin].
Qed.

Lemma count_before_spec dayClasses fuel : forall currentPeriod count,
  (length (filter (fun c => (period c < currentPeriod)%Z) dayClasses) <= fuel)%nat ->
  exists before,
    0 <= before <=
      Z.of_nat (length (filter (fun c => (period c < currentPeriod)%Z) dayClasses)) /\
    ScheduleUtils.count_before fuel dayClasses currentPeriod count =
      Some (count + before) /\
    (forall q, currentPeriod - before <= q < currentPeriod ->
       occupied dayClasses q) /\
    ~ occupied dayClasses (currentPeriod - before - 1).
Proof.
  induction fuel as [|fuel IH]; intros cp count Hfuel;
    cbn [ScheduleUtils.count_before];
    destruct (existsb _ dayClasses) eqn:Hocc.
  - apply existsb_occupied, below_decreases in Hocc. lia.
  - exists 0. split; [lia|]. split; [f_equal; lia|]. split; [intros; lia|].
    rewrite Z.sub_0_r. intros H. apply existsb_occupied in H. congruence.
  - apply existsb_occupied in Hocc.
    pose proof (below_decreases _ _ Hocc) as Hdec.
    destruct (IH (cp - 1) (count + 1)) as (b & Hb & Hrun & Hall & Hstop); [lia|].
    exists (b + 1). split; [lia|]. split; [rewrite Hrun; f_equal; lia|].
    split.
    + intros q Hq. destruct (Z.eq_dec q (cp - 1)) as [->|Hne]; [exact Hocc|].
      apply Hall. lia.
    + replace (cp - (b + 1) - 1) with (cp - 1 - b - 1) by lia. exact Hstop.
  - exists 0. split; [lia|]. split; [f_equal; lia|]. split; [intros; lia|].
    rewrite Z.sub_0_r. intros H. apply existsb_occupied in H. congruence.
Qed.

Lemma count_after_spec dayClasses fuel : forall currentPeriod count,
  (length (filter (fun c => (currentPeriod < period c)%Z) dayClasses) <= fuel)%nat ->
  exists after,
    0 <= after <=
      Z.of_nat (length (filter (fun c => (currentPeriod < period c)%Z) dayClasses)) /\
    ScheduleUtils.count_after fuel dayClasses currentPeriod count =
      Some (count + after) /\
    (forall q, currentPeriod < q <= currentPeriod + after ->
       occupied dayClasses q) /\
    ~ occupied dayClasses (currentPeriod + after + 1).
Proof.
  induction fuel as [|fuel IH]; intros cp count Hfuel;
    cbn [ScheduleUtils.count_after];
    destruct (existsb _ dayClasses) eqn:Hocc.
  - apply existsb_occupied, above_decreases in Hocc. lia.
  - exists 0. split; [lia|]. split; [f_equal; lia|]. split; [intros; lia|].
    rewrite Z.add_0_r. intros H. apply existsb_occupied in H. congruence.
  - apply existsb_occupied in Hocc.
    pose proof (above_decreases _ _ Hocc) as Hdec.
    destruct (IH (cp + 1) (count + 1)) as (a & Ha & Hrun & Hall & Hstop); [lia|].
    exists (a + 1). split; [lia|]. split; [rewrite Hrun; f_equal; lia|].
    split.
    + intros q Hq. destruct (Z.eq_dec q (cp + 1)) as [->|Hne]; [exact Hocc|].
      apply Hall. lia.
    + replace (cp + (a + 1) + 1) with (cp + 1 + a + 1) by lia. exact Hstop.
  - exists 0. split; [lia|]. split; [f_equal; lia|]. split; [intros; lia|].
    rewrite Z.add_0_r. intros H. apply existsb_occupied in H. congruence.
Qed.

Lemma length_below_above (dayClasses : list ScheduledClass) p :
  (length (filter (fun c => (period c < p)%Z) dayClasses) +
   length (filter (fun c => (p < period c)%Z) dayClasses) <= length dayClasses)%nat.
Proof.
  induction dayClasses as [|c cs IH]; [cbn; lia|].
  rewrite !filter_cons.
  destruct (decide (period c < p)), (decide (p < period c));
    cbn [length]; lia.
Qed.

Lemma length_List_filter {A} (f : A -> bool) (l : list A) :
  (length (List.filter f l) <= length l)%nat.
Proof.
  induction l as [|x l IH]; cbn; [lia|]. destruct (f x); cbn; lia.
Qed.


(** ** [getWeekSchedule] *)

Lemma localDay_shift tz d j :
  ScheduleUtils.localDay tz (d + j * msPerDay) = ScheduleUtils.localDay tz d + j.
Proof.
  unfold ScheduleUtils.localDay.
  replace (d + j * msPerDay + tz) with (d + tz + j * msPerDay) by lia.
  apply Z.div_add. discriminate.
Qed.

Lemma getDay_shift tz d j :
  ScheduleUtils.getDay tz (d + j * msPerDay) =
  (ScheduleUtils.getDay tz d + j) mod 7.
Proof.
  unfold ScheduleUtils.getDay. rewrite localDay_shift.
  rewrite Zplus_mod_idemp_l. f_equal. lia.
Qed.

Lemma next_monday_least tz (k : nat) : forall fuel d,
  (k <= fuel)%nat ->
  ScheduleUtils.getDay tz (d + Z.of_nat k * msPerDay) = 1 ->
  (forall j : nat, (j < k)%nat ->
     ScheduleUtils.getDay tz (d + Z.of_nat j * msPerDay) <> 1) ->
  ScheduleUtils.next_monday tz fuel d = Some (d + Z.of_nat k * msPerDay).
Proof.
  induction k as [|k IH]; intros fuel d Hfuel Hmon Hbefore.
  - replace (d + Z.of_nat 0 * msPerDay) with d in * by lia.
    destruct fuel; cbn [ScheduleUtils.next_monday]; now rewrite Hmon.
  - destruct fuel as [|fuel]; [lia|]. cbn [ScheduleUtils.next_monday].
    pose proof (Hbefore O ltac:(lia)) as H0.
    replace (d + Z.of_nat 0 * msPerDay) with d in H0 by lia.
    apply Z.eqb_neq in H0. rewrite H0.
    rewrite (IH fuel (d + msPerDay)).
    + f_equal. lia.
    + lia.
    + replace (d + msPerDay + Z.of_nat k * msPerDay)
        with (d + Z.of_nat (S k) * msPerDay) by lia. exact Hmon.
    + intros j Hj.
      replace (d + msPerDay + Z.of_nat j * msPerDay)
        with (d + Z.of_nat (S j) * msPerDay) by lia.
      apply Hbefore. lia.
Qed.

Lemma next_monday_spec tz d :
  exists k : nat,
    (k <= 6)%nat /\
    ScheduleUtils.next_monday tz 6 d = Some (d + Z.of_nat k * msPerDay) /\
    ScheduleUtils.getDay tz (d + Z.of_nat k * msPerDay) = 1 /\
    (k = O <-> ScheduleUtils.getDay tz d = 1).
Proof.
  set (g := ScheduleUtils.getDay tz d).
  assert (Hg : 0 <= g < 7) by (apply Z.mod_pos_bound; lia).
  set (k := Z.to_nat ((8 - g) mod 7)).
  assert (Hk : Z.of_nat k = (8 - g) mod 7).
  { unfold k. rewrite Z2Nat.id; [reflexivity|]. apply Z.mod_pos_bound. lia. }
  assert (Hmon : ScheduleUtils.getDay tz (d + Z.of_nat k * msPerDay) = 1).
  { rewrite getDay_shift. fold g. rewrite Hk. Z.div_mod_to_equations. lia. }
  exists k. split; [Z.div_mod_to_equations; lia|]. split; [|split; [exact Hmon|]].
  - apply next_monday_least; [Z.div_mod_to_equations; lia|exact Hmon|].
    intros j Hj. rewrite getDay_shift. fold g.
    Z.div_mod_to_equations. lia.
  - fold g. split; intros H; Z.div_mod_to_equations; lia.
Qed.

Lemma flat_map_days {A B} (keep : A -> bool) (f : A -> B) (l : list A) :
  flat_map (fun x => if keep x then [f x] else []) l =
  f <$> List.filter keep l.
Proof.
  induction l as [|x l IH]; [reflexivity|]. cbn.
  destruct (keep x); cbn; now rewrite IH.
Qed.


(** ** The engine's schedules seen by [getDaySchedule] *)

Lemma same_local_day_same_key e tz c1 c2 :
  in_window e c1 -> in_window e c2 ->
  ScheduleUtils.isSameDay tz (date c1) (date c2) = true ->
  dateKey (date c1) = dateKey (date c2).
Proof.
  intros [(i1 & _ & H1) _] [(i2 & _ & H2) _] Hsame.
  unfold ScheduleUtils.isSameDay in Hsame. apply Z.eqb_eq in Hsame.
  rewrite H1, H2 in Hsame |- *. rewrite !localDay_shift in Hsame.
  rewrite !dateKey_getDateRange. lia.
Qed.



(** * The [distributionQuality] score *)

Lemma map_get_elem (m : list (Z * Z)) k v :
  map_get m k = Some v -> (k, v) ∈ m.
Proof.
  induction m as [|[k' v'] m IH]; cbn [map_get]; [discriminate|].
  destruct (decide (k' = k)) as [->|Hne].
  - intros H; inversion H; subst. apply list_elem_of_here.
  - intros H. apply list_elem_of_further, IH, H.
Qed.

Lemma map_get_None (m : list (Z * Z)) k :
  map_get m k = None <-> k ∉ (fst <$> m).
Proof.
  induction m as [|[k' v'] m IH]; cbn [map_get].
  - split; [intros _ H; inversion H|reflexivity].
  - cbn [fmap list_fmap fst]. rewrite not_elem_of_cons.
    destruct (decide (k' = k)) as [->|Hne].
    + split; [discriminate|]. intros [H _]. congruence.
    + rewrite IH. split; [intros H; split; [congruence|exact H]|tauto].
Qed.

Lemma map_set_elem (m : list (Z * Z)) k v kv :
  kv ∈ map_set m k v -> kv = (k, v) \/ kv ∈ m.
Proof.
  induction m as [|[k' v'] m IH]; cbn [map_set].
  - intros H. apply list_elem_of_singleton in H. now left.
  - destruct (decide (k' = k)) as [->|Hne]; intros H;
      apply elem_of_cons in H as [->|H]; auto.
    + right. now apply list_elem_of_further.
    + right. apply list_elem_of_here.
    + destruct (IH H); [now left|right; now apply list_elem_of_further].
Qed.

Lemma map_set_keys (m : list (Z * Z)) k v :
  fst <$> map_set m k v =
  match map_get m k with
  | Some _ => fst <$> m
  | None => (fst <$> m) ++ [k]
  end.
Proof.
  induction m as [|[k' v'] m IH]; cbn [map_set map_get]; [reflexivity|].
  destruct (decide (k' = k)) as [->|Hne]; [reflexivity|].
  cbn [fmap list_fmap fst]. rewrite IH.
  destruct (map_get m k); reflexivity.
Qed.

Lemma map_set_sum (m : list (Z * Z)) k v :
  foldr Z.add 0 (snd <$> map_set m k v) =
  foldr Z.add 0 (snd <$> m) - default 0 (map_get m k) + v.
Proof.
  induction m as [|[k' v'] m IH]; cbn [map_set map_get]; [cbn; lia|].
  destruct (decide (k' = k)) as [->|Hne]; cbn; [lia|].
  cbn in IH. rewrite IH. lia.
Qed.

Lemma counts_ok_step m seen c :
  counts_ok m seen ->
  counts_ok (map_set m (dateKey (date c))
                     (default 0 (map_get m (dateKey (date c))) + 1))
            (seen ++ [c]).
Proof.
  intros [Hsum Hbound Hkeys Hdays].
  set (k := dateKey (date c)).
  assert (Hget : forall v, map_get m k = Some v ->
            1 <= v <= classes_on_day k seen).
  { intros v Hv. apply Hbound. now apply map_get_elem. }
  assert (Hc : classes_on_day k (seen ++ [c]) = classes_on_day k seen + 1).
  { rewrite classes_on_day_app, classes_on_day_cons.
    rewrite decide_True by reflexivity.
    change (classes_on_day k []) with 0. lia. }
  split.
  - rewrite map_set_sum, Hsum, length_app. cbn [length]. lia.
  - intros k' v' Hin. apply map_set_elem in Hin as [Heq|Hin].
    + inversion Heq; subst k' v'. rewrite Hc.
      destruct (map_get m k) as [v|] eqn:Hv;
        cbv [default from_option Datatypes.id].
      * specialize (Hget v eq_refl). lia.
      * pose proof (classes_on_day_nonneg k seen). lia.
    + specialize (Hbound k' v' Hin). rewrite classes_on_day_app.
      pose proof (classes_on_day_nonneg k' [c]). lia.
  - rewrite map_set_keys. destruct (map_get m k) eqn:Hv; [exact Hkeys|].
    apply NoDup_app. split; [exact Hkeys|]. split; [|apply NoDup_singleton].
    intros x Hx Hx'. apply list_elem_of_singleton in Hx'. subst x.
    apply map_get_None in Hv. contradiction.
  - intros k'. rewrite map_set_keys.
    assert (Hsplit : (exists c', c' ∈ seen ++ [c] /\ dateKey (date c') = k') <->
                     (exists c', c' ∈ seen /\ dateKey (date c') = k') \/ k' = k).
    { split.
      - intros (c' & Hin & Hk). apply elem_of_app in Hin as [Hin|Hin].
        + left. eauto.
        + apply list_elem_of_singleton in Hin. subst c'. right. now symmetry.
      - intros [(c' & Hin & Hk)| ->].
        + exists c'. split; [apply elem_of_app; now left|exact Hk].
        + exists c. split; [apply elem_of_app; right; apply list_elem_of_here|].
          reflexivity. }
    rewrite Hsplit, <- Hdays.
    destruct (map_get m k) as [v|] eqn:Hv.
    + split; [now left|]. intros [H| ->]; [exact H|].
      apply map_get_elem in Hv.
      change k with (fst (k, v)). now apply list_elem_of_fmap_2.
    + rewrite elem_of_app, list_elem_of_singleton. tauto.
Qed.

Lemma counts_ok_fold cs : forall m seen,
  counts_ok m seen ->
  counts_ok (fold_left (fun m cls =>
                          map_set m (dateKey (date cls))
                                  (default 0 (map_get m (dateKey (date cls))) + 1))
                       cs m)
            (seen ++ cs).
Proof.
  induction cs as [|c cs IH]; intros m seen Hok; cbn [fold_left].
  - now rewrite app_nil_r.
  - replace (seen ++ c :: cs) with ((seen ++ [c]) ++ cs)
      by (now rewrite <- app_assoc).
    apply IH. now apply counts_ok_step.
Qed.

Lemma count_by_date_ok cs : counts_ok (count_by_date cs) cs.
Proof.
  unfold count_by_date. apply (counts_ok_fold cs [] []).
  split; cbn; [reflexivity| |constructor|].
  - intros k v H. inversion H.
  - intros k. split; [intros H; inversion H|].
    intros (c & H & _). inversion H.
Qed.

Lemma distribution_sum (maxPerDay : Z) (counts : list Z) : forall acc : Q,
  maxPerDay <> 0 ->
  exists t,
    fold_left (fun dq count =>
                 JS.add dq (JS.div (JS.of_Z count) (JS.of_Z maxPerDay)))
              counts (Fin acc) = Fin t /\
    (t == acc + inject_Z (foldr Z.add 0%Z counts) / inject_Z maxPerDay)%Q.
Proof.
  intros acc Hmax. revert acc.
  assert (HmaxQ : ~ (inject_Z maxPerDay == 0)%Q).
  { unfold Qeq. cbn. lia. }
  induction counts as [|count counts IH]; intros acc; cbn [fold_left foldr].
  - exists acc. split; [reflexivity|]. unfold Qdiv. rewrite Qmult_0_l. ring.
  - assert (Hstep :
      JS.add (Fin acc) (JS.div (JS.of_Z count) (JS.of_Z maxPerDay)) =
      Fin (Qred (acc + Qred (inject_Z count / inject_Z maxPerDay)))).
    { unfold JS.div, JS.of_Z, JS.Qzero_b. cbn [Qnum inject_Z].
      destruct (Z.eqb_spec maxPerDay 0) as [|_]; [contradiction|reflexivity]. }
    rewrite Hstep.
    destruct (IH (Qred (acc + Qred (inject_Z count / inject_Z maxPerDay))))
      as (t & Hrun & Ht).
    exists t. split; [exact Hrun|].
    rewrite Ht, !Qred_correct, inject_Z_plus. field. exact HmaxQ.
Qed.

Lemma sum_bound (maxPerDay : Z) (counts : list Z) :
  Forall (fun v => 1 <= v <= maxPerDay) counts ->
  Z.of_nat (length counts) <= foldr Z.add 0 counts <=
  Z.of_nat (length counts) * maxPerDay.
Proof.
  induction 1 as [|v counts Hv _ IH]; cbn [foldr length]; lia.
Qed.

(** X19.  [distributionQuality] in closed form: for a schedule that holds
    a class, it is the number of classes divided by [maxClassesPerDay]
    times the number of days the schedule uses.  When no day is above
    [maxClassesPerDay] it lies in (0, 1], and it is 1 exactly when every
    day in use is full. *)
Theorem distributionQuality_closed_form e cs :
  cs <> [] -> maxClassesPerDay (eng_constraints e) <> 0 ->
  exists (q : Q) (days : list Z),
    calc_distributionQuality e cs = Fin q /\
    NoDup days /\
    (forall k, k ∈ days <-> exists c, c ∈ cs /\ dateKey (date c) = k) /\
    (q == inject_Z (Z.of_nat (length cs)) /
          (inject_Z (maxClassesPerDay (eng_constraints e)) *
           inject_Z (Z.of_nat (length days))))%Q /\
    (cap_ok (maxClassesPerDay (eng_constraints e)) cs ->
       0 < maxClassesPerDay (eng_constraints e) ->
       (0 < q)%Q /\ (q <= 1)%Q).
Proof.
  intros Hne Hmax. unfold calc_distributionQuality.
  pose proof (count_by_date_ok cs) as [Hsum Hbound Hkeys Hdays].
  set (m := count_by_date cs) in *.
  set (maxPerDay := maxClassesPerDay (eng_constraints e)) in *.
  assert (Hlen : (0 < length cs)%nat).
  { destruct cs; [congruence|cbn; lia]. }
  assert (Hm : (0 < length m)%nat).
  { destruct cs as [|c cs]; [congruence|].
    assert (Hk : dateKey (date c) ∈ (fst <$> m)).
    { apply Hdays. exists c. split; [apply list_elem_of_here|reflexivity]. }
    destruct m; [inversion Hk|cbn; lia]. }
  destruct (distribution_sum maxPerDay (List.map snd m) 0 Hmax)
    as (t & Hrun & Ht).
  rewrite Hrun. destruct (Nat.ltb_spec 0 (length m)) as [_|]; [|lia].
  unfold JS.div, JS.of_nat, JS.of_Z, JS.Qzero_b. cbn [Qnum inject_Z].
  destruct (Z.eqb_spec (Z.of_nat (length m)) 0); [lia|].
  assert (HmaxQ : ~ (inject_Z maxPerDay == 0)%Q).
  { unfold Qeq. cbn. lia. }
  assert (HmQ : ~ (inject_Z (Z.of_nat (length m)) == 0)%Q).
  { unfold Qeq. cbn. lia. }
  assert (Hq : (Qred (t / inject_Z (Z.of_nat (length m))) ==
                inject_Z (Z.of_nat (length cs)) /
                (inject_Z maxPerDay * inject_Z (Z.of_nat (length m))))%Q).
  { rewrite Qred_correct, Ht.
    change (List.map snd m) with (snd <$> m). rewrite Hsum.
    field. split; assumption. }
  exists (Qred (t / inject_Z (Z.of_nat (length m)))), (fst <$> m).
  split; [reflexivity|]. split; [exact Hkeys|]. split; [exact Hdays|].
  rewrite length_fmap. split; [exact Hq|].
  intros Hcap Hpos. rewrite Hq.
  assert (Hden : (0 < inject_Z maxPerDay * inject_Z (Z.of_nat (length m)))%Q).
  { rewrite <- inject_Z_mult. rewrite <- (Zlt_Qlt 0). nia. }
  split.
  - apply Qlt_shift_div_l; [exact Hden|]. rewrite Qmult_0_l.
    rewrite <- (Zlt_Qlt 0). lia.
  - apply Qle_shift_div_r; [exact Hden|]. rewrite Qmult_1_l.
    rewrite <- inject_Z_mult, <- Zle_Qle.
    assert (Hall : Forall (fun v => 1 <= v <= maxPerDay) (snd <$> m)).
    { apply Forall_fmap, Forall_forall. intros [k v] Hin. cbn.
      destruct (Hbound k v Hin) as [H1 H2]. split; [exact H1|].
      specialize (Hcap k). lia. }
    apply sum_bound in Hall. rewrite length_fmap, Hsum in Hall. lia.
Qed.


Lemma distributionQuality_closed_form_witness :
  exists (q : Q) (days : list Z),
    calc_distributionQuality (engine_for scenario_same_day) scenario_same_day =
      Fin q /\
    (q == inject_Z 4 / (inject_Z 2 * inject_Z (Z.of_nat (length days))))%Q.
Proof.
  assert (Hne : scenario_same_day <> []) by discriminate.
  assert (Hmax : maxClassesPerDay
                   (eng_constraints (engine_for scenario_same_day)) <> 0)
    by discriminate.
  destruct (distributionQuality_closed_form (engine_for scenario_same_day)
              scenario_same_day Hne Hmax) as (q & days & Hq & _ & _ & Heq & _).
  exists q, days. split; [exact Hq|exact Heq].
Defined.

(** * Validation of constraints and day conflicts *)

(** X20.  The two numeric validations together accept exactly the pairs
    with [1 <= maxPeriodsPerDay <= 8] and
    [5 * maxPeriodsPerDay <= maxPeriodsPerWeek <= 40].  The week validation
    treats a [maxPeriodsPerDay] of 0 as absent and lets a negative one
    pass, and on its own already bounds [maxPeriodsPerDay] by 8. *)
Theorem validations_accept (week day : Z) :
  (validateMaxPeriodsPerDay day && validateMaxPeriodsPerWeek week (Some day)
     = true <->
   1 <= day <= 8 /\ 5 * day <= week <= 40) /\
  validateMaxPeriodsPerWeek week (Some 0) = validateMaxPeriodsPerWeek week None /\
  (validateMaxPeriodsPerWeek week (Some day) = true <->
   0 < week <= 40 /\ (day = 0 \/ day * 5 <= week)) /\
  (validateMaxPeriodsPerWeek week (Some day) = true -> day <= 8).
Proof.
  unfold validateMaxPeriodsPerDay, validateMaxPeriodsPerWeek.
  destruct (Z.ltb_spec 0 day), (Z.leb_spec day 8), (Z.leb_spec week 0),
    (Z.ltb_spec 40 week), (Z.eqb_spec day 0), (Z.ltb_spec week (day * 5));
    cbn; intuition (try congruence; try lia).
Qed.

(** X21.  [hasConflict] of the utilities answers by the first entry for the
    day of the week: the period conflicts exactly when that entry lists
    it; later entries for the same day are not read. *)
Theorem utils_hasConflict_first_entry (p d : Z) conflicts :
  ScheduleUtils.hasConflict p d conflicts = true <->
  exists (i : nat) entry,
    conflicts !! i = Some entry /\
    ScheduleUtils.dayOfWeek entry = d /\
    (forall (j : nat) other, (j < i)%nat -> conflicts !! j = Some other ->
       ScheduleUtils.dayOfWeek other <> d) /\
    p ∈ ScheduleUtils.conflict_periods entry.
Proof.
  unfold ScheduleUtils.hasConflict.
  assert (Hin : forall l, existsb (Z.eqb p) l = true <-> p ∈ l).
  { intros l. rewrite existsb_exists. split.
    - intros (x & Hx & Heq). apply Z.eqb_eq in Heq. subst x.
      now apply list_elem_of_In.
    - intros H. exists p. split; [now apply list_elem_of_In|apply Z.eqb_refl]. }
  induction conflicts as [|c cs IH]; cbn [List.find].
  - split; [discriminate|]. intros (i & entry & H & _). now rewrite lookup_nil in H.
  - destruct (Z.eqb_spec (ScheduleUtils.dayOfWeek c) d) as [Heq|Hne].
    + rewrite Hin. split.
      * intros Hp. exists O, c. repeat split; auto. intros j other Hj. lia.
      * intros ([|i] & entry & Hi & Hd & Hfirst & Hp); cbn in Hi.
        -- now inversion Hi; subst.
        -- exfalso. apply (Hfirst O c); [lia|reflexivity|exact Heq].
    + rewrite IH. split.
      * intros (i & entry & Hi & Hd & Hfirst & Hp).
        exists (S i), entry. repeat split; auto.
        intros [|j] other Hj Hother; cbn in Hother.
        -- now inversion Hother; subst.
        -- eapply Hfirst; [|exact Hother]. lia.
      * intros ([|i] & entry & Hi & Hd & Hfirst & Hp); cbn in Hi.
        -- inversion Hi; subst. contradiction.
        -- exists i, entry. repeat split; auto.
           intros j other Hj Hother. apply (Hfirst (S j) other); [lia|exact Hother].
Qed.

(** * The runs the aggregator makes *)


